(** * AuroraLang native compiler stub: a shallow embedding

    The development follows [src/aurc_native/src/compiler_stub.c]:
    C strings and the few libc routines the stub relies on, the program
    IR, the three shape recognizers, the validator, the instruction
    encoder and manifest writer, the manifest assembler, and a small
    evaluator for the instruction templates the writer emits. *)

From Stdlib Require Import ZArith List String Ascii Bool Lia DecimalString.
Import ListNotations.

Local Open Scope string_scope.
Local Open Scope Z_scope.

(** ** Diagnostics

    One constructor per [fprintf (stderr, ...)] or [perror] message of the
    stub that the model reaches.  Every failing path of the C code returns
    1; the constructor records which message accompanied it. *)

Inductive diag : Type :=
  (* add_string_binding *)
  | DuplicateStringBinding
  | TooManyStringBindings
  (* parse_loop_sum_program *)
  | DuplicateIntBinding
  | TooManyIntBindingsLoop
  | MalformedExitLoop
  | MalformedReturnLoop
  | ExpectedWhileLoop
  | LoopBodyTooShort
  | ExpectedAccumulatorAssignment
  | ExpectedCounterDecrement
  | AccumulatorUpdateSameVariable
  | AccumulatorMustAddCounter
  | DecrementMustTargetCounter
  | DecrementMustSubtractOne
  | UndefinedLoopVariable
  (* parse_pi_program *)
  | MultipleMultiplication
  | MalformedMultiplication
  | MultipleDivision
  | MalformedDivision
  | UnsupportedInitializer
  | TooManyIntBindingsPi
  | MalformedExitPi
  | MalformedReturnPi
  | PiRequiresMulAndDiv
  | PiMissingExitOrReturn
  | PiExitReturnMismatch
  | PiExitMustTargetResult
  | PiMustDivideTemporary
  | PiUndefinedBinding
  (* parse_source *)
  | InputTooLarge
  | UnsupportedProgramShape
  (* validate_program *)
  | ExpectedStringBinding
  | ExpectedPrintCall
  | ExpectedExitAndReturn
  | PrintArgumentUnbound
  | PrintArgumentMismatch
  | ExitReturnValueMismatch
  | OnlyExitCodeZero
  | LoopMissingAccumulatorOrCounter
  | LoopExitReturnNotAccumulator
  | PiMissingBindings
  | PiDenominatorZero
  | PiExitReturnNotResult
  | UnrecognisedProgramKind
  (* emission *)
  | OutputNotOpened
  | PrintBindingNotResolved
  | ImmediateOutOfRange
  | UnsupportedKindForEmission
  (* assembler *)
  | BytesMissingHexLiteral
  | InvalidHexDigit
  | OddHexDigits
  | BytesNoData
  | AsciiMissingOpeningQuote
  | AsciiIncompleteEscape
  | AsciiUnsupportedEscape
  | AsciiMissingClosingQuote
  | PadMissingValue
  | PadInvalidValue.

(** A C return code is modelled by [option diag]: [None] is 0, [Some d] is
    1 with the diagnostic [d]. *)

(** ** C strings and <ctype.h>, <string.h>

    A C string is modelled by [string]; the terminating NUL is implicit, so
    the strings of the model never contain the NUL character. *)

Module CStr.

Definition code (c : ascii) : Z := Z.of_N (N_of_ascii c).

Definition dquote : ascii := ascii_of_nat 34.
Definition backslash : ascii := ascii_of_nat 92.
Definition newline : ascii := ascii_of_nat 10.
Definition cret : ascii := ascii_of_nat 13.
Definition tab : ascii := ascii_of_nat 9.

(** [isspace] in the C locale: space, and \t \n \v \f \r. *)
Definition isspace (c : ascii) : bool :=
  let n := code c in (n =? 32) || ((9 <=? n) && (n <=? 13)).

Definition is_empty (s : string) : bool :=
  match s with EmptyString => true | String _ _ => false end.

(** First character test, [*s == c]. *)
Definition starts_with_char (c : ascii) (s : string) : bool :=
  match s with EmptyString => false | String d _ => Ascii.eqb d c end.

(** [strncmp (s, lit, strlen lit) == 0]. *)
Definition has_prefix (lit s : string) : bool := String.prefix lit s.

Fixpoint ltrim (s : string) : string :=
  match s with
  | EmptyString => EmptyString
  | String c s' => if isspace c then ltrim s' else s
  end.

Fixpoint rtrim (s : string) : string :=
  match s with
  | EmptyString => EmptyString
  | String c s' =>
      let t := rtrim s' in
      if isspace c && is_empty t then EmptyString else String c t
  end.

(** [trim]: skip leading white space, cut trailing white space. *)
Definition trim (s : string) : string := rtrim (ltrim s).

Fixpoint drop (n : nat) (s : string) : string :=
  match n, s with
  | O, _ => s
  | S _, EmptyString => EmptyString
  | S n', String _ s' => drop n' s'
  end.

Fixpoint take (n : nat) (s : string) : string :=
  match n, s with
  | O, _ => EmptyString
  | S _, EmptyString => EmptyString
  | S n', String c s' => String c (take n' s')
  end.

(** [strchr]: offset of the first occurrence of [c]. *)
Fixpoint strchr (s : string) (c : ascii) : option nat :=
  match s with
  | EmptyString => None
  | String d s' =>
      if Ascii.eqb d c then Some O
      else match strchr s' c with Some i => Some (S i) | None => None end
  end.

(** [strrchr]: offset of the last occurrence of [c]. *)
Fixpoint strrchr (s : string) (c : ascii) : option nat :=
  match s with
  | EmptyString => None
  | String d s' =>
      match strrchr s' c with
      | Some i => Some (S i)
      | None => if Ascii.eqb d c then Some O else None
      end
  end.

(** [strstr]: the suffix of [h] that starts at the first occurrence of [n]. *)
Fixpoint strstr (h n : string) : option string :=
  if has_prefix n h then Some h
  else match h with
       | EmptyString => None
       | String _ h' => strstr h' n
       end.

(** [fgets (buffer, size, fp)] with [n = size - 1]: at most [n] characters,
    stopping after a newline.  Returns the chunk and the rest of the stream. *)
Fixpoint fgets (n : nat) (stream : string) : string * string :=
  match n, stream with
  | O, _ => (EmptyString, stream)
  | S _, EmptyString => (EmptyString, EmptyString)
  | S n', String c rest =>
      if Ascii.eqb c newline then (String c EmptyString, rest)
      else let (a, b) := fgets n' rest in (String c a, b)
  end.

(** The successive results of [fgets] until end of file.  Each call on a
    non-empty stream consumes a character, so the length of the stream is
    fuel enough. *)
Fixpoint fgets_loop (fuel : nat) (n : nat) (stream : string) : list string :=
  match fuel with
  | O => []
  | S fuel' =>
      if is_empty stream then []
      else let (chunk, rest) := fgets n stream in
           chunk :: fgets_loop fuel' n rest
  end.

Definition fgets_all (size : nat) (stream : string) : list string :=
  fgets_loop (String.length stream) (size - 1) stream.

End CStr.

(** ** <stdlib.h>: strtoll and strtoul *)

Module CStdlib.
Import CStr.

Definition LLONG_MAX : Z := 2 ^ 63 - 1.
Definition LLONG_MIN : Z := - 2 ^ 63.
(** [unsigned long] of an LP64 host. *)
Definition ULONG_MAX : Z := 2 ^ 64 - 1.

(** Value of [c] as a digit of [base], if it is one. *)
Definition digit_value (base : Z) (c : ascii) : option Z :=
  let n := code c in
  let v :=
    if (48 <=? n) && (n <=? 57) then n - 48
    else if (97 <=? n) && (n <=? 122) then n - 97 + 10
    else if (65 <=? n) && (n <=? 90) then n - 65 + 10
    else 99 in
  if v <? base then Some v else None.

(** Longest run of digits of [base]: accumulated value, number of digits,
    remaining input. *)
Fixpoint digits (base : Z) (s : string) (acc : Z) (count : nat)
  : Z * nat * string :=
  match s with
  | EmptyString => (acc, count, s)
  | String c s' =>
      match digit_value base c with
      | Some v => digits base s' (acc * base + v) (S count)
      | None => (acc, count, s)
      end
  end.

(** Optional sign; [true] when negative. *)
Definition sign (s : string) : bool * string :=
  match s with
  | String c s' =>
      if Ascii.eqb c "-" then (true, s')
      else if Ascii.eqb c "+" then (false, s')
      else (false, s)
  | EmptyString => (false, s)
  end.

(** [strtoll (s, &end, 10)].  [None] stands for [end == s] (no conversion);
    otherwise the clamped value and the text [end] points to. *)
Definition strtoll10 (s : string) : option (Z * string) :=
  let (neg, body) := sign (ltrim s) in
  match digits 10 body 0 O with
  | (_, O, _) => None
  | (v, _, rest) =>
      let v := if neg then - v else v in
      Some (Z.max LLONG_MIN (Z.min LLONG_MAX v), rest)
  end.

(** [strtoul (s, &end, 0)]: base from the prefix ([0x] hexadecimal, [0]
    octal, decimal otherwise); a value beyond [ULONG_MAX] yields
    [ULONG_MAX], a minus sign negates modulo 2^64. *)
Definition strtoul0 (s : string) : option (Z * string) :=
  let (neg, body) := sign (ltrim s) in
  let finish (v : Z) (rest : string) :=
    if ULONG_MAX <? v then Some (ULONG_MAX, rest)
    else Some ((if neg then (- v) mod 2 ^ 64 else v), rest) in
  match body with
  | String "0" (String x body') =>
      if Ascii.eqb x "x" || Ascii.eqb x "X" then
        match digits 16 body' 0 O with
        | (_, O, _) => Some (0, String x body')
        | (v, _, rest) => finish v rest
        end
      else
        match digits 8 (String x body') 0 O with
        | (v, _, rest) => finish v rest
        end
  | String "0" EmptyString => Some (0, EmptyString)
  | _ =>
      match digits 10 body 0 O with
      | (_, O, _) => None
      | (v, _, rest) => finish v rest
      end
  end.

End CStdlib.

(** ** The manifest assembler *)

Module Assembler.
Import CStr CStdlib.
Local Open Scope list_scope.

(** Content of the binary file: bytes as integers in [0, 256). *)
Definition image := list Z.

Definition hex_value (c : Z) : Z :=
  if (code "0" <=? c) && (c <=? code "9") then c - code "0"
  else if (code "a" <=? c) && (c <=? code "f") then 10 + (c - code "a")
  else if (code "A" <=? c) && (c <=? code "F") then 10 + (c - code "A")
  else -1.

(** The [for] loop of [emit_hex_bytes].  The state is [high], [written] and
    the file; the result is [inl] of the state when the loop ends (at the
    end of the text or at a [break]) and [inr] of the file when the loop
    returns 1 on an invalid digit. *)
Fixpoint emit_hex_loop (p : string) (high : Z) (written : Z) (out : image)
  : (Z * Z * image) + image :=
  match p with
  | EmptyString => inl (high, written, out)
  | String c p' =>
      if Ascii.eqb c ";" || isspace c then inl (high, written, out)
      else if Ascii.eqb c "_" then emit_hex_loop p' high written out
      else
        let v := hex_value (code c) in
        if v <? 0 then inr out
        else if high <? 0 then emit_hex_loop p' v written out
        else
          let byte := Z.lor (Z.shiftl high 4) v mod 256 in
          emit_hex_loop p' (-1) (written + 1) (out ++ [byte])
  end.

Definition emit_hex_bytes (out : image) (hex : string) : option diag * image :=
  match emit_hex_loop hex (-1) 0 out with
  | inr out' => (Some InvalidHexDigit, out')
  | inl (high, written, out') =>
      if 0 <=? high then (Some OddHexDigits, out')
      else if written =? 0 then (Some BytesNoData, out')
      else (None, out')
  end.

(** The [while] loop of [emit_ascii_bytes], from the character after the
    opening quote. *)
Fixpoint emit_ascii_loop (p : string) (out : image) : option diag * image :=
  match p with
  | EmptyString => (Some AsciiMissingClosingQuote, out)
  | String c p' =>
      if Ascii.eqb c dquote then (None, out)
      else if Ascii.eqb c backslash then
        match p' with
        | EmptyString => (Some AsciiIncompleteEscape, out)
        | String e p'' =>
            if Ascii.eqb e backslash then emit_ascii_loop p'' (out ++ [code backslash])
            else if Ascii.eqb e dquote then emit_ascii_loop p'' (out ++ [code dquote])
            else if Ascii.eqb e "n" then emit_ascii_loop p'' (out ++ [code newline])
            else if Ascii.eqb e "r" then emit_ascii_loop p'' (out ++ [code cret])
            else if Ascii.eqb e "t" then emit_ascii_loop p'' (out ++ [code tab])
            else if Ascii.eqb e "0" then emit_ascii_loop p'' (out ++ [0])
            else (Some AsciiUnsupportedEscape, out)
        end
      else emit_ascii_loop p' (out ++ [code c])
  end.

Definition emit_ascii_bytes (out : image) (line : string) : option diag * image :=
  match strchr line dquote with
  | None => (Some AsciiMissingOpeningQuote, out)
  | Some i => emit_ascii_loop (drop (S i) line) out
  end.

Definition emit_pad (out : image) (line : string) : option diag * image :=
  let value := ltrim (drop 3 line) in
  if is_empty value then (Some PadMissingValue, out)
  else
    match strtoul0 value with
    | None => (Some PadInvalidValue, out)
    | Some (count, _) => (None, out ++ repeat 0 (Z.to_nat count))
    end.

Definition halt_bytes : image := [12; 0; 0; 0; 0; 0; 0; 0].

(** One iteration of the [while (fgets ...)] loop of
    [aurc_assemble_manifest] on the chunk [buffer]. *)
Definition assemble_line (out : image) (buffer : string) : option diag * image :=
  let line := trim buffer in
  if is_empty line || starts_with_char "#" line then (None, out)
  else if has_prefix "bytes" line then
    match strstr line "0x" with
    | None => (Some BytesMissingHexLiteral, out)
    | Some hex => emit_hex_bytes out (drop 2 hex)
    end
  else if has_prefix "ascii" line then emit_ascii_bytes out line
  else if has_prefix "pad" line then emit_pad out line
  else if has_prefix "halt" line then (None, out ++ halt_bytes)
  else (None, out).

(** The loop: the first failing directive ends it ([rc = 1; break]). *)
Fixpoint assemble_lines (lines : list string) (out : image) : option diag * image :=
  match lines with
  | [] => (None, out)
  | buffer :: rest =>
      match assemble_line out buffer with
      | (Some d, out') => (Some d, out')
      | (None, out') => assemble_lines rest out'
      end
  end.

(** [aurc_assemble_manifest]: the binary file is opened with mode "wb", so
    it starts empty whatever it held before; the result is the return code
    and the content of the binary file after [fclose]. *)
Definition aurc_assemble_manifest (manifest : string) (old_binary : image)
  : option diag * image :=
  assemble_lines (fgets_all 4096 manifest) [].

End Assembler.

(** ** <stdio.h>: the fragment of sscanf the recognizers use *)

Module Scanf.
Import CStr CStdlib.
Local Open Scope list_scope.

(** Directives of a format: white space, an ordinary character, a negated
    scanset with a maximum field width ([%127[^:]]), and [%d]. *)
Inductive directive : Type :=
  | DSpace
  | DLit (c : ascii)
  | DSet (width : nat) (excluded : list ascii)
  | DInt.

(** A converted argument. *)
Inductive conv : Type :=
  | CStr (s : string)
  | CInt (v : Z).

Inductive fstate : Type :=
  | FText
  | FWidth (w : nat)
  | FCaret (w : nat)
  | FSet (w : nat) (acc : list ascii).

Definition digit_of (c : ascii) : option nat :=
  let n := code c in
  if (48 <=? n) && (n <=? 57) then Some (Z.to_nat (n - 48)) else None.

(** Reading a format string into directives. *)
Fixpoint parse_format (st : fstate) (f : string) : list directive :=
  match f with
  | EmptyString => []
  | String c f' =>
      match st with
      | FText =>
          if Ascii.eqb c "%" then parse_format (FWidth 0) f'
          else if isspace c then DSpace :: parse_format FText f'
          else DLit c :: parse_format FText f'
      | FWidth w =>
          match digit_of c with
          | Some d => parse_format (FWidth (10 * w + d)) f'
          | None =>
              if Ascii.eqb c "d" then DInt :: parse_format FText f'
              else if Ascii.eqb c "[" then parse_format (FCaret w) f'
              else parse_format FText f'
          end
      | FCaret w => parse_format (FSet w []) f'
      | FSet w acc =>
          if Ascii.eqb c "]" then DSet w (rev acc) :: parse_format FText f'
          else parse_format (FSet w (c :: acc)) f'
      end
  end.

Definition format (f : string) : list directive := parse_format FText f.

Definition excluded_by (excluded : list ascii) (c : ascii) : bool :=
  existsb (Ascii.eqb c) excluded.

(** The longest prefix of at most [w] characters outside [excluded], and the
    rest of the input. *)
Fixpoint scan_set (w : nat) (excluded : list ascii) (input : string)
  : string * string :=
  match w, input with
  | O, _ => (EmptyString, input)
  | S _, EmptyString => (EmptyString, EmptyString)
  | S w', String c rest =>
      if excluded_by excluded c then (EmptyString, input)
      else let (tok, rest') := scan_set w' excluded rest in (String c tok, rest')
  end.

(** Storing a [long long] or [long] into an [int]: reduction modulo 2^32
    into the signed range. *)
Definition to_int (v : Z) : Z := (v + 2 ^ 31) mod 2 ^ 32 - 2 ^ 31.

(** [%d]: leading white space is skipped, then an optional sign and at
    least one decimal digit.  The value goes through [long] (clamped as by
    [strtol]) and is stored into the [int] argument. *)
Definition scan_int (input : string) : option (Z * string) :=
  match strtoll10 input with
  | Some (v, rest) => Some (to_int v, rest)
  | None => None
  end.

(** [sscanf (input, fmt, ...)]: the conversions performed, in order; the
    return value of the C function is their number (or EOF, which the stub
    never distinguishes from 0). *)
Fixpoint sscanf (fmt : list directive) (input : string) : list conv :=
  match fmt with
  | [] => []
  | DSpace :: fmt' => sscanf fmt' (ltrim input)
  | DLit c :: fmt' =>
      match input with
      | String d input' => if Ascii.eqb d c then sscanf fmt' input' else []
      | EmptyString => []
      end
  | DSet w excluded :: fmt' =>
      let (tok, rest) := scan_set w excluded input in
      if is_empty tok then [] else CStr tok :: sscanf fmt' rest
  | DInt :: fmt' =>
      match scan_int input with
      | Some (v, rest) => CInt v :: sscanf fmt' rest
      | None => []
      end
  end.

Definition q : string := String dquote EmptyString.

(** The formats of the stub, in the order of their appearance. *)
Definition fmt_let_string : list directive :=
  Eval vm_compute in
    format ("let %127[^:]: string = " ++ q ++ "%1023[^" ++ q ++ "]" ++ q ++ ";").
Definition fmt_exit_int : list directive :=
  Eval vm_compute in format "request service exit(%d);".
Definition fmt_return_int : list directive :=
  Eval vm_compute in format "return %d;".
Definition fmt_let_int : list directive :=
  Eval vm_compute in format "let %127[^:]: int = %d;".
Definition fmt_while : list directive :=
  Eval vm_compute in format "while %127[^>]> 0 {".
Definition fmt_exit_var : list directive :=
  Eval vm_compute in format "request service exit(%127[^)]);".
Definition fmt_return_var : list directive :=
  Eval vm_compute in format "return %127[^;];".
Definition fmt_add : list directive :=
  Eval vm_compute in format "%127[^=]= %127[^+]+ %127[^;];".
Definition fmt_sub : list directive :=
  Eval vm_compute in format "%127[^=]= %127[^-]- %127[^;];".
Definition fmt_let_expr : list directive :=
  Eval vm_compute in format "let %127[^:]: int = %255[^;];".
Definition fmt_mul : list directive :=
  Eval vm_compute in format "%127[^*]*%127[^;]".
Definition fmt_div : list directive :=
  Eval vm_compute in format "%127[^/]/%127[^;]".

End Scanf.

(** ** The program IR *)

Module IR.
Import CStr.

Definition MAX_STRING_BINDINGS : Z := 8.

Inductive program_kind : Type :=
  | PROGRAM_NONE
  | PROGRAM_STRING
  | PROGRAM_LOOP_SUM
  | PROGRAM_PI_TEST.

(** An entry of [bindings] in use.  The array and [string_binding_count]
    are modelled together by the list of the entries in use. *)
Record string_binding : Type := {
  name : string;
  literal : string
}.

Record loop_ir : Type := {
  accumulator : string;
  accumulator_init : Z;
  counter : string;
  counter_init : Z;
  loop_exit_var : string;
  loop_return_var : string
}.

Record pi_ir : Type := {
  numerator_var : string;
  numerator_value : Z;
  denominator_var : string;
  denominator_value : Z;
  scale_var : string;
  scale_value : Z;
  temp_var : string;
  temp_lhs : string;
  temp_rhs : string;
  result_var : string;
  result_lhs : string;
  result_rhs : string;
  pi_exit_var : string;
  pi_return_var : string
}.

Record program_ir : Type := {
  kind : program_kind;
  bindings : list string_binding;
  print_binding_index : Z;
  print_arg : string;
  have_print : bool;
  exit_value : Z;
  return_value : Z;
  have_exit : bool;
  have_return : bool;
  loop : loop_ir;
  pi : pi_ir
}.

Definition string_binding_count (ir : program_ir) : Z :=
  Z.of_nat (List.length (bindings ir)).

Definition zero_loop : loop_ir :=
  {| accumulator := ""; accumulator_init := 0; counter := ""; counter_init := 0;
     loop_exit_var := ""; loop_return_var := "" |}.

Definition zero_pi : pi_ir :=
  {| numerator_var := ""; numerator_value := 0;
     denominator_var := ""; denominator_value := 0;
     scale_var := ""; scale_value := 0;
     temp_var := ""; temp_lhs := ""; temp_rhs := "";
     result_var := ""; result_lhs := ""; result_rhs := "";
     pi_exit_var := ""; pi_return_var := "" |}.

(** The IR after [memset (ir, 0, sizeof *ir); ir->print_binding_index = -1]. *)
Definition fresh_ir : program_ir :=
  {| kind := PROGRAM_NONE; bindings := []; print_binding_index := -1;
     print_arg := ""; have_print := false; exit_value := 0; return_value := 0;
     have_exit := false; have_return := false;
     loop := zero_loop; pi := zero_pi |}.

(** Field assignments. *)
Definition set_kind (k : program_kind) (ir : program_ir) : program_ir :=
  {| kind := k; bindings := bindings ir;
     print_binding_index := print_binding_index ir; print_arg := print_arg ir;
     have_print := have_print ir; exit_value := exit_value ir;
     return_value := return_value ir; have_exit := have_exit ir;
     have_return := have_return ir; loop := loop ir; pi := pi ir |}.

Definition set_bindings (b : list string_binding) (ir : program_ir) : program_ir :=
  {| kind := kind ir; bindings := b;
     print_binding_index := print_binding_index ir; print_arg := print_arg ir;
     have_print := have_print ir; exit_value := exit_value ir;
     return_value := return_value ir; have_exit := have_exit ir;
     have_return := have_return ir; loop := loop ir; pi := pi ir |}.

Definition set_print_binding_index (i : Z) (ir : program_ir) : program_ir :=
  {| kind := kind ir; bindings := bindings ir;
     print_binding_index := i; print_arg := print_arg ir;
     have_print := have_print ir; exit_value := exit_value ir;
     return_value := return_value ir; have_exit := have_exit ir;
     have_return := have_return ir; loop := loop ir; pi := pi ir |}.

(** [ir->print_arg = a; ir->have_print = 1]. *)
Definition set_print (a : string) (ir : program_ir) : program_ir :=
  {| kind := kind ir; bindings := bindings ir;
     print_binding_index := print_binding_index ir; print_arg := a;
     have_print := true; exit_value := exit_value ir;
     return_value := return_value ir; have_exit := have_exit ir;
     have_return := have_return ir; loop := loop ir; pi := pi ir |}.

(** [ir->exit_value = v; ir->have_exit = 1]. *)
Definition set_exit (v : Z) (ir : program_ir) : program_ir :=
  {| kind := kind ir; bindings := bindings ir;
     print_binding_index := print_binding_index ir; print_arg := print_arg ir;
     have_print := have_print ir; exit_value := v;
     return_value := return_value ir; have_exit := true;
     have_return := have_return ir; loop := loop ir; pi := pi ir |}.

(** [ir->return_value = v; ir->have_return = 1]. *)
Definition set_return (v : Z) (ir : program_ir) : program_ir :=
  {| kind := kind ir; bindings := bindings ir;
     print_binding_index := print_binding_index ir; print_arg := print_arg ir;
     have_print := have_print ir; exit_value := exit_value ir;
     return_value := v; have_exit := have_exit ir;
     have_return := true; loop := loop ir; pi := pi ir |}.

Definition set_loop (l : loop_ir) (ir : program_ir) : program_ir :=
  {| kind := kind ir; bindings := bindings ir;
     print_binding_index := print_binding_index ir; print_arg := print_arg ir;
     have_print := have_print ir; exit_value := exit_value ir;
     return_value := return_value ir; have_exit := have_exit ir;
     have_return := have_return ir; loop := l; pi := pi ir |}.

Definition set_pi (p : pi_ir) (ir : program_ir) : program_ir :=
  {| kind := kind ir; bindings := bindings ir;
     print_binding_index := print_binding_index ir; print_arg := print_arg ir;
     have_print := have_print ir; exit_value := exit_value ir;
     return_value := return_value ir; have_exit := have_exit ir;
     have_return := have_return ir; loop := loop ir; pi := p |}.

Definition set_loop_exit_var (v : string) (l : loop_ir) : loop_ir :=
  {| accumulator := accumulator l; accumulator_init := accumulator_init l;
     counter := counter l; counter_init := counter_init l;
     loop_exit_var := v; loop_return_var := loop_return_var l |}.

Definition set_loop_return_var (v : string) (l : loop_ir) : loop_ir :=
  {| accumulator := accumulator l; accumulator_init := accumulator_init l;
     counter := counter l; counter_init := counter_init l;
     loop_exit_var := loop_exit_var l; loop_return_var := v |}.

(** The four assignments that end [parse_loop_sum_program]. *)
Definition set_loop_operands (acc : string) (acc_init : Z) (cnt : string)
    (cnt_init : Z) (l : loop_ir) : loop_ir :=
  {| accumulator := acc; accumulator_init := acc_init;
     counter := cnt; counter_init := cnt_init;
     loop_exit_var := loop_exit_var l; loop_return_var := loop_return_var l |}.

(** [strncpy (ir->pi.temp_var, ...)] and the two operands of the
    multiplication. *)
Definition set_pi_temp (v lhs rhs : string) (p : pi_ir) : pi_ir :=
  {| numerator_var := numerator_var p; numerator_value := numerator_value p;
     denominator_var := denominator_var p; denominator_value := denominator_value p;
     scale_var := scale_var p; scale_value := scale_value p;
     temp_var := v; temp_lhs := lhs; temp_rhs := rhs;
     result_var := result_var p; result_lhs := result_lhs p;
     result_rhs := result_rhs p;
     pi_exit_var := pi_exit_var p; pi_return_var := pi_return_var p |}.

Definition set_pi_result (v lhs rhs : string) (p : pi_ir) : pi_ir :=
  {| numerator_var := numerator_var p; numerator_value := numerator_value p;
     denominator_var := denominator_var p; denominator_value := denominator_value p;
     scale_var := scale_var p; scale_value := scale_value p;
     temp_var := temp_var p; temp_lhs := temp_lhs p; temp_rhs := temp_rhs p;
     result_var := v; result_lhs := lhs; result_rhs := rhs;
     pi_exit_var := pi_exit_var p; pi_return_var := pi_return_var p |}.

Definition set_pi_exit_var (v : string) (p : pi_ir) : pi_ir :=
  {| numerator_var := numerator_var p; numerator_value := numerator_value p;
     denominator_var := denominator_var p; denominator_value := denominator_value p;
     scale_var := scale_var p; scale_value := scale_value p;
     temp_var := temp_var p; temp_lhs := temp_lhs p; temp_rhs := temp_rhs p;
     result_var := result_var p; result_lhs := result_lhs p;
     result_rhs := result_rhs p;
     pi_exit_var := v; pi_return_var := pi_return_var p |}.

Definition set_pi_return_var (v : string) (p : pi_ir) : pi_ir :=
  {| numerator_var := numerator_var p; numerator_value := numerator_value p;
     denominator_var := denominator_var p; denominator_value := denominator_value p;
     scale_var := scale_var p; scale_value := scale_value p;
     temp_var := temp_var p; temp_lhs := temp_lhs p; temp_rhs := temp_rhs p;
     result_var := result_var p; result_lhs := result_lhs p;
     result_rhs := result_rhs p;
     pi_exit_var := pi_exit_var p; pi_return_var := v |}.

(** The six assignments that end [parse_pi_program]. *)
Definition set_pi_operands (nv : string) (n : Z) (sv : string) (s : Z)
    (dv : string) (d : Z) (p : pi_ir) : pi_ir :=
  {| numerator_var := nv; numerator_value := n;
     denominator_var := dv; denominator_value := d;
     scale_var := sv; scale_value := s;
     temp_var := temp_var p; temp_lhs := temp_lhs p; temp_rhs := temp_rhs p;
     result_var := result_var p; result_lhs := result_lhs p;
     result_rhs := result_rhs p;
     pi_exit_var := pi_exit_var p; pi_return_var := pi_return_var p |}.

(** [strncpy (dst, src, sizeof dst - 1); dst[sizeof dst - 1] = 0] for a
    destination of [size] characters. *)
Definition strncpy (size : nat) (src : string) : string := take (size - 1) src.

End IR.

(** ** The shape recognizers and the shape classifier *)

Module Recognizer.
Import CStr CStdlib Scanf IR.
Local Open Scope list_scope.

(** What one [if] block of a line loop does with the current line: it does
    not apply and control falls to the next block, it returns 1, or it
    updates the state and executes [continue]. *)
Inductive flow (A : Type) : Type :=
  | Fallthrough
  | Return1 (d : diag)
  | Continue (a : A).
Arguments Fallthrough {A}.
Arguments Return1 {A} d.
Arguments Continue {A} a.

(** The blocks in source order: the first one that does not fall through
    decides. *)
Fixpoint first_block {A : Type} (blocks : list (flow A)) : flow A :=
  match blocks with
  | [] => Fallthrough
  | Fallthrough :: rest => first_block rest
  | b :: _ => b
  end.

(** *** String programs *)

Fixpoint find_index (bs : list string_binding) (nm : string) (i : Z) : Z :=
  match bs with
  | [] => -1
  | b :: bs' => if String.eqb (name b) nm then i else find_index bs' nm (i + 1)
  end.

Definition find_string_binding_index (ir : program_ir) (nm : string) : Z :=
  find_index (bindings ir) nm 0.

Definition add_string_binding (ir : program_ir) (nm lit : string)
  : diag + (program_ir * Z) :=
  if 0 <=? find_string_binding_index ir nm then inl DuplicateStringBinding
  else if MAX_STRING_BINDINGS <=? string_binding_count ir then inl TooManyStringBindings
  else
    let binding := {| name := strncpy 128 nm; literal := strncpy 1024 lit |} in
    let ir' := set_bindings (bindings ir ++ [binding]) ir in
    inr (ir', string_binding_count ir' - 1).

Definition string_let (line : string) (ir : program_ir) : flow program_ir :=
  if has_prefix "let " line then
    match sscanf fmt_let_string line with
    | [CStr nm; CStr lit] =>
        match add_string_binding ir (trim nm) lit with
        | inl d => Return1 d
        | inr (ir', _) => Continue ir'
        end
    | _ => Fallthrough
    end
  else Fallthrough.

Definition string_print (line : string) (ir : program_ir) : flow program_ir :=
  if has_prefix "request service print" line then
    match strchr line "(", strrchr line ")" with
    | Some open, Some close =>
        if (S open <? close)%nat then
          let len := (close - open - 1)%nat in
          let len := if (128 <=? len)%nat then 127%nat else len in
          let arg := trim (take len (drop (S open) line)) in
          let ir1 := set_print arg ir in
          let idx := find_string_binding_index ir1 arg in
          Continue (if 0 <=? idx then set_print_binding_index idx ir1 else ir1)
        else Fallthrough
    | _, _ => Fallthrough
    end
  else Fallthrough.

Definition string_exit (line : string) (ir : program_ir) : flow program_ir :=
  if has_prefix "request service exit" line then
    match sscanf fmt_exit_int line with
    | [CInt v] => Continue (set_exit v ir)
    | _ => Fallthrough
    end
  else Fallthrough.

Definition string_return (line : string) (ir : program_ir) : flow program_ir :=
  if has_prefix "return" line then
    match sscanf fmt_return_int line with
    | [CInt v] => Continue (set_return v ir)
    | _ => Fallthrough
    end
  else Fallthrough.

Definition string_line (line : string) (ir : program_ir) : flow program_ir :=
  first_block [string_let line ir; string_print line ir;
               string_exit line ir; string_return line ir].

Fixpoint parse_string_lines (lines : list string) (ir : program_ir)
  : diag + program_ir :=
  match lines with
  | [] => inr ir
  | line :: rest =>
      match string_line line ir with
      | Return1 d => inl d
      | Continue ir' => parse_string_lines rest ir'
      | Fallthrough => parse_string_lines rest ir
      end
  end.

Definition parse_string_program (lines : list string) (ir : program_ir)
  : diag + program_ir :=
  match parse_string_lines lines ir with
  | inl d => inl d
  | inr ir' => inr (set_kind PROGRAM_STRING ir')
  end.

(** *** Integer bindings *)

Record int_binding : Type := {
  ib_name : string;
  ib_value : Z
}.

Fixpoint find_binding (bs : list int_binding) (nm : string) : option int_binding :=
  match bs with
  | [] => None
  | b :: bs' => if String.eqb (ib_name b) nm then Some b else find_binding bs' nm
  end.

Definition binding_count (bs : list int_binding) : Z := Z.of_nat (List.length bs).

(** *** Loop-Sum programs *)

Record loop_scan : Type := {
  ls_bindings : list int_binding;
  ls_loop_start : Z;
  ls_loop_var : string;
  ls_ir : program_ir
}.

Definition loop_let (line : string) (st : loop_scan) : flow loop_scan :=
  if has_prefix "let " line
     && match strstr line ": int =" with Some _ => true | None => false end then
    match sscanf fmt_let_int line with
    | [CStr nm; CInt value] =>
        match find_binding (ls_bindings st) nm with
        | Some _ => Return1 DuplicateIntBinding
        | None =>
            if 8 <=? binding_count (ls_bindings st) then Return1 TooManyIntBindingsLoop
            else
              Continue
                {| ls_bindings :=
                     ls_bindings st ++ [{| ib_name := strncpy 128 nm; ib_value := value |}];
                   ls_loop_start := ls_loop_start st;
                   ls_loop_var := ls_loop_var st;
                   ls_ir := ls_ir st |}
        end
    | _ => Fallthrough
    end
  else Fallthrough.

Definition loop_while (i : Z) (line : string) (st : loop_scan) : flow loop_scan :=
  if has_prefix "while" line then
    match sscanf fmt_while line with
    | [CStr var] =>
        Continue
          {| ls_bindings := ls_bindings st;
             ls_loop_start := i;
             ls_loop_var := strncpy 128 (trim var);
             ls_ir := ls_ir st |}
    | _ => Continue st
    end
  else Fallthrough.

Definition loop_exit (line : string) (st : loop_scan) : flow loop_scan :=
  if has_prefix "request service exit" line then
    match sscanf fmt_exit_var line with
    | [CStr v] =>
        Continue
          {| ls_bindings := ls_bindings st;
             ls_loop_start := ls_loop_start st;
             ls_loop_var := ls_loop_var st;
             ls_ir := set_loop (set_loop_exit_var (trim v) (loop (ls_ir st))) (ls_ir st) |}
    | _ => Return1 MalformedExitLoop
    end
  else Fallthrough.

Definition loop_return (line : string) (st : loop_scan) : flow loop_scan :=
  if has_prefix "return" line then
    match sscanf fmt_return_var line with
    | [CStr v] =>
        Continue
          {| ls_bindings := ls_bindings st;
             ls_loop_start := ls_loop_start st;
             ls_loop_var := ls_loop_var st;
             ls_ir := set_loop (set_loop_return_var (trim v) (loop (ls_ir st))) (ls_ir st) |}
    | _ => Return1 MalformedReturnLoop
    end
  else Fallthrough.

Definition loop_line (i : Z) (line : string) (st : loop_scan) : flow loop_scan :=
  first_block [loop_let line st; loop_while i line st;
               loop_exit line st; loop_return line st].

(** The scanning loop, [i] being the index of the first line of [lines]. *)
Fixpoint loop_scan_lines (i : Z) (lines : list string) (st : loop_scan)
  : diag + loop_scan :=
  match lines with
  | [] => inr st
  | line :: rest =>
      match loop_line i line st with
      | Return1 d => inl d
      | Continue st' => loop_scan_lines (i + 1) rest st'
      | Fallthrough => loop_scan_lines (i + 1) rest st
      end
  end.

Definition line_at (lines : list string) (i : Z) : string :=
  nth (Z.to_nat i) lines EmptyString.

(** The part of [parse_loop_sum_program] that follows the scanning loop. *)
Definition loop_finish (lines : list string) (st : loop_scan) : diag + program_ir :=
  let loop_start := ls_loop_start st in
  let loop_var := ls_loop_var st in
  let ir := ls_ir st in
  if loop_start <? 0 then inl ExpectedWhileLoop
  else if Z.of_nat (List.length lines) <=? loop_start + 3 then inl LoopBodyTooShort
  else
    let add_line := line_at lines (loop_start + 1) in
    let sub_line := line_at lines (loop_start + 2) in
    match sscanf fmt_add add_line with
    | [CStr add_target; CStr add_lhs; CStr add_rhs] =>
        match sscanf fmt_sub sub_line with
        | [CStr sub_target; CStr sub_lhs; CStr sub_rhs] =>
            let trim_add_target := trim add_target in
            let trim_add_lhs := trim add_lhs in
            let trim_add_rhs := trim add_rhs in
            let trim_sub_target := trim sub_target in
            let trim_sub_lhs := trim sub_lhs in
            let trim_sub_rhs := trim sub_rhs in
            if negb (String.eqb trim_add_target trim_add_lhs) then
              inl AccumulatorUpdateSameVariable
            else if negb (String.eqb trim_add_rhs loop_var) then
              inl AccumulatorMustAddCounter
            else if negb (String.eqb trim_sub_target loop_var)
                    || negb (String.eqb trim_sub_lhs loop_var) then
              inl DecrementMustTargetCounter
            else if negb (String.eqb trim_sub_rhs "1") then
              inl DecrementMustSubtractOne
            else
              match find_binding (ls_bindings st) trim_add_target,
                    find_binding (ls_bindings st) loop_var with
              | Some acc_binding, Some counter_binding =>
                  inr (set_kind PROGRAM_LOOP_SUM
                         (set_loop
                            (set_loop_operands
                               (strncpy 128 trim_add_target) (ib_value acc_binding)
                               (strncpy 128 loop_var) (ib_value counter_binding)
                               (loop ir))
                            ir))
              | _, _ => inl UndefinedLoopVariable
              end
        | _ => inl ExpectedCounterDecrement
        end
    | _ => inl ExpectedAccumulatorAssignment
    end.

(** The state before the first line: no binding, [loop_start = -1],
    [loop_var] empty. *)
Definition loop_scan_start (ir : program_ir) : loop_scan :=
  {| ls_bindings := []; ls_loop_start := -1;
     ls_loop_var := EmptyString; ls_ir := ir |}.

Definition parse_loop_sum_program (lines : list string) (ir : program_ir)
  : diag + program_ir :=
  match loop_scan_lines 0 lines (loop_scan_start ir) with
  | inl d => inl d
  | inr st => loop_finish lines st
  end.

(** *** Pi-Approximation programs *)

Record pi_scan : Type := {
  ps_bindings : list int_binding;
  ps_have_mul : bool;
  ps_have_div : bool;
  ps_ir : program_ir
}.

Definition contains_char (s : string) (c : ascii) : bool :=
  match strchr s c with Some _ => true | None => false end.

(** The body of [if (strchr (expr, '*'))]. *)
Definition pi_mul (nm expr : string) (st : pi_scan) : flow pi_scan :=
  if ps_have_mul st then Return1 MultipleMultiplication
  else
    match sscanf fmt_mul expr with
    | [CStr lhs_buf; CStr rhs_buf] =>
        let lhs := trim lhs_buf in
        let rhs := trim rhs_buf in
        Continue
          {| ps_bindings := ps_bindings st;
             ps_have_mul := true;
             ps_have_div := ps_have_div st;
             ps_ir := set_pi (set_pi_temp (strncpy 128 nm) (strncpy 128 lhs)
                                (strncpy 128 rhs) (pi (ps_ir st))) (ps_ir st) |}
    | _ => Return1 MalformedMultiplication
    end.

(** The body of [if (strchr (expr, '/'))]. *)
Definition pi_div (nm expr : string) (st : pi_scan) : flow pi_scan :=
  if ps_have_div st then Return1 MultipleDivision
  else
    match sscanf fmt_div expr with
    | [CStr lhs_buf; CStr rhs_buf] =>
        let lhs := trim lhs_buf in
        let rhs := trim rhs_buf in
        Continue
          {| ps_bindings := ps_bindings st;
             ps_have_mul := ps_have_mul st;
             ps_have_div := true;
             ps_ir := set_pi (set_pi_result (strncpy 128 nm) (strncpy 128 lhs)
                                (strncpy 128 rhs) (pi (ps_ir st))) (ps_ir st) |}
    | _ => Return1 MalformedDivision
    end.

(** The literal initializer: [strtoll], then the store into the [int]
    field of the binding. *)
Definition pi_literal (nm expr : string) (st : pi_scan) : flow pi_scan :=
  match strtoll10 expr with
  | None => Return1 UnsupportedInitializer
  | Some (value, rest) =>
      if negb (is_empty rest) then Return1 UnsupportedInitializer
      else if 8 <=? binding_count (ps_bindings st) then Return1 TooManyIntBindingsPi
      else
        Continue
          {| ps_bindings :=
               ps_bindings st ++ [{| ib_name := strncpy 128 nm; ib_value := to_int value |}];
             ps_have_mul := ps_have_mul st;
             ps_have_div := ps_have_div st;
             ps_ir := ps_ir st |}
  end.

Definition pi_let (line : string) (st : pi_scan) : flow pi_scan :=
  if has_prefix "let " line then
    match sscanf fmt_let_expr line with
    | [CStr name_buf; CStr expr_buf] =>
        let nm := trim name_buf in
        let expr := trim expr_buf in
        if contains_char expr "*" then pi_mul nm expr st
        else if contains_char expr "/" then pi_div nm expr st
        else pi_literal nm expr st
    | _ => Fallthrough
    end
  else Fallthrough.

Definition pi_exit (line : string) (st : pi_scan) : flow pi_scan :=
  if has_prefix "request service exit" line then
    match sscanf fmt_exit_var line with
    | [CStr v] =>
        Continue
          {| ps_bindings := ps_bindings st;
             ps_have_mul := ps_have_mul st;
             ps_have_div := ps_have_div st;
             ps_ir := set_pi (set_pi_exit_var (trim v) (pi (ps_ir st))) (ps_ir st) |}
    | _ => Return1 MalformedExitPi
    end
  else Fallthrough.

Definition pi_return (line : string) (st : pi_scan) : flow pi_scan :=
  if has_prefix "return" line then
    match sscanf fmt_return_var line with
    | [CStr v] =>
        Continue
          {| ps_bindings := ps_bindings st;
             ps_have_mul := ps_have_mul st;
             ps_have_div := ps_have_div st;
             ps_ir := set_pi (set_pi_return_var (trim v) (pi (ps_ir st))) (ps_ir st) |}
    | _ => Return1 MalformedReturnPi
    end
  else Fallthrough.

Definition pi_line (line : string) (st : pi_scan) : flow pi_scan :=
  first_block [pi_let line st; pi_exit line st; pi_return line st].

Fixpoint pi_scan_lines (lines : list string) (st : pi_scan) : diag + pi_scan :=
  match lines with
  | [] => inr st
  | line :: rest =>
      match pi_line line st with
      | Return1 d => inl d
      | Continue st' => pi_scan_lines rest st'
      | Fallthrough => pi_scan_lines rest st
      end
  end.

(** The part of [parse_pi_program] that follows the scanning loop. *)
Definition pi_finish (st : pi_scan) : diag + program_ir :=
  let ir := ps_ir st in
  let p := pi ir in
  if negb (ps_have_mul st) || negb (ps_have_div st) then inl PiRequiresMulAndDiv
  else if is_empty (pi_exit_var p) || is_empty (pi_return_var p) then
    inl PiMissingExitOrReturn
  else if negb (String.eqb (pi_exit_var p) (pi_return_var p)) then
    inl PiExitReturnMismatch
  else if negb (String.eqb (result_var p) (pi_exit_var p)) then
    inl PiExitMustTargetResult
  else if negb (String.eqb (result_lhs p) (temp_var p)) then
    inl PiMustDivideTemporary
  else
    match find_binding (ps_bindings st) (temp_lhs p),
          find_binding (ps_bindings st) (temp_rhs p),
          find_binding (ps_bindings st) (result_rhs p) with
    | Some mul_lhs, Some mul_rhs, Some den_binding =>
        inr (set_kind PROGRAM_PI_TEST
               (set_pi
                  (set_pi_operands
                     (strncpy 128 (ib_name mul_lhs)) (ib_value mul_lhs)
                     (strncpy 128 (ib_name mul_rhs)) (ib_value mul_rhs)
                     (strncpy 128 (ib_name den_binding)) (ib_value den_binding)
                     p)
                  ir))
    | _, _, _ => inl PiUndefinedBinding
    end.

(** The state before the first line: no binding, neither statement seen,
    [memset (&ir->pi, 0, sizeof ir->pi)] done. *)
Definition pi_scan_start (ir : program_ir) : pi_scan :=
  {| ps_bindings := []; ps_have_mul := false; ps_have_div := false;
     ps_ir := set_pi zero_pi ir |}.

Definition parse_pi_program (lines : list string) (ir : program_ir)
  : diag + program_ir :=
  match pi_scan_lines lines (pi_scan_start ir) with
  | inl d => inl d
  | inr st => pi_finish st
  end.

(** *** The line loader and the shape classifier *)

(** The [fgets] loop of [parse_source]: trimmed, non-empty lines, at most
    256 of them. *)
Fixpoint load_lines (chunks : list string) (lines : list string)
  : diag + list string :=
  match chunks with
  | [] => inr lines
  | buffer :: rest =>
      let line := trim buffer in
      if is_empty line then load_lines rest lines
      else if 256 <=? Z.of_nat (List.length lines) then inl InputTooLarge
      else load_lines rest (lines ++ [strncpy 2048 line])
  end.

Definition has_string_binding (lines : list string) : bool :=
  existsb (fun l => match strstr l ": string =" with Some _ => true | None => false end)
          lines.

Definition has_loop (lines : list string) : bool :=
  existsb (fun l => has_prefix "while" l) lines.

Definition has_arithmetic_chain (lines : list string) : bool :=
  existsb (fun l => contains_char l "*" || contains_char l "/") lines.

(** The part of [parse_source] that follows the line loader. *)
Definition parse_lines (lines : list string) (ir : program_ir) : diag + program_ir :=
  if has_loop lines then parse_loop_sum_program lines ir
  else if has_arithmetic_chain lines then parse_pi_program lines ir
  else if has_string_binding lines then parse_string_program lines ir
  else inl UnsupportedProgramShape.

Definition parse_source (fp : string) (ir : program_ir) : diag + program_ir :=
  match load_lines (fgets_all 2048 fp) [] with
  | inl d => inl d
  | inr lines => parse_lines lines ir
  end.

End Recognizer.

(** ** The IR validator *)

Module Validator.
Import CStr IR Recognizer.
Local Open Scope list_scope.

Definition binding_at (ir : program_ir) (i : Z) : string_binding :=
  nth (Z.to_nat i) (bindings ir) {| name := EmptyString; literal := EmptyString |}.

(** The String branch of [validate_program] from the resolution of the
    print binding on. *)
Definition validate_string_print (ir : program_ir) : option diag * program_ir :=
  let check (ir : program_ir) :=
    let binding := binding_at ir (print_binding_index ir) in
    if negb (String.eqb (print_arg ir) (name binding)) then
      (Some PrintArgumentMismatch, ir)
    else if negb (exit_value ir =? return_value ir) then
      (Some ExitReturnValueMismatch, ir)
    else if negb (exit_value ir =? 0) then (Some OnlyExitCodeZero, ir)
    else (None, ir) in
  let idx := print_binding_index ir in
  if (idx <? 0) || (string_binding_count ir <=? idx) then
    let idx := find_string_binding_index ir (print_arg ir) in
    if idx <? 0 then (Some PrintArgumentUnbound, ir)
    else check (set_print_binding_index idx ir)
  else check ir.

(** [validate_program]: the return code and the IR, whose
    [print_binding_index] the String branch may assign. *)
Definition validate_program (ir : program_ir) : option diag * program_ir :=
  match kind ir with
  | PROGRAM_STRING =>
      if string_binding_count ir =? 0 then (Some ExpectedStringBinding, ir)
      else if negb (have_print ir) then (Some ExpectedPrintCall, ir)
      else if negb (have_exit ir) || negb (have_return ir) then
        (Some ExpectedExitAndReturn, ir)
      else validate_string_print ir
  | PROGRAM_LOOP_SUM =>
      let l := loop ir in
      if is_empty (accumulator l) || is_empty (counter l) then
        (Some LoopMissingAccumulatorOrCounter, ir)
      else if negb (String.eqb (loop_exit_var l) (accumulator l))
              || negb (String.eqb (loop_return_var l) (accumulator l)) then
        (Some LoopExitReturnNotAccumulator, ir)
      else (None, ir)
  | PROGRAM_PI_TEST =>
      let p := pi ir in
      if is_empty (numerator_var p) || is_empty (denominator_var p)
         || is_empty (scale_var p) then
        (Some PiMissingBindings, ir)
      else if denominator_value p =? 0 then (Some PiDenominatorZero, ir)
      else if negb (String.eqb (result_var p) (pi_exit_var p))
              || negb (String.eqb (pi_return_var p) (result_var p)) then
        (Some PiExitReturnNotResult, ir)
      else (None, ir)
  | PROGRAM_NONE => (Some UnrecognisedProgramKind, ir)
  end.

(** [load_program_ir] on the content of the input file. *)
Definition load_program_ir (input : string) : diag + program_ir :=
  match parse_source input fresh_ir with
  | inl d => inl d
  | inr ir =>
      match validate_program ir with
      | (Some d, _) => inl d
      | (None, ir') => inr ir'
      end
  end.

End Validator.

(** ** The instruction encoder *)

Module Isa.

Inductive isa_opcode : Type :=
  | ISA_OPCODE_NOP
  | ISA_OPCODE_MOV
  | ISA_OPCODE_ADD
  | ISA_OPCODE_SUB
  | ISA_OPCODE_CMP
  | ISA_OPCODE_JMP
  | ISA_OPCODE_CJMP
  | ISA_OPCODE_CALL
  | ISA_OPCODE_RET
  | ISA_OPCODE_SVC
  | ISA_OPCODE_HALT
  | ISA_OPCODE_MUL
  | ISA_OPCODE_DIV
  | ISA_OPCODE_REM.

Definition opcode_value (o : isa_opcode) : Z :=
  match o with
  | ISA_OPCODE_NOP => 0x00
  | ISA_OPCODE_MOV => 0x01
  | ISA_OPCODE_ADD => 0x04
  | ISA_OPCODE_SUB => 0x05
  | ISA_OPCODE_CMP => 0x06
  | ISA_OPCODE_JMP => 0x07
  | ISA_OPCODE_CJMP => 0x08
  | ISA_OPCODE_CALL => 0x09
  | ISA_OPCODE_RET => 0x0A
  | ISA_OPCODE_SVC => 0x0B
  | ISA_OPCODE_HALT => 0x0C
  | ISA_OPCODE_MUL => 0x0D
  | ISA_OPCODE_DIV => 0x0E
  | ISA_OPCODE_REM => 0x0F
  end.

Inductive isa_register : Type :=
  | ISA_REG_R0
  | ISA_REG_R1
  | ISA_REG_R2
  | ISA_REG_R3
  | ISA_REG_R4
  | ISA_REG_R5
  | ISA_REG_R6
  | ISA_REG_R7.

Definition register_value (r : isa_register) : Z :=
  match r with
  | ISA_REG_R0 => 0
  | ISA_REG_R1 => 1
  | ISA_REG_R2 => 2
  | ISA_REG_R3 => 3
  | ISA_REG_R4 => 4
  | ISA_REG_R5 => 5
  | ISA_REG_R6 => 6
  | ISA_REG_R7 => 7
  end.

Inductive isa_condition : Type :=
  | ISA_COND_EQ
  | ISA_COND_NE
  | ISA_COND_LT
  | ISA_COND_LE
  | ISA_COND_GT
  | ISA_COND_GE.

Definition condition_value (c : isa_condition) : Z :=
  match c with
  | ISA_COND_EQ => 0x01
  | ISA_COND_NE => 0x02
  | ISA_COND_LT => 0x03
  | ISA_COND_LE => 0x04
  | ISA_COND_GT => 0x05
  | ISA_COND_GE => 0x06
  end.

Definition ISA_OPERAND_UNUSED : Z := 0x00.
Definition ISA_OPERAND_LABEL : Z := 0xFE.
Definition ISA_OPERAND_IMMEDIATE : Z := 0xFF.

Definition INT32_MIN : Z := - 2 ^ 31.
Definition INT32_MAX : Z := 2 ^ 31 - 1.

(** Casts to [uint8_t] and [uint32_t]. *)
Definition uint8 (v : Z) : Z := v mod 2 ^ 8.
Definition uint32 (v : Z) : Z := v mod 2 ^ 32.

(** The arguments are a [uint8_t] each and a [uint32_t]. *)
Definition pack_instruction_word (opcode op0 op1 op2 imm32 : Z) : Z :=
  let word := 0 in
  let word := Z.lor word (Z.shiftl opcode 56) in
  let word := Z.lor word (Z.shiftl op0 48) in
  let word := Z.lor word (Z.shiftl op1 40) in
  let word := Z.lor word (Z.shiftl op2 32) in
  let word := Z.lor word imm32 in
  word.

(** [true] stands for the return value 1 (out of range). *)
Definition ensure_signed_32_range (value : Z) : bool :=
  (value <? INT32_MIN) || (INT32_MAX <? value).

Definition encode_mov_immediate (dest : isa_register) (value : Z) : Z :=
  pack_instruction_word (uint8 (opcode_value ISA_OPCODE_MOV))
    (uint8 (register_value dest)) ISA_OPERAND_IMMEDIATE ISA_OPERAND_UNUSED
    (uint32 value).

Definition encode_mov_register (dest source : isa_register) : Z :=
  pack_instruction_word (uint8 (opcode_value ISA_OPCODE_MOV))
    (uint8 (register_value dest)) (uint8 (register_value source))
    ISA_OPERAND_UNUSED 0.

Definition encode_mov_label (dest : isa_register) : Z :=
  pack_instruction_word (uint8 (opcode_value ISA_OPCODE_MOV))
    (uint8 (register_value dest)) ISA_OPERAND_LABEL ISA_OPERAND_UNUSED 0.

Definition encode_arith_reg_reg (opcode : isa_opcode) (dest lhs rhs : isa_register) : Z :=
  pack_instruction_word (uint8 (opcode_value opcode))
    (uint8 (register_value dest)) (uint8 (register_value lhs))
    (uint8 (register_value rhs)) 0.

Definition encode_mul_reg_reg := encode_arith_reg_reg ISA_OPCODE_MUL.
Definition encode_div_reg_reg := encode_arith_reg_reg ISA_OPCODE_DIV.
Definition encode_rem_reg_reg := encode_arith_reg_reg ISA_OPCODE_REM.

Definition encode_arith_reg_imm (opcode : isa_opcode) (dest lhs : isa_register)
    (imm : Z) : Z :=
  pack_instruction_word (uint8 (opcode_value opcode))
    (uint8 (register_value dest)) (uint8 (register_value lhs))
    ISA_OPERAND_IMMEDIATE (uint32 imm).

Definition encode_cmp_reg_imm (lhs : isa_register) (imm : Z) : Z :=
  pack_instruction_word (uint8 (opcode_value ISA_OPCODE_CMP))
    (uint8 (register_value lhs)) ISA_OPERAND_IMMEDIATE ISA_OPERAND_UNUSED
    (uint32 imm).

Definition encode_cjmp (cond : isa_condition) : Z :=
  pack_instruction_word (uint8 (opcode_value ISA_OPCODE_CJMP))
    (uint8 (condition_value cond)) ISA_OPERAND_LABEL ISA_OPERAND_UNUSED 0.

Definition encode_jmp : Z :=
  pack_instruction_word (uint8 (opcode_value ISA_OPCODE_JMP))
    ISA_OPERAND_LABEL ISA_OPERAND_UNUSED ISA_OPERAND_UNUSED 0.

End Isa.

(** ** The manifest writer *)

Module Writer.
Import CStr IR Isa Validator.
Local Open Scope list_scope.

(** What one output call of the writer adds to the manifest: a line of
    fixed text, a label line, an instruction word with its comment
    ([emit_instruction_word]), an ascii literal ([write_escape_ascii]). *)
Inductive item : Type :=
  | Line (text : string)
  | Label (name : string)
  | Word (word : Z) (comment : string)
  | Ascii (literal : string).

Definition manifest := list item.

Definition nl : string := String newline EmptyString.

Definition hex_digit (v : Z) : ascii :=
  if v <? 10 then ascii_of_nat (Z.to_nat (48 + v))
  else ascii_of_nat (Z.to_nat (65 + (v - 10))).

(** The [n] low hexadecimal digits of [w], most significant first. *)
Fixpoint hex_digits (n : nat) (w : Z) : string :=
  match n with
  | O => EmptyString
  | S n' =>
      String (hex_digit (Z.land (Z.shiftr w (4 * Z.of_nat n')) 15)) (hex_digits n' w)
  end.

(** [%016llX] of a 64-bit word. *)
Definition hex16 (w : Z) : string := hex_digits 16 w.

(** [%d]. *)
Definition dec (v : Z) : string := NilEmpty.string_of_int (Z.to_int v).

(** [snprintf (comment, sizeof comment, ...)] with [comment] of 256
    characters. *)
Definition snprintf256 (s : string) : string := take 255 s.

Definition emit_instruction_word (word : Z) (comment : string) : string :=
  ("bytes 0x" ++ hex16 word ++ "  ; " ++ comment ++ nl)%string.

Fixpoint escape_ascii (literal : string) : string :=
  match literal with
  | EmptyString => EmptyString
  | String c rest =>
      if Ascii.eqb c dquote then String backslash (String dquote (escape_ascii rest))
      else String c (escape_ascii rest)
  end.

Definition write_escape_ascii (literal : string) : string :=
  ("ascii " ++ String dquote (escape_ascii literal) ++ String dquote nl)%string.

Definition render_item (i : item) : string :=
  match i with
  | Line text => (text ++ nl)%string
  | Label name => ("label " ++ name ++ nl)%string
  | Word word comment => emit_instruction_word word comment
  | Ascii literal => write_escape_ascii literal
  end.

(** The text of the manifest file. *)
Fixpoint render (m : manifest) : string :=
  match m with
  | [] => EmptyString
  | i :: m' => (render_item i ++ render m')%string
  end.

Definition RUNTIME_NONE : Z := 0.
Definition RUNTIME_PRINT_AND_EXIT : Z := Z.shiftl 1 0.
Definition RUNTIME_EXIT_WITH_R0 : Z := Z.shiftl 1 1.

Definition emit_runtime_print_and_exit : manifest :=
  [Label "__aur_runtime_print_and_exit";
   Word 0x0B01010000000000 "svc 0x01 write(stdout)";
   Word 0x0B02000000000000 "svc 0x02 exit(r0)";
   Line "halt"; Line ""].

Definition emit_runtime_exit_with_r0 : manifest :=
  [Label "__aur_runtime_exit_with_r0";
   Word 0x0B02000000000000 "svc 0x02 exit(r0)";
   Line "halt"; Line ""].

Definition emit_runtime_section (flags : Z) : manifest :=
  (if negb (Z.land flags RUNTIME_PRINT_AND_EXIT =? 0)
   then emit_runtime_print_and_exit else [])
  ++ (if negb (Z.land flags RUNTIME_EXIT_WITH_R0 =? 0)
      then emit_runtime_exit_with_r0 else []).

(** The three emitters take the manifest written so far and the runtime
    flags; they return the return code, the manifest and the flags. *)
Definition emitted : Type := option diag * manifest * Z.

Definition emit_string_manifest (ir : program_ir) (out : manifest) (runtime_flags : Z)
  : emitted :=
  if (print_binding_index ir <? 0)
     || (string_binding_count ir <=? print_binding_index ir) then
    (Some PrintBindingNotResolved, out, runtime_flags)
  else
    let print_binding := binding_at ir (print_binding_index ir) in
    let out := out ++ [Line "# Aurora Minimal ISA manifest (manual draft)";
                       Line "header minimal_isa";
                       Line "org 0x0000";
                       Label "main"] in
    let comment := snprintf256 ("mov r1, #addr(" ++ name print_binding ++ ")")%string in
    let out := out ++ [Word (encode_mov_label ISA_REG_R1) comment] in
    let out := out ++ [Word (encode_mov_immediate ISA_REG_R0 0) "mov r0, #0"] in
    let runtime_flags := Z.lor runtime_flags RUNTIME_PRINT_AND_EXIT in
    let out := out ++ [Line ""] in
    let out :=
      out ++ flat_map (fun binding =>
                         [Label (name binding);
                          Ascii (literal binding);
                          Line "pad 0x0010"]) (bindings ir) in
    (None, out, runtime_flags).

Definition emit_loop_manifest (ir : program_ir) (out : manifest) (runtime_flags : Z)
  : emitted :=
  let l := loop ir in
  let out := out ++ [Line "# Minimal ISA manifest for arithmetic loop example";
                     Line "header minimal_isa";
                     Line "org 0x0000";
                     Label "main"] in
  if ensure_signed_32_range (accumulator_init l) then
    (Some ImmediateOutOfRange, out, runtime_flags)
  else if ensure_signed_32_range (counter_init l) then
    (Some ImmediateOutOfRange, out, runtime_flags)
  else
    let comment :=
      snprintf256 ("mov r1, #" ++ dec (accumulator_init l)
                   ++ "             ; accumulator")%string in
    let out := out ++ [Word (encode_mov_immediate ISA_REG_R1 (accumulator_init l)) comment] in
    let comment :=
      snprintf256 ("mov r2, #" ++ dec (counter_init l)
                   ++ "             ; counter")%string in
    let out := out ++ [Word (encode_mov_immediate ISA_REG_R2 (counter_init l)) comment] in
    let out := out ++ [Label "loop"] in
    let out := out ++ [Word (encode_arith_reg_reg ISA_OPCODE_ADD ISA_REG_R1 ISA_REG_R1 ISA_REG_R2)
                            "add r1, r1, r2         ; accumulator += counter"] in
    let out := out ++ [Word (encode_arith_reg_imm ISA_OPCODE_SUB ISA_REG_R2 ISA_REG_R2 1)
                            "sub r2, r2, #1         ; counter--"] in
    let out := out ++ [Word (encode_cmp_reg_imm ISA_REG_R2 0)
                            "cmp r2, #0             ; compare with zero"] in
    let out := out ++ [Word (encode_cjmp ISA_COND_EQ)
                            "cjmp eq, exit          ; if zero -> exit"] in
    let out := out ++ [Word encode_jmp
                            "jmp loop               ; loop back (patched later)"] in
    let out := out ++ [Label "exit"] in
    let out := out ++ [Word (encode_mov_register ISA_REG_R0 ISA_REG_R1)
                            "mov r0, r1             ; move result into r0"] in
    (None, out, Z.lor runtime_flags RUNTIME_EXIT_WITH_R0).

Definition emit_pi_manifest (ir : program_ir) (out : manifest) (runtime_flags : Z)
  : emitted :=
  let p := pi ir in
  let out := out ++ [Line "# Minimal ISA manifest for pi approximation test";
                     Line "header minimal_isa";
                     Line "org 0x0000";
                     Label "main"] in
  if ensure_signed_32_range (numerator_value p) then
    (Some ImmediateOutOfRange, out, runtime_flags)
  else if ensure_signed_32_range (denominator_value p) then
    (Some ImmediateOutOfRange, out, runtime_flags)
  else if ensure_signed_32_range (scale_value p) then
    (Some ImmediateOutOfRange, out, runtime_flags)
  else
    let comment :=
      snprintf256 ("mov r1, #" ++ dec (numerator_value p)
                   ++ "             ; " ++ numerator_var p)%string in
    let out := out ++ [Word (encode_mov_immediate ISA_REG_R1 (numerator_value p)) comment] in
    let comment :=
      snprintf256 ("mov r2, #" ++ dec (denominator_value p)
                   ++ "             ; " ++ denominator_var p)%string in
    let out := out ++ [Word (encode_mov_immediate ISA_REG_R2 (denominator_value p)) comment] in
    let comment :=
      snprintf256 ("mov r3, #" ++ dec (scale_value p)
                   ++ "             ; " ++ scale_var p)%string in
    let out := out ++ [Word (encode_mov_immediate ISA_REG_R3 (scale_value p)) comment] in
    let out := out ++ [Word (encode_mul_reg_reg ISA_REG_R4 ISA_REG_R1 ISA_REG_R3)
                            "mul r4, r1, r3           ; temp = numerator * scale"] in
    let out := out ++ [Word (encode_rem_reg_reg ISA_REG_R6 ISA_REG_R4 ISA_REG_R2)
                            "rem r6, r4, r2           ; remainder (diagnostics)"] in
    let out := out ++ [Word (encode_div_reg_reg ISA_REG_R5 ISA_REG_R4 ISA_REG_R2)
                            "div r5, r4, r2           ; pi_scaled = temp / denominator"] in
    let out := out ++ [Word (encode_mov_register ISA_REG_R0 ISA_REG_R5)
                            "mov r0, r5             ; move result into r0"] in
    (None, out, Z.lor runtime_flags RUNTIME_EXIT_WITH_R0).

(** The items [emit_manifest] writes into the freshly opened file. *)
Definition emit_manifest_items (ir : program_ir) : option diag * manifest :=
  let runtime_flags := RUNTIME_NONE in
  let '(rc, out, runtime_flags) :=
    match kind ir with
    | PROGRAM_STRING => emit_string_manifest ir [] runtime_flags
    | PROGRAM_LOOP_SUM => emit_loop_manifest ir [] runtime_flags
    | PROGRAM_PI_TEST => emit_pi_manifest ir [] runtime_flags
    | PROGRAM_NONE => (Some UnsupportedKindForEmission, [], runtime_flags)
    end in
  match rc with
  | None =>
      if negb (runtime_flags =? RUNTIME_NONE)
      then (rc, out ++ [Line ""] ++ emit_runtime_section runtime_flags)
      else (rc, out)
  | Some _ => (rc, out)
  end.

(** A file of the file system: absent, or its content. *)
Definition file := option string.

(** [emit_manifest]: [opened] tells whether [fopen (output_path, "w")]
    succeeds.  When it does not, the function returns 1 and the path is
    left as it was; when it does, the file is emptied whatever it held.
    The result is the return code and the file after the call. *)
Definition emit_manifest (ir : program_ir) (opened : bool) (output : file)
  : option diag * file :=
  if negb opened then (Some OutputNotOpened, output)
  else
    let (rc, out) := emit_manifest_items ir in
    (rc, Some (render out)).

(** [aurc_compile_file] on the content of the input file, the outcome of
    opening the output path and the state of the output file. *)
Definition aurc_compile_file (input : string) (opened : bool) (output : file)
  : option diag * file :=
  match load_program_ir input with
  | inl d => (Some d, output)
  | inr ir => emit_manifest ir opened output
  end.

End Writer.

(** ** An evaluator for the emitted instruction templates

    The stub gives the instruction set no execution semantics.  The
    evaluator below is the one the mnemonics of the writer's comments
    describe: registers hold integers (unbounded, so that no width is
    imposed on a template), [cmp] records the comparison of a register
    with an immediate, [cjmp] and [jmp] go to the label their comment
    names, [div] and [rem] truncate toward zero and fault on a zero
    divisor, and supervisor call 2 exits with the value of R0. *)

Module Machine.
Import CStr Scanf Isa Writer.
Local Open Scope list_scope.

Inductive instr : Type :=
  | INop
  | IMovImm (d : Z) (imm : Z)
  | IMovReg (d s : Z)
  | IMovLabel (d : Z)
  | IArithReg (op : isa_opcode) (d l r : Z)
  | IArithImm (op : isa_opcode) (d l : Z) (imm : Z)
  | ICmpImm (l : Z) (imm : Z)
  | ICjmp (cond : Z)
  | IJmp
  | ISvc (n : Z)
  | IHalt.

(** The fields of an instruction word, as [pack_instruction_word] lays
    them out. *)
Definition field_opcode (w : Z) : Z := Z.land (Z.shiftr w 56) 0xFF.
Definition field_op0 (w : Z) : Z := Z.land (Z.shiftr w 48) 0xFF.
Definition field_op1 (w : Z) : Z := Z.land (Z.shiftr w 40) 0xFF.
Definition field_op2 (w : Z) : Z := Z.land (Z.shiftr w 32) 0xFF.
(** The immediate, read back as a signed 32-bit value. *)
Definition field_imm (w : Z) : Z := to_int (Z.land w 0xFFFFFFFF).

Definition is_reg (v : Z) : bool := (0 <=? v) && (v <? 8).

Definition decode_arith (op : isa_opcode) (w : Z) : option instr :=
  let d := field_op0 w in
  let l := field_op1 w in
  let r := field_op2 w in
  if is_reg d && is_reg l then
    if r =? ISA_OPERAND_IMMEDIATE then Some (IArithImm op d l (field_imm w))
    else if is_reg r then Some (IArithReg op d l r)
    else None
  else None.

Definition decode (w : Z) : option instr :=
  let opcode := field_opcode w in
  if opcode =? opcode_value ISA_OPCODE_NOP then Some INop
  else if opcode =? opcode_value ISA_OPCODE_MOV then
    let d := field_op0 w in
    let s := field_op1 w in
    if is_reg d then
      if s =? ISA_OPERAND_IMMEDIATE then Some (IMovImm d (field_imm w))
      else if s =? ISA_OPERAND_LABEL then Some (IMovLabel d)
      else if is_reg s then Some (IMovReg d s)
      else None
    else None
  else if opcode =? opcode_value ISA_OPCODE_ADD then decode_arith ISA_OPCODE_ADD w
  else if opcode =? opcode_value ISA_OPCODE_SUB then decode_arith ISA_OPCODE_SUB w
  else if opcode =? opcode_value ISA_OPCODE_MUL then decode_arith ISA_OPCODE_MUL w
  else if opcode =? opcode_value ISA_OPCODE_DIV then decode_arith ISA_OPCODE_DIV w
  else if opcode =? opcode_value ISA_OPCODE_REM then decode_arith ISA_OPCODE_REM w
  else if opcode =? opcode_value ISA_OPCODE_CMP then
    if is_reg (field_op0 w) && (field_op1 w =? ISA_OPERAND_IMMEDIATE)
    then Some (ICmpImm (field_op0 w) (field_imm w))
    else None
  else if opcode =? opcode_value ISA_OPCODE_CJMP then Some (ICjmp (field_op0 w))
  else if opcode =? opcode_value ISA_OPCODE_JMP then Some IJmp
  else if opcode =? opcode_value ISA_OPCODE_SVC then Some (ISvc (field_op0 w))
  else if opcode =? opcode_value ISA_OPCODE_HALT then Some IHalt
  else None.

(** The label a jump names in its comment: the last word of the mnemonic
    text, which ends at the first [;]. *)
Fixpoint last_word (s : string) (current : string) : string :=
  match s with
  | EmptyString => current
  | String c s' =>
      if isspace c then last_word s' EmptyString
      else last_word s' (current ++ String c EmptyString)%string
  end.

Definition jump_target (comment : string) : string :=
  let text := match strchr comment ";" with
              | Some i => take i comment
              | None => comment
              end in
  last_word (rtrim text) EmptyString.

(** A loaded manifest: the instructions in order, each with the label its
    comment names, and the index of the instruction each label precedes. *)
Record program : Type := {
  insns : list (instr * string);
  labels : list (string * nat)
}.

Fixpoint load_items (m : manifest) (count : nat) (p : program) : option program :=
  match m with
  | [] => Some p
  | Label nm :: m' =>
      load_items m' count {| insns := insns p; labels := labels p ++ [(nm, count)] |}
  | Word w comment :: m' =>
      match decode w with
      | Some i =>
          load_items m' (S count)
            {| insns := insns p ++ [(i, jump_target comment)]; labels := labels p |}
      | None => None
      end
  | _ :: m' => load_items m' count p
  end.

Definition load (m : manifest) : option program :=
  load_items m O {| insns := []; labels := [] |}.

Fixpoint find_label (ls : list (string * nat)) (nm : string) : option nat :=
  match ls with
  | [] => None
  | (l, i) :: ls' => if String.eqb l nm then Some i else find_label ls' nm
  end.

Definition regfile := Z -> Z.

Definition set_reg (rs : regfile) (r v : Z) : regfile :=
  fun x => if x =? r then v else rs x.

Record state : Type := {
  pc : nat;
  regs : regfile;
  flags : option comparison
}.

Inductive outcome : Type :=
  | Running (st : state)
  | Exited (r0 : Z)
  | Halted
  | Fault.

Definition arith (op : isa_opcode) (a b : Z) : option Z :=
  match op with
  | ISA_OPCODE_ADD => Some (a + b)
  | ISA_OPCODE_SUB => Some (a - b)
  | ISA_OPCODE_MUL => Some (a * b)
  | ISA_OPCODE_DIV => if b =? 0 then None else Some (Z.quot a b)
  | ISA_OPCODE_REM => if b =? 0 then None else Some (Z.rem a b)
  | _ => None
  end.

Definition holds (cond : Z) (c : comparison) : option bool :=
  if cond =? condition_value ISA_COND_EQ then
    Some (match c with Eq => true | _ => false end)
  else if cond =? condition_value ISA_COND_NE then
    Some (match c with Eq => false | _ => true end)
  else if cond =? condition_value ISA_COND_LT then
    Some (match c with Lt => true | _ => false end)
  else if cond =? condition_value ISA_COND_LE then
    Some (match c with Gt => false | _ => true end)
  else if cond =? condition_value ISA_COND_GT then
    Some (match c with Gt => true | _ => false end)
  else if cond =? condition_value ISA_COND_GE then
    Some (match c with Lt => false | _ => true end)
  else None.

Definition next (st : state) (rs : regfile) (fl : option comparison) : outcome :=
  Running {| pc := S (pc st); regs := rs; flags := fl |}.

Definition goto (p : program) (st : state) (target : string) : outcome :=
  match find_label (labels p) target with
  | Some i => Running {| pc := i; regs := regs st; flags := flags st |}
  | None => Fault
  end.

Definition step (p : program) (st : state) : outcome :=
  match nth_error (insns p) (pc st) with
  | None => Fault
  | Some (i, target) =>
      let rs := regs st in
      match i with
      | INop => next st rs (flags st)
      | IMovImm d imm => next st (set_reg rs d imm) (flags st)
      | IMovReg d s => next st (set_reg rs d (rs s)) (flags st)
      | IMovLabel d => Fault
      | IArithReg op d l r =>
          match arith op (rs l) (rs r) with
          | Some v => next st (set_reg rs d v) (flags st)
          | None => Fault
          end
      | IArithImm op d l imm =>
          match arith op (rs l) imm with
          | Some v => next st (set_reg rs d v) (flags st)
          | None => Fault
          end
      | ICmpImm l imm => next st rs (Some (rs l ?= imm))
      | ICjmp cond =>
          match flags st with
          | None => Fault
          | Some c =>
              match holds cond c with
              | Some true => goto p st target
              | Some false => next st rs (flags st)
              | None => Fault
              end
          end
      | IJmp => goto p st target
      | ISvc n =>
          if n =? 2 then Exited (rs (register_value ISA_REG_R0)) else Fault
      | IHalt => Halted
      end
  end.

(** [None] when the fuel runs out before the program stops. *)
Fixpoint run (fuel : nat) (p : program) (st : state) : option outcome :=
  match fuel with
  | O => None
  | S fuel' =>
      match step p st with
      | Running st' => run fuel' p st'
      | o => Some o
      end
  end.

(** Execution of a manifest from the label [main], all registers zero. *)
Definition execute (fuel : nat) (m : manifest) : option outcome :=
  match load m with
  | None => Some Fault
  | Some p =>
      match find_label (labels p) "main" with
      | None => Some Fault
      | Some i => run fuel p {| pc := i; regs := fun _ => 0; flags := None |}
      end
  end.

(** The execution semantics the specification names for a Loop-Sum
    program: accumulate the counter into the accumulator while the counter
    is positive, decrementing it by one each iteration. *)
Fixpoint accumulate_while (fuel : nat) (acc cnt : Z) : option Z :=
  if 0 <? cnt then
    match fuel with
    | O => None
    | S fuel' => accumulate_while fuel' (acc + cnt) (cnt - 1)
    end
  else Some acc.

(** [a + n + (n-1) + ... + 1]. *)
Fixpoint descending_sum (n : nat) : Z :=
  match n with
  | O => 0
  | S n' => Z.of_nat n + descending_sum n'
  end.

Definition loop_sum_value (a n : Z) : Z := a + descending_sum (Z.to_nat n).

(** The templates as loaded programs.  Each instruction comes with the
    last word of its mnemonic, which only the jumps use; [c1], [c2] and
    [c3] stand for those of the moves of immediates. *)
Definition loop_template (a n : Z) (c1 c2 : string) : program :=
  {| insns :=
       [(IMovImm 1 a, c1);
        (IMovImm 2 n, c2);
        (IArithReg ISA_OPCODE_ADD 1 1 2, "r2");
        (IArithImm ISA_OPCODE_SUB 2 2 1, "#1");
        (ICmpImm 2 0, "#0");
        (ICjmp 1, "exit");
        (IJmp, "loop");
        (IMovReg 0 1, "r1");
        (ISvc 2, "exit(r0)")];
     labels :=
       [("main", 0%nat); ("loop", 2%nat); ("exit", 7%nat);
        ("__aur_runtime_exit_with_r0", 8%nat)] |}.

(** The machine at the label [loop] of the Loop-Sum template. *)
Definition at_loop (rs : regfile) (fl : option comparison) : state :=
  {| pc := 2; regs := rs; flags := fl |}.

Definition pi_template (n d s : Z) (c1 c2 c3 : string) : program :=
  {| insns :=
       [(IMovImm 1 n, c1);
        (IMovImm 2 d, c2);
        (IMovImm 3 s, c3);
        (IArithReg ISA_OPCODE_MUL 4 1 3, "r3");
        (IArithReg ISA_OPCODE_REM 6 4 2, "r2");
        (IArithReg ISA_OPCODE_DIV 5 4 2, "r2");
        (IMovReg 0 5, "r5");
        (ISvc 2, "exit(r0)")];
     labels :=
       [("main", 0%nat); ("__aur_runtime_exit_with_r0", 7%nat)] |}.

End Machine.

(** ** Notions of the specification *)

Module Spec.
Import CStr CStdlib Scanf IR Recognizer.
Local Open Scope list_scope.

(** A line begins with a token; a line contains a text. *)
Definition begins_with (token line : string) : Prop :=
  exists rest, line = (token ++ rest)%string.

Definition contains (text line : string) : Prop :=
  exists before after, line = (before ++ text ++ after)%string.

(** The discriminating markers of the shape classifier. *)
Definition loop_marker (line : string) : Prop := begins_with "while" line.
Definition operator_marker (line : string) : Prop :=
  contains "*" line \/ contains "/" line.
Definition string_binding_marker (line : string) : Prop :=
  contains ": string =" line.

(** The payload of a [bytes] directive: the characters that follow [0x] up
    to the first white space or [;], without the [_] separators. *)
Definition stops (c : ascii) : bool := Ascii.eqb c ";" || isspace c.

Fixpoint payload (hex : string) : list ascii :=
  match hex with
  | EmptyString => []
  | String c rest =>
      if stops c then []
      else if Ascii.eqb c "_" then payload rest
      else c :: payload rest
  end.

(** The value of a hexadecimal digit, [None] for any other character. *)
Definition nibble (c : ascii) : option Z :=
  let n := code c in
  if (48 <=? n) && (n <=? 57) then Some (n - 48)
  else if (97 <=? n) && (n <=? 102) then Some (n - 87)
  else if (65 <=? n) && (n <=? 70) then Some (n - 55)
  else None.

Definition is_hex_digit (c : ascii) : bool :=
  match nibble c with Some _ => true | None => false end.

Definition nibble_value (c : ascii) : Z :=
  match nibble c with Some v => v | None => 0 end.

(** Consecutive digits paired into bytes, high nibble first. *)
Fixpoint pair_bytes (ds : list ascii) : list Z :=
  match ds with
  | h :: l :: rest => (16 * nibble_value h + nibble_value l) :: pair_bytes rest
  | _ => []
  end.

(** The payload decodes when it is made of hexadecimal digits, in even and
    positive number. *)
Definition well_formed_payload (ds : list ascii) : bool :=
  forallb is_hex_digit ds && Nat.even (List.length ds)
  && negb (Nat.eqb (List.length ds) 0).



(** A multiplication statement of a Pi-Approximation program, as the
    recognizer reads it: a [let] whose initializer holds a [*]. *)
Definition multiplication_statement (line : string) : Prop :=
  has_prefix "let " line = true /\
  exists nm expr, sscanf fmt_let_expr line = [CStr nm; CStr expr]
                  /\ contains_char (trim expr) "*" = true.

(** The values of a [uint8_t] and of an [int]. *)
Definition byte_range (v : Z) : Prop := 0 <= v < 2 ^ 8.
Definition int32_range (v : Z) : Prop := - 2 ^ 31 <= v <= 2 ^ 31 - 1.


(** What holds of the integer bindings the Pi-Approximation recognizer
    collects: each value is an [int], each name is not empty. *)
Definition pi_binding_ok (b : int_binding) : Prop :=
  int32_range (ib_value b) /\ is_empty (ib_name b) = false.

(** Two IRs hold the same program for the writer when they are of the same
    variant and agree on the fields of that variant that the writer
    prints. *)
Definition same_program (ir1 ir2 : program_ir) : Prop :=
  kind ir1 = kind ir2
  /\ match kind ir1 with
     | PROGRAM_STRING =>
         bindings ir1 = bindings ir2
         /\ print_binding_index ir1 = print_binding_index ir2
     | PROGRAM_LOOP_SUM =>
         accumulator_init (loop ir1) = accumulator_init (loop ir2)
         /\ counter_init (loop ir1) = counter_init (loop ir2)
     | PROGRAM_PI_TEST =>
         numerator_value (pi ir1) = numerator_value (pi ir2)
         /\ denominator_value (pi ir1) = denominator_value (pi ir2)
         /\ scale_value (pi ir1) = scale_value (pi ir2)
         /\ numerator_var (pi ir1) = numerator_var (pi ir2)
         /\ denominator_var (pi ir1) = denominator_var (pi ir2)
         /\ scale_var (pi ir1) = scale_var (pi ir2)
     | PROGRAM_NONE => True
     end.


(** The loop of [emit_hex_bytes] run on the payload alone. *)
Fixpoint payload_loop (ds : list ascii) (high written : Z) (out : list Z)
  : (Z * Z * list Z) + list Z :=
  match ds with
  | [] => inl (high, written, out)
  | d :: ds' =>
      match nibble d with
      | None => inr out
      | Some v =>
          if high <? 0 then payload_loop ds' v written out
          else payload_loop ds' (-1) (written + 1) (out ++ [16 * high + v])
      end
  end.
















End Spec.

(** ** Sample programs *)

Module Samples.
Import CStr Scanf IR Recognizer Validator.
Local Open Scope list_scope.

(** A source file made of the given lines. *)
Definition source (lines : list string) : string :=
  String.concat (String newline EmptyString) lines ++ String newline EmptyString.

Definition greeting (code : string) : list string :=
  [("let greeting: string = " ++ q ++ "hi" ++ q ++ ";")%string;
   "request service print(greeting);";
   ("request service exit(" ++ code ++ ");")%string;
   ("return " ++ code ++ ";")%string].

Definition loop_sum (a n : string) : list string :=
  [("let sum: int = " ++ a ++ ";")%string;
   ("let n: int = " ++ n ++ ";")%string;
   "while n > 0 {";
   "sum = sum + n;";
   "n = n - 1;";
   "}";
   "request service exit(sum);";
   "return sum;"].

Definition pi_approx (num den scale : string) : list string :=
  [("let num: int = " ++ num ++ ";")%string;
   ("let den: int = " ++ den ++ ";")%string;
   ("let scale: int = " ++ scale ++ ";")%string;
   "let t: int = num * scale;";
   "let r: int = t / den;";
   "request service exit(r);";
   "return r;"].

(** A String program with two bindings. *)
Definition two_bindings : list string :=
  [("let greeting: string = " ++ q ++ "hi" ++ q ++ ";")%string;
   ("let farewell: string = " ++ q ++ "bye" ++ q ++ ";")%string;
   "request service print(farewell);";
   "request service exit(0);";
   "return 0;"].

(** The greeting with the print statement before the binding. *)
Definition print_first : list string :=
  ["request service print(greeting);";
   ("let greeting: string = " ++ q ++ "hi" ++ q ++ ";")%string;
   "request service exit(0);";
   "return 0;"].

(** The IR the recognizers build for a list of lines, before validation. *)
Definition recognized (lines : list string) : program_ir :=
  match parse_lines lines fresh_ir with
  | inr ir => ir
  | inl _ => fresh_ir
  end.



End Samples.

(** ** The line sequence *)

Module Lines.
Import CStr IR.
Local Open Scope list_scope.

(** A chunk read by [fgets] that is not blank once trimmed. *)
Definition non_blank (chunk : string) : bool := negb (is_empty (trim chunk)).

(** The trimmed non-blank chunks, in order, each copied into its row of
    [lines]. *)
Definition line_sequence (chunks : list string) : list string :=
  map (fun chunk => strncpy 2048 (trim chunk)) (filter non_blank chunks).

End Lines.

(** ** The layout of the binary image *)

Module Layout.
Import CStr.
Local Open Scope list_scope.

(** The [n] low bytes of [w], most significant first. *)
Fixpoint be_bytes (n : nat) (w : Z) : list Z :=
  match n with
  | O => []
  | S n' => Z.land (Z.shiftr w (8 * Z.of_nat n')) 0xFF :: be_bytes n' w
  end.

(** The characters of a string as bytes. *)
Fixpoint literal_bytes (s : string) : list Z :=
  match s with
  | EmptyString => []
  | String c s' => code c :: literal_bytes s'
  end.

(** The value of a sequence of bytes, most significant first. *)
Definition be_value (bs : list Z) : Z :=
  fold_left (fun acc b => acc * 256 + b) bs 0.

(** The concatenation of the lines of a text. *)
Fixpoint join (ls : list string) : string :=
  match ls with
  | [] => EmptyString
  | l :: ls' => (l ++ join ls')%string
  end.

(** A line of text that [fgets] returns whole in a buffer of [n + 1]
    characters: it ends with its only newline and has at most [n]
    characters. *)
Definition text_line (n : nat) (l : string) : Prop :=
  exists body,
    l = (body ++ String newline EmptyString)%string
    /\ strchr body newline = None
    /\ (String.length l <= n)%nat.

End Layout.

(** ** The image of a compiled program *)

Module Image.
Import CStr IR Isa Writer Assembler Layout.
Local Open Scope list_scope.

(** The two service words of the runtime routines. *)
Definition svc_write : Z := 0x0B01010000000000.
Definition svc_exit : Z := 0x0B02000000000000.

Definition words_image (ws : list Z) : image := flat_map (be_bytes 8) ws.

(** The words [emit_loop_manifest] and the runtime section print, then the
    bytes of [halt]. *)
Definition loop_image (a n : Z) : image :=
  words_image
    [encode_mov_immediate ISA_REG_R1 a;
     encode_mov_immediate ISA_REG_R2 n;
     encode_arith_reg_reg ISA_OPCODE_ADD ISA_REG_R1 ISA_REG_R1 ISA_REG_R2;
     encode_arith_reg_imm ISA_OPCODE_SUB ISA_REG_R2 ISA_REG_R2 1;
     encode_cmp_reg_imm ISA_REG_R2 0;
     encode_cjmp ISA_COND_EQ;
     encode_jmp;
     encode_mov_register ISA_REG_R0 ISA_REG_R1;
     svc_exit]
  ++ halt_bytes.

(** The words [emit_pi_manifest] and the runtime section print, then the
    bytes of [halt]. *)
Definition pi_image (n d s : Z) : image :=
  words_image
    [encode_mov_immediate ISA_REG_R1 n;
     encode_mov_immediate ISA_REG_R2 d;
     encode_mov_immediate ISA_REG_R3 s;
     encode_mul_reg_reg ISA_REG_R4 ISA_REG_R1 ISA_REG_R3;
     encode_rem_reg_reg ISA_REG_R6 ISA_REG_R4 ISA_REG_R2;
     encode_div_reg_reg ISA_REG_R5 ISA_REG_R4 ISA_REG_R2;
     encode_mov_register ISA_REG_R0 ISA_REG_R5;
     svc_exit]
  ++ halt_bytes.

(** The two words of [emit_string_manifest], each literal followed by the
    sixteen bytes of its [pad] directive, the two service words of the
    runtime section and the bytes of [halt]. *)
Definition string_image (bs : list string_binding) : image :=
  words_image [encode_mov_label ISA_REG_R1; encode_mov_immediate ISA_REG_R0 0]
  ++ flat_map (fun b => literal_bytes (literal b) ++ repeat 0 16) bs
  ++ words_image [svc_write; svc_exit]
  ++ halt_bytes.

(** The lines the assembler skips: blank lines, comments and the lines
    that begin with none of its four directives. *)
Definition no_directive (line : string) : bool :=
  is_empty line || starts_with_char "#" line
  || negb (has_prefix "bytes" line || has_prefix "ascii" line
           || has_prefix "pad" line || has_prefix "halt" line).

(** The items whose line [fgets] reads whole from the manifest: no newline
    in the text the writer is given, and a line of at most 4095
    characters. *)
Definition one_line_item (i : item) : Prop :=
  match i with
  | Line text =>
      strchr text newline = None /\ (String.length text <= 4000)%nat
  | Label name =>
      strchr name newline = None /\ (String.length name <= 4000)%nat
  | Word _ comment =>
      strchr comment newline = None /\ (String.length comment <= 4000)%nat
  | Ascii literal =>
      strchr literal newline = None /\ (String.length literal <= 2000)%nat
  end.

(** The bindings whose three lines of the manifest are read back as the
    literal and its padding: a name and a literal as the recognizer stores
    them, without newline, and a literal without backslash, which
    [write_escape_ascii] does not escape. *)
Definition plain_binding (b : string_binding) : Prop :=
  strchr (name b) newline = None
  /\ (String.length (name b) <= 127)%nat
  /\ strchr (literal b) newline = None
  /\ strchr (literal b) backslash = None
  /\ (String.length (literal b) <= 1023)%nat.

End Image.

(** ** The C source of the executable

    [escape_c_string], which [emit_c_source] applies to the printed
    literal on Windows hosts. *)

Module CSource.
Import CStr Writer.

(** The [switch]: what one character of the input is replaced with. *)
Definition escape_seq (c : ascii) : string :=
  if Ascii.eqb c backslash then String backslash (String backslash EmptyString)
  else if Ascii.eqb c dquote then String backslash (String dquote EmptyString)
  else if Ascii.eqb c newline then String backslash "n"
  else if Ascii.eqb c cret then String backslash "r"
  else if Ascii.eqb c tab then String backslash "t"
  else if Ascii.eqb c Ascii.zero then String backslash "0"
  else if (32 <=? code c) && (code c <=? 126) then String c EmptyString
  else String backslash (String "x" (hex_digits 2 (code c))).

(** The [for] loop and the final test; [output] holds the [out_pos]
    characters written so far. *)
Fixpoint escape_c_loop (p : string) (output : string) (capacity : nat)
  : option string :=
  match p with
  | EmptyString =>
      if (capacity <=? String.length output)%nat then None else Some output
  | String c p' =>
      let seq := escape_seq c in
      if (capacity <=? String.length output + String.length seq)%nat then None
      else escape_c_loop p' (output ++ seq) capacity
  end.

(** [escape_c_string (input, output, capacity)]: [None] for the return
    code 1, [Some] of the content of [output] for 0. *)
Definition escape_c_string (input : string) (capacity : nat) : option string :=
  escape_c_loop input EmptyString capacity.

(** The escape sequences of the characters of [p], one after the other. *)
Fixpoint escaped (p : string) : string :=
  match p with
  | EmptyString => EmptyString
  | String c p' => (escape_seq c ++ escaped p')%string
  end.

(** The characters from the space to the tilde. *)
Definition printable (c : ascii) : Prop := 32 <= code c <= 126.

End CSource.

(** ** The command line

    [main] of [src/aurc_native/src/main.c]: the scan of the arguments and
    the calls of the three entry points of the library. *)

Module Driver.
Local Open Scope list_scope.

Inductive exit_status : Type :=
  | EXIT_SUCCESS
  | EXIT_FAILURE.

(** The three paths the options assign; [None] stands for [NULL]. *)
Record options : Type := {
  output_path : option string;
  binary_path : option string;
  exe_path : option string
}.

Definition no_options : options :=
  {| output_path := None; binary_path := None; exe_path := None |}.

(** What [main] reports before it calls the compiler. *)
Inductive usage_error : Type :=
  | Usage
  | MissingArgument (flag : string)
  | UnknownArgument (arg : string)
  | OutputPathRequired.

(** The [for] loop over [argv[3]] ... [argv[argc - 1]]. *)
Fixpoint scan_arguments (args : list string) (o : options) : usage_error + options :=
  match args with
  | [] => inr o
  | a :: rest =>
      if String.eqb a "-o" || String.eqb a "--output" then
        match rest with
        | [] => inl (MissingArgument a)
        | v :: rest' =>
            scan_arguments rest'
              {| output_path := Some v; binary_path := binary_path o;
                 exe_path := exe_path o |}
        end
      else if String.eqb a "--emit-bin" then
        match rest with
        | [] => inl (MissingArgument a)
        | v :: rest' =>
            scan_arguments rest'
              {| output_path := output_path o; binary_path := Some v;
                 exe_path := exe_path o |}
        end
      else if String.eqb a "--emit-exe" then
        match rest with
        | [] => inl (MissingArgument a)
        | v :: rest' =>
            scan_arguments rest'
              {| output_path := output_path o; binary_path := binary_path o;
                 exe_path := Some v |}
        end
      else inl (UnknownArgument a)
  end.

(** [main] up to the call of [aurc_compile_file]: the input path, the
    output path and the options. *)
Definition command_line (argv : list string)
  : usage_error + (string * string * options) :=
  match argv with
  | _ :: command :: input_path :: args =>
      if negb (String.eqb command "compile") then inl Usage
      else
        match scan_arguments args no_options with
        | inl e => inl e
        | inr o =>
            match output_path o with
            | None => inl OutputPathRequired
            | Some output => inr (input_path, output, o)
            end
        end
  | _ => inl Usage
  end.

Section Main.

(** The file system and the three entry points of the library, each
    returning its return code and the file system it leaves. *)
Variable world : Type.
Variable compile_file : string -> string -> world -> Z * world.
Variable assemble_manifest : string -> string -> world -> Z * world.
Variable compile_to_exe : string -> string -> world -> Z * world.

Definition main (argv : list string) (w : world) : exit_status * world :=
  match command_line argv with
  | inl _ => (EXIT_FAILURE, w)
  | inr (input_path, output, o) =>
      let (rc, w) := compile_file input_path output w in
      if negb (rc =? 0) then (EXIT_FAILURE, w)
      else
        let (rc, w) :=
          match binary_path o with
          | Some binary => assemble_manifest output binary w
          | None => (0, w)
          end in
        if negb (rc =? 0) then (EXIT_FAILURE, w)
        else
          match exe_path o with
          | Some exe =>
              let (rc, w) := compile_to_exe input_path exe w in
              if negb (rc =? 0) then (EXIT_FAILURE, w) else (EXIT_SUCCESS, w)
          | None => (EXIT_SUCCESS, w)
          end
  end.

End Main.

End Driver.

(** * Properties *)

Import CStr CStdlib Scanf IR Recognizer Validator Isa Writer Assembler Machine Spec.
Local Open Scope list_scope.

(** ** C strings *)

Section CStrFacts.

Lemma has_prefix_begins_with (token line : string) :
  has_prefix token line = true <-> begins_with token line.
Proof.
  unfold has_prefix, begins_with.
  revert line; induction token as [|a token IH]; intros line.
  - split; [intros _; now exists line | intros _; now destruct line].
  - destruct line as [|b line]; simpl.
    + split; [discriminate | intros [rest H]; discriminate].
    + destruct (ascii_dec a b) as [->|Hne].
      * rewrite IH. split; intros [rest H]; exists rest.
        -- now rewrite H.
        -- now inversion H.
      * split; [discriminate | intros [rest H]; inversion H; congruence].
Qed.

Lemma has_prefix_false (token line : string) :
  has_prefix token line = false <-> ~ begins_with token line.
Proof.
  rewrite <- has_prefix_begins_with.
  destruct (has_prefix token line); split; intros H; congruence.
Qed.

Lemma strchr_contains (line : string) (c : ascii) :
  strchr line c <> None <-> contains (String c EmptyString) line.
Proof.
  unfold contains.
  induction line as [|d line IH]; simpl.
  - split; [congruence | intros [[|x before] [after H]]; discriminate].
  - destruct (Ascii.eqb_spec d c) as [->|Hne].
    + split; [intros _; now exists EmptyString, line | congruence].
    + split.
      * intros H. destruct (strchr line c); [|congruence].
        destruct IH as [IH _].
        destruct IH as [before [after ->]]; [congruence|].
        now exists (String d before), after.
      * intros [[|x before] [after H]]; simpl in H; inversion H; subst.
        -- contradiction.
        -- destruct IH as [_ IH].
           destruct (strchr (before ++ String c after) c); [congruence|].
           exfalso. apply IH; [|reflexivity]. now exists before, after.
Qed.

Lemma contains_char_contains (line : string) (c : ascii) :
  contains_char line c = true <-> contains (String c EmptyString) line.
Proof.
  rewrite <- strchr_contains. unfold contains_char.
  destruct (strchr line c); split; congruence.
Qed.

Lemma strstr_unfold (h n : string) :
  strstr h n =
  if has_prefix n h then Some h
  else match h with
       | EmptyString => None
       | String _ h' => strstr h' n
       end.
Proof. now destruct h. Qed.

Lemma strstr_contains (line text : string) :
  strstr line text <> None <-> contains text line.
Proof.
  unfold contains.
  induction line as [|d line IH]; rewrite strstr_unfold;
    destruct (has_prefix text _) eqn:Hp.
  - split; [intros _|congruence].
    apply has_prefix_begins_with in Hp. destruct Hp as [rest H].
    now exists EmptyString, rest.
  - split; [congruence|].
    intros [[|x before] [after H]]; [|discriminate].
    apply has_prefix_false in Hp. exfalso. apply Hp. now exists after.
  - split; [intros _|congruence].
    apply has_prefix_begins_with in Hp. destruct Hp as [rest H].
    now exists EmptyString, rest.
  - rewrite IH. split.
    + intros [before [after ->]]. now exists (String d before), after.
    + intros [[|x before] [after H]].
      * apply has_prefix_false in Hp. exfalso. apply Hp. now exists after.
      * inversion H. now exists before, after.
Qed.

End CStrFacts.

(** ** The shape classifier *)

Section Classifier.

Lemma has_loop_spec (lines : list string) :
  has_loop lines = true <-> Exists loop_marker lines.
Proof.
  unfold has_loop. rewrite existsb_exists, Exists_exists.
  split; intros [l [Hin H]]; exists l; split; trivial;
    now apply has_prefix_begins_with.
Qed.

Lemma has_arithmetic_chain_spec (lines : list string) :
  has_arithmetic_chain lines = true <-> Exists operator_marker lines.
Proof.
  unfold has_arithmetic_chain, operator_marker.
  rewrite existsb_exists, Exists_exists.
  split; intros [l [Hin H]]; exists l; split; trivial.
  - apply orb_true_iff in H.
    destruct H as [H|H]; [left|right]; now apply contains_char_contains.
  - apply orb_true_iff.
    destruct H as [H|H]; [left|right]; now apply contains_char_contains.
Qed.

Lemma has_string_binding_spec (lines : list string) :
  has_string_binding lines = true <-> Exists string_binding_marker lines.
Proof.
  unfold has_string_binding, string_binding_marker.
  rewrite existsb_exists, Exists_exists.
  split; intros [l [Hin H]]; exists l; split; trivial.
  - apply strstr_contains. destruct (strstr l ": string ="); congruence.
  - apply strstr_contains in H. destruct (strstr l ": string ="); congruence.
Qed.

Lemma flag_false (b : bool) (P : Prop) : (b = true <-> P) -> ~ P -> b = false.
Proof. destruct b; intuition. Qed.

(** C3: the classifier tries the loop marker first, then the operator
    characters, then the string binding marker, and otherwise fails with
    the unsupported-shape diagnostic; a sequence with both a [while] line
    and an operator line goes to the Loop-Sum recognizer. *)
Theorem C3_classifier_precedence (lines : list string) (ir : program_ir) :
  (Exists loop_marker lines ->
   parse_lines lines ir = parse_loop_sum_program lines ir)
  /\ (~ Exists loop_marker lines -> Exists operator_marker lines ->
      parse_lines lines ir = parse_pi_program lines ir)
  /\ (~ Exists loop_marker lines -> ~ Exists operator_marker lines ->
      Exists string_binding_marker lines ->
      parse_lines lines ir = parse_string_program lines ir)
  /\ (~ Exists loop_marker lines -> ~ Exists operator_marker lines ->
      ~ Exists string_binding_marker lines ->
      parse_lines lines ir = inl UnsupportedProgramShape)
  /\ (Exists loop_marker lines -> Exists operator_marker lines ->
      parse_lines lines ir = parse_loop_sum_program lines ir).
Proof.
  unfold parse_lines.
  repeat split.
  - intros Hl. apply has_loop_spec in Hl. now rewrite Hl.
  - intros Hl Ha.
    rewrite (flag_false _ _ (has_loop_spec lines) Hl).
    apply has_arithmetic_chain_spec in Ha. now rewrite Ha.
  - intros Hl Ha Hs.
    rewrite (flag_false _ _ (has_loop_spec lines) Hl).
    rewrite (flag_false _ _ (has_arithmetic_chain_spec lines) Ha).
    apply has_string_binding_spec in Hs. now rewrite Hs.
  - intros Hl Ha Hs.
    rewrite (flag_false _ _ (has_loop_spec lines) Hl).
    rewrite (flag_false _ _ (has_arithmetic_chain_spec lines) Ha).
    now rewrite (flag_false _ _ (has_string_binding_spec lines) Hs).
  - intros Hl _. apply has_loop_spec in Hl. now rewrite Hl.
Qed.

End Classifier.

Lemma C3_witness :
  parse_lines ["while n > 0 {"; "x = a * b;"] fresh_ir
  = parse_loop_sum_program ["while n > 0 {"; "x = a * b;"] fresh_ir.
Proof.
  apply (C3_classifier_precedence ["while n > 0 {"; "x = a * b;"] fresh_ir).
  - apply Exists_cons_hd. exists " n > 0 {". reflexivity.
  - apply Exists_cons_tl, Exists_cons_hd. left. exists "x = a ", " b;". reflexivity.
Defined.

(** ** The validator and the writer *)

Section ValidatorFacts.

Lemma compile_load_failure (input : string) (opened : bool) (output : file)
    (d : diag) :
  load_program_ir input = inl d ->
  aurc_compile_file input opened output = (Some d, output).
Proof. unfold aurc_compile_file. now intros ->. Qed.


Lemma same_program_refl (ir : program_ir) : same_program ir ir.
Proof. unfold same_program. destruct (kind ir); repeat split. Qed.

Lemma emit_manifest_items_same_program (ir1 ir2 : program_ir) :
  same_program ir1 ir2 -> emit_manifest_items ir1 = emit_manifest_items ir2.
Proof.
  intros [Hk Hf]. unfold emit_manifest_items. rewrite <- Hk.
  destruct (kind ir1).
  - reflexivity.
  - destruct Hf as [Hb Hi].
    unfold emit_string_manifest, string_binding_count, binding_at.
    now rewrite Hb, Hi.
  - destruct Hf as [Ha Hc]. unfold emit_loop_manifest. now rewrite Ha, Hc.
  - destruct Hf as (Hn & Hd & Hs & Hnv & Hdv & Hsv).
    unfold emit_pi_manifest. now rewrite Hn, Hd, Hs, Hnv, Hdv, Hsv.
Qed.

(** C8: the manifest the writer leaves in the output file is a function of
    the IR alone: two emissions from equal IRs give the same return code
    and, when the output is opened, the same text, whatever the output
    file held before each of them.  The text depends on the IR only through
    the fields of its variant that the writer prints. *)
Theorem C8_manifest_writer_deterministic (ir1 ir2 : program_ir)
    (before1 before2 : file) :
  (ir1 = ir2 -> emit_manifest ir1 true before1 = emit_manifest ir2 true before2)
  /\ (same_program ir1 ir2 ->
      emit_manifest ir1 true before1 = emit_manifest ir2 true before2)
  /\ (forall opened,
        same_program ir1 ir2 ->
        fst (emit_manifest ir1 opened before1)
        = fst (emit_manifest ir2 opened before2)).
Proof.
  assert (H : same_program ir1 ir2 ->
              emit_manifest ir1 true before1 = emit_manifest ir2 true before2).
  { intros Hs. unfold emit_manifest. cbn [negb].
    now rewrite (emit_manifest_items_same_program ir1 ir2 Hs). }
  split; [|split; [exact H|]].
  - intros ->. apply H, same_program_refl.
  - intros [|] Hs; [now rewrite (H Hs) | reflexivity].
Qed.

Lemma C8_witness :
  emit_manifest (Samples.recognized (Samples.loop_sum "0" "5")) true None
  = emit_manifest (Samples.recognized (Samples.loop_sum "0" "5")) true
      (Some "label main").
Proof.
  apply (proj1 (C8_manifest_writer_deterministic
                  (Samples.recognized (Samples.loop_sum "0" "5"))
                  (Samples.recognized (Samples.loop_sum "0" "5"))
                  None (Some "label main"))).
  reflexivity.
Defined.

End ValidatorFacts.

(** ** The [bytes] directive *)

Section BytesDirective.

Lemma lor_shiftl_low (h v k : Z) :
  0 <= k -> 0 <= v < 2 ^ k -> Z.lor (Z.shiftl h k) v = h * 2 ^ k + v.
Proof.
  intros Hk Hv.
  rewrite Z.shiftl_mul_pow2 by assumption.
  rewrite <- Z.add_lor_land.
  assert (Hland : Z.land (h * 2 ^ k) v = 0).
  { apply Z.bits_inj'. intros n Hn.
    rewrite Z.land_spec, Z.bits_0.
    destruct (Z.ltb_spec n k) as [Hlt|Hge].
    - rewrite Z.mul_pow2_bits_low by assumption. reflexivity.
    - rewrite <- (Z.mod_small v (2 ^ k)) by assumption.
      rewrite Z.mod_pow2_bits_high by lia.
      apply andb_false_r. }
  rewrite Hland. lia.
Qed.

Lemma nibble_range (c : ascii) (v : Z) : nibble c = Some v -> 0 <= v < 16.
Proof.
  unfold nibble.
  repeat match goal with
         | |- context [if ?b then _ else _] => destruct b eqn:?
         end; intros H; inversion H; subst; lia.
Qed.

Lemma hex_value_nibble (c : ascii) :
  hex_value (code c) = match nibble c with Some v => v | None => -1 end.
Proof.
  unfold hex_value, nibble.
  change (code "0") with 48. change (code "9") with 57.
  change (code "a") with 97. change (code "f") with 102.
  change (code "A") with 65. change (code "F") with 70.
  repeat match goal with
         | |- context [if ?b then _ else _] => destruct b
         end; lia.
Qed.

Lemma emit_hex_loop_payload (p : string) :
  forall high written out,
    high < 0 \/ 0 <= high < 16 ->
    emit_hex_loop p high written out = payload_loop (payload p) high written out.
Proof.
  induction p as [|c p IH]; intros high written out Hh; [reflexivity|].
  cbn [emit_hex_loop payload]. unfold stops.
  destruct (Ascii.eqb c ";" || isspace c); [reflexivity|].
  destruct (Ascii.eqb c "_"); [now apply IH|].
  cbn [payload_loop]. rewrite hex_value_nibble.
  destruct (nibble c) as [v|] eqn:Hn; [|reflexivity].
  pose proof (nibble_range _ _ Hn) as Hv.
  destruct (Z.ltb_spec v 0); [lia|].
  destruct (Z.ltb_spec high 0) as [Hneg|Hpos].
  - apply IH. now right.
  - rewrite lor_shiftl_low by lia.
    rewrite Z.mod_small by lia.
    replace (high * 2 ^ 4 + v) with (16 * high + v) by lia.
    apply IH. left. lia.
Qed.

Lemma list_pair_ind {A : Type} (P : list A -> Prop) :
  P [] -> (forall x, P [x]) -> (forall x y l, P l -> P (x :: y :: l)) ->
  forall l, P l.
Proof.
  intros H0 H1 H2.
  fix IH 1. intros [|x [|y l]]; [exact H0 | apply H1 | apply H2, IH].
Qed.

Lemma pair_bytes_length (ds : list ascii) :
  List.length (pair_bytes ds) = (List.length ds / 2)%nat.
Proof.
  rewrite <- Nat.div2_div.
  induction ds as [| x | x y l IH] using list_pair_ind; trivial.
  cbn [pair_bytes List.length Nat.div2]. now rewrite IH.
Qed.

(** On a payload of hexadecimal digits the loop ends with every pair
    written, and with a pending digit exactly when their number is odd. *)
Lemma payload_loop_hex (ds : list ascii) :
  forallb is_hex_digit ds = true ->
  forall written out,
  exists high,
    payload_loop ds (-1) written out
    = inl (high, written + Z.of_nat (List.length (pair_bytes ds)),
           out ++ pair_bytes ds)
    /\ (high < 0 <-> Nat.even (List.length ds) = true).
Proof.
  induction ds as [| x | x y l IH] using list_pair_ind; intros Hall written out.
  - exists (-1). cbn. rewrite Z.add_0_r, app_nil_r. split; [reflexivity|].
    split; [reflexivity | lia].
  - cbn in Hall. unfold is_hex_digit in Hall.
    destruct (nibble x) as [v|] eqn:Hn; [|discriminate].
    pose proof (nibble_range _ _ Hn).
    exists v. cbn. rewrite Hn. cbn. rewrite Z.add_0_r, app_nil_r.
    split; [reflexivity|]. split; [lia | discriminate].
  - cbn [forallb] in Hall.
    apply andb_true_iff in Hall. destruct Hall as [Hx Hall].
    apply andb_true_iff in Hall. destruct Hall as [Hy Hall].
    unfold is_hex_digit in Hx, Hy.
    destruct (nibble x) as [vx|] eqn:Hnx; [|discriminate].
    destruct (nibble y) as [vy|] eqn:Hny; [|discriminate].
    pose proof (nibble_range _ _ Hnx). pose proof (nibble_range _ _ Hny).
    destruct (IH Hall (written + 1) (out ++ [16 * vx + vy])) as [high [Heq Hhigh]].
    exists high. split.
    + cbn [payload_loop]. rewrite Hnx. cbn [Z.ltb Z.compare].
      rewrite Hny. destruct (Z.ltb_spec vx 0); [lia|].
      rewrite Heq. cbn [pair_bytes List.length].
      unfold nibble_value. rewrite Hnx, Hny.
      rewrite <- app_assoc. cbn [app].
      f_equal. f_equal. f_equal. lia.
    + exact Hhigh.
Qed.


Lemma emit_hex_bytes_well_formed (out : image) (hex : string) :
  well_formed_payload (payload hex) = true ->
  emit_hex_bytes out hex = (None, out ++ pair_bytes (payload hex)).
Proof.
  unfold well_formed_payload, emit_hex_bytes. intros Hwf.
  apply andb_true_iff in Hwf. destruct Hwf as [Hwf Hne].
  apply andb_true_iff in Hwf. destruct Hwf as [Hall Heven].
  rewrite emit_hex_loop_payload by (left; lia).
  destruct (payload_loop_hex _ Hall 0 out) as [high [-> Hhigh]].
  pose proof (proj2 Hhigh Heven) as Hneg.
  destruct (Z.leb_spec 0 high); [lia|].
  rewrite pair_bytes_length.
  destruct (payload hex) as [|x [|y l]]; [discriminate | discriminate |].
  cbn [List.length] in *.
  assert (1 <= (S (S (List.length l))) / 2)%nat.
  { change (S (S (List.length l))) with (2 + List.length l)%nat.
    apply Nat.div_le_lower_bound; lia. }
  destruct (Z.eqb_spec (0 + Z.of_nat (S (S (List.length l)) / 2)) 0); [lia|].
  reflexivity.
Qed.


Lemma assemble_line_bytes (out : image) (buffer : string) :
  begins_with "bytes" (trim buffer) ->
  assemble_line out buffer
  = match strstr (trim buffer) "0x" with
    | None => (Some BytesMissingHexLiteral, out)
    | Some hex => emit_hex_bytes out (drop 2 hex)
    end.
Proof.
  intros Hb. unfold assemble_line.
  rewrite (proj2 (has_prefix_begins_with _ _) Hb).
  destruct Hb as [rest ->]. reflexivity.
Qed.



End BytesDirective.

(** ** Failing assemblies *)

Section FailingAssembly.

Lemma assemble_lines_app (pre rest : list string) (out : image) :
  assemble_lines (pre ++ rest) out
  = match assemble_lines pre out with
    | (Some d, out') => (Some d, out')
    | (None, out') => assemble_lines rest out'
    end.
Proof.
  revert out; induction pre as [|l pre IH]; intros out; [reflexivity|].
  cbn [app assemble_lines].
  destruct (assemble_line out l) as [[d|] out']; [reflexivity | apply IH].
Qed.

Lemma strchr_none_cons (c d : ascii) (p : string) :
  strchr (String d p) c = None -> Ascii.eqb d c = false /\ strchr p c = None.
Proof.
  cbn [strchr]. destruct (Ascii.eqb d c); [discriminate|].
  destruct (strchr p c); [discriminate | now split].
Qed.




Lemma assemble_line_ascii (out : image) (line : string) :
  begins_with "ascii" (trim line) ->
  assemble_line out line = emit_ascii_bytes out (trim line).
Proof.
  intros Hb. unfold assemble_line.
  rewrite (proj2 (has_prefix_begins_with _ _) Hb).
  destruct Hb as [rest ->]. reflexivity.
Qed.







End FailingAssembly.

(** ** Instruction words *)

Section InstructionWords.

Lemma pack_instruction_word_sum (opcode op0 op1 op2 imm32 : Z) :
  byte_range opcode -> byte_range op0 -> byte_range op1 -> byte_range op2 ->
  0 <= imm32 < 2 ^ 32 ->
  pack_instruction_word opcode op0 op1 op2 imm32
  = opcode * 2 ^ 56 + op0 * 2 ^ 48 + op1 * 2 ^ 40 + op2 * 2 ^ 32 + imm32.
Proof.
  unfold byte_range, pack_instruction_word. intros Ho H0 H1 H2 Hi.
  rewrite Z.lor_0_l, <- !Z.lor_assoc.
  rewrite (lor_shiftl_low op2 imm32 32) by lia.
  rewrite (lor_shiftl_low op1 _ 40) by lia.
  rewrite (lor_shiftl_low op0 _ 48) by lia.
  rewrite (lor_shiftl_low opcode _ 56) by lia.
  lia.
Qed.

Lemma shiftr_land_byte (w hi b lo k : Z) :
  0 <= k -> 0 <= lo < 2 ^ k -> byte_range b -> 0 <= hi ->
  w = (hi * 2 ^ 8 + b) * 2 ^ k + lo ->
  Z.land (Z.shiftr w k) 0xFF = b.
Proof.
  unfold byte_range. intros Hk Hlo Hb Hhi ->.
  rewrite Z.shiftr_div_pow2 by assumption.
  change 0xFF with (Z.ones 8). rewrite Z.land_ones by lia.
  rewrite Z.div_add_l by lia.
  rewrite (Z.div_small lo) by assumption.
  rewrite Z.add_0_r, Z.add_comm, Z.mod_add by lia.
  apply Z.mod_small. assumption.
Qed.

Lemma pack_instruction_word_fields (opcode op0 op1 op2 imm32 : Z) :
  byte_range opcode -> byte_range op0 -> byte_range op1 -> byte_range op2 ->
  0 <= imm32 < 2 ^ 32 ->
  let w := pack_instruction_word opcode op0 op1 op2 imm32 in
  field_opcode w = opcode /\ field_op0 w = op0 /\ field_op1 w = op1
  /\ field_op2 w = op2 /\ Z.land w 0xFFFFFFFF = imm32.
Proof.
  intros Ho H0 H1 H2 Hi w. subst w.
  rewrite pack_instruction_word_sum by assumption.
  unfold byte_range in *.
  unfold field_opcode, field_op0, field_op1, field_op2.
  repeat split.
  - apply (shiftr_land_byte _ 0 opcode
             (op0 * 2 ^ 48 + op1 * 2 ^ 40 + op2 * 2 ^ 32 + imm32) 56);
      unfold byte_range; lia.
  - apply (shiftr_land_byte _ opcode op0 (op1 * 2 ^ 40 + op2 * 2 ^ 32 + imm32) 48);
      unfold byte_range; lia.
  - apply (shiftr_land_byte _ (opcode * 2 ^ 8 + op0) op1 (op2 * 2 ^ 32 + imm32) 40);
      unfold byte_range; lia.
  - apply (shiftr_land_byte _ (opcode * 2 ^ 16 + op0 * 2 ^ 8 + op1) op2 imm32 32);
      unfold byte_range; lia.
  - change 0xFFFFFFFF with (Z.ones 32). rewrite Z.land_ones by lia.
    replace (opcode * 2 ^ 56 + op0 * 2 ^ 48 + op1 * 2 ^ 40 + op2 * 2 ^ 32 + imm32)
      with (imm32 + (opcode * 2 ^ 24 + op0 * 2 ^ 16 + op1 * 2 ^ 8 + op2) * 2 ^ 32)
      by lia.
    rewrite Z.mod_add by lia. apply Z.mod_small. assumption.
Qed.

Lemma to_int_uint32 (v : Z) : int32_range v -> to_int (uint32 v) = v.
Proof.
  unfold int32_range, to_int, uint32. intros Hv.
  rewrite Zplus_mod_idemp_l.
  rewrite Z.mod_small by lia. lia.
Qed.

Lemma to_int_range (v : Z) : int32_range (to_int v).
Proof.
  unfold int32_range, to_int.
  pose proof (Z.mod_pos_bound (v + 2 ^ 31) (2 ^ 32)). lia.
Qed.

Lemma ensure_signed_32_range_ok (v : Z) :
  int32_range v -> ensure_signed_32_range v = false.
Proof.
  unfold int32_range, ensure_signed_32_range, INT32_MIN, INT32_MAX. intros Hv.
  destruct (Z.ltb_spec v (- 2 ^ 31)); [lia|].
  destruct (Z.ltb_spec (2 ^ 31 - 1) v); [lia|]. reflexivity.
Qed.

Lemma register_value_range (r : isa_register) : 0 <= register_value r < 8.
Proof. destruct r; cbn; lia. Qed.

(** A move of an immediate in the signed 32-bit range reads back as the
    same move. *)
Lemma decode_mov_immediate (r : isa_register) (v : Z) :
  int32_range v ->
  decode (encode_mov_immediate r v) = Some (IMovImm (register_value r) v).
Proof.
  intros Hv. unfold encode_mov_immediate.
  pose proof (register_value_range r) as Hr.
  assert (Hu : uint8 (register_value r) = register_value r)
    by (unfold uint8; apply Z.mod_small; lia).
  rewrite Hu.
  destruct (pack_instruction_word_fields
              (uint8 (opcode_value ISA_OPCODE_MOV)) (register_value r)
              ISA_OPERAND_IMMEDIATE ISA_OPERAND_UNUSED (uint32 v))
    as (Ho & H0 & H1 & H2 & Hi).
  { now vm_compute. }
  { unfold byte_range. lia. }
  { now vm_compute. }
  { now vm_compute. }
  { unfold uint32. apply Z.mod_pos_bound. lia. }
  unfold decode, field_imm. rewrite Ho, H0, H1, Hi, to_int_uint32 by assumption.
  unfold is_reg.
  destruct (Z.leb_spec 0 (register_value r)); [|lia].
  destruct (Z.ltb_spec (register_value r) 8); [|lia].
  reflexivity.
Qed.

End InstructionWords.

(** ** Evaluation of the templates *)

Section Templates.

Ltac decode_closed_words :=
  repeat match goal with
         | |- context [decode ?w] =>
             let r := eval vm_compute in (decode w) in
             change (decode w) with r
         end.

Ltac jump_targets :=
  repeat match goal with
         | |- context [jump_target ?c] =>
             lazymatch c with
             | snprintf256 _ => fail
             | _ =>
                 let r := eval vm_compute in (jump_target c) in
                 progress change (jump_target c) with r
             end
         end.

Lemma load_loop_manifest (ir : program_ir) :
  kind ir = PROGRAM_LOOP_SUM ->
  int32_range (accumulator_init (loop ir)) ->
  int32_range (counter_init (loop ir)) ->
  exists c1 c2,
    fst (emit_manifest_items ir) = None
    /\ load (snd (emit_manifest_items ir))
       = Some (loop_template (accumulator_init (loop ir)) (counter_init (loop ir))
                 c1 c2).
Proof.
  intros Hk Ha Hn.
  unfold emit_manifest_items, emit_loop_manifest. rewrite Hk.
  rewrite (ensure_signed_32_range_ok _ Ha), (ensure_signed_32_range_ok _ Hn).
  change (negb (Z.lor RUNTIME_NONE RUNTIME_EXIT_WITH_R0 =? RUNTIME_NONE)) with true.
  change (emit_runtime_section (Z.lor RUNTIME_NONE RUNTIME_EXIT_WITH_R0))
    with emit_runtime_exit_with_r0.
  cbv iota beta. cbn [fst snd app].
  unfold load, emit_runtime_exit_with_r0. cbn [load_items].
  rewrite !decode_mov_immediate by assumption.
  cbn [load_items insns labels app].
  decode_closed_words.
  cbn [load_items insns labels app].
  jump_targets. cbn [register_value].
  eexists _, _. split; reflexivity.
Qed.

Lemma load_pi_manifest (ir : program_ir) :
  kind ir = PROGRAM_PI_TEST ->
  int32_range (numerator_value (pi ir)) ->
  int32_range (denominator_value (pi ir)) ->
  int32_range (scale_value (pi ir)) ->
  exists c1 c2 c3,
    fst (emit_manifest_items ir) = None
    /\ load (snd (emit_manifest_items ir))
       = Some (pi_template (numerator_value (pi ir)) (denominator_value (pi ir))
                 (scale_value (pi ir)) c1 c2 c3).
Proof.
  intros Hk Hn Hd Hs.
  unfold emit_manifest_items, emit_pi_manifest. rewrite Hk.
  rewrite (ensure_signed_32_range_ok _ Hn), (ensure_signed_32_range_ok _ Hd),
    (ensure_signed_32_range_ok _ Hs).
  change (negb (Z.lor RUNTIME_NONE RUNTIME_EXIT_WITH_R0 =? RUNTIME_NONE)) with true.
  change (emit_runtime_section (Z.lor RUNTIME_NONE RUNTIME_EXIT_WITH_R0))
    with emit_runtime_exit_with_r0.
  cbv iota beta. cbn [fst snd app].
  unfold load, emit_runtime_exit_with_r0. cbn [load_items].
  rewrite !decode_mov_immediate by assumption.
  cbn [load_items insns labels app].
  decode_closed_words.
  cbn [load_items insns labels app].
  jump_targets. cbn [register_value].
  eexists _, _, _. split; reflexivity.
Qed.

Lemma validate_pi_denominator (ir : program_ir) :
  kind ir = PROGRAM_PI_TEST ->
  fst (validate_program ir) = None ->
  denominator_value (pi ir) <> 0.
Proof.
  unfold validate_program. intros -> H Hz. rewrite Hz in H. cbn in H.
  destruct (is_empty (numerator_var (pi ir)) || is_empty (denominator_var (pi ir))
            || is_empty (scale_var (pi ir))); discriminate H.
Qed.

(** C2: the instructions emitted for a valid Pi-Approximation program,
    run from [main], exit with the truncated quotient of numerator times
    scale by denominator in R0. *)
Theorem C2_pi_template_result (ir : program_ir) :
  kind ir = PROGRAM_PI_TEST ->
  int32_range (numerator_value (pi ir)) ->
  int32_range (denominator_value (pi ir)) ->
  int32_range (scale_value (pi ir)) ->
  fst (validate_program ir) = None ->
  execute 8 (snd (emit_manifest_items ir))
  = Some (Exited (Z.quot (numerator_value (pi ir) * scale_value (pi ir))
                         (denominator_value (pi ir)))).
Proof.
  intros Hk Hn Hd Hs Hv.
  pose proof (validate_pi_denominator ir Hk Hv) as Hnz.
  destruct (load_pi_manifest ir Hk Hn Hd Hs) as (c1 & c2 & c3 & _ & Hload).
  unfold execute. rewrite Hload.
  cbn. destruct (Z.eqb_spec (denominator_value (pi ir)) 0) as [Hz|_];
    [contradiction | cbn].
  destruct (Z.eqb_spec (denominator_value (pi ir)) 0) as [Hz|_];
    [contradiction | reflexivity].
Qed.

Lemma C2_witness :
  execute 8 (snd (emit_manifest_items
                    (Samples.recognized (Samples.pi_approx "-355" "113" "10000"))))
  = Some (Exited (Z.quot (-355 * 10000) 113)).
Proof.
  apply (C2_pi_template_result
           (Samples.recognized (Samples.pi_approx "-355" "113" "10000"))).
  - reflexivity.
  - vm_compute. split; discriminate.
  - vm_compute. split; discriminate.
  - vm_compute. split; discriminate.
  - reflexivity.
Defined.

(** *** The Loop-Sum template *)

Lemma run_more_fuel (p : program) (f k : nat) :
  forall st o, run f p st = Some o -> run (f + k) p st = Some o.
Proof.
  induction f as [|f IH]; intros st o H; [discriminate|].
  cbn [run Nat.add] in *.
  destruct (step p st); try exact H. now apply IH.
Qed.

Section LoopTemplate.

Variables (a n : Z) (c1 c2 : string).

Local Abbreviation P := (loop_template a n c1 c2).

(** One turn of the loop that does not bring the counter to zero: five
    instructions, back at the label [loop]. *)
Lemma loop_turn (rs : regfile) (fl : option comparison) (f : nat) :
  rs 2 - 1 <> 0 ->
  run (5 + f) P (at_loop rs fl)
  = run f P (at_loop (set_reg (set_reg rs 1 (rs 1 + rs 2)) 2 (rs 2 - 1))
                     (Some (rs 2 - 1 ?= 0))).
Proof.
  intros Hne. cbn.
  destruct (Z.compare_spec (rs 2 - 1) 0); [contradiction | reflexivity | reflexivity].
Qed.

(** The turn that brings the counter to zero leaves the loop, moves the
    accumulator to R0 and exits. *)
Lemma loop_last_turn (rs : regfile) (fl : option comparison) :
  rs 2 = 1 ->
  run 6 P (at_loop rs fl) = Some (Exited (rs 1 + rs 2)).
Proof. intros H. cbn. rewrite H. reflexivity. Qed.

Lemma loop_from_positive_counter (m : nat) :
  forall rs fl,
    rs 2 = Z.of_nat (S m) ->
    run (5 * m + 6) P (at_loop rs fl)
    = Some (Exited (rs 1 + descending_sum (S m))).
Proof.
  induction m as [|m IH]; intros rs fl Hc.
  - change (5 * 0 + 6)%nat with 6%nat.
    rewrite (loop_last_turn rs fl Hc), Hc. cbn. reflexivity.
  - replace (5 * S m + 6)%nat with (5 + (5 * m + 6))%nat by lia.
    rewrite loop_turn by lia.
    rewrite IH by (unfold set_reg; cbn; lia).
    unfold set_reg. cbn [Z.eqb Pos.eqb]. rewrite Hc.
    f_equal. f_equal.
    change (descending_sum (S (S m))) with (Z.of_nat (S (S m)) + descending_sum (S m)).
    lia.
Qed.

Lemma loop_from_nonpositive_counter (m : nat) :
  forall rs fl,
    rs 2 <= 0 ->
    run (5 * m) P (at_loop rs fl) = None.
Proof.
  induction m as [|m IH]; intros rs fl Hc; [reflexivity|].
  replace (5 * S m)%nat with (5 + 5 * m)%nat by lia.
  rewrite loop_turn by lia.
  apply IH. unfold set_reg. cbn. lia.
Qed.

Lemma loop_never_exits (fuel : nat) (rs : regfile) (fl : option comparison) :
  rs 2 <= 0 -> run fuel P (at_loop rs fl) = None.
Proof.
  intros Hc.
  destruct (run fuel P (at_loop rs fl)) as [o|] eqn:Hrun; [|reflexivity].
  apply (run_more_fuel P fuel (4 * fuel)) in Hrun.
  replace (fuel + 4 * fuel)%nat with (5 * fuel)%nat in Hrun by lia.
  now rewrite loop_from_nonpositive_counter in Hrun.
Qed.

Lemma template_reaches_loop (f : nat) :
  run (2 + f) P {| pc := 0; regs := fun _ => 0; flags := None |}
  = run f P (at_loop (set_reg (set_reg (fun _ => 0) 1 a) 2 n) None).
Proof. reflexivity. Qed.

End LoopTemplate.

(** The semantics the specification names gives the descending sum for
    every non-negative counter. *)
Lemma accumulate_while_sum (m : nat) :
  forall acc fuel,
    (m <= fuel)%nat ->
    accumulate_while fuel acc (Z.of_nat m) = Some (acc + descending_sum m).
Proof.
  induction m as [|m IH]; intros acc fuel Hf.
  - destruct fuel; cbn; f_equal; lia.
  - destruct fuel as [|fuel]; [lia|].
    cbn [accumulate_while].
    destruct (Z.ltb_spec 0 (Z.of_nat (S m))); [|lia].
    replace (Z.of_nat (S m) - 1) with (Z.of_nat m) by lia.
    rewrite IH by lia. f_equal.
    change (descending_sum (S m)) with (Z.of_nat (S m) + descending_sum m). lia.
Qed.

(** From a counter of at least one the emitted Loop-Sum instructions exit
    with the descending sum added to the accumulator in R0. *)
Lemma loop_template_positive_counter (ir : program_ir) :
  kind ir = PROGRAM_LOOP_SUM ->
  int32_range (accumulator_init (loop ir)) ->
  int32_range (counter_init (loop ir)) ->
  1 <= counter_init (loop ir) ->
  execute (5 * Z.to_nat (counter_init (loop ir)) + 3) (snd (emit_manifest_items ir))
  = Some (Exited (loop_sum_value (accumulator_init (loop ir))
                                 (counter_init (loop ir)))).
Proof.
  intros Hk Ha Hn Hpos.
  destruct (load_loop_manifest ir Hk Ha Hn) as (c1 & c2 & _ & Hload).
  unfold execute. rewrite Hload.
  change (find_label (labels (loop_template _ _ c1 c2)) "main") with (Some 0%nat).
  cbv iota.
  destruct (Z.to_nat (counter_init (loop ir))) as [|m] eqn:Hm; [lia|].
  replace (5 * S m + 3)%nat with (2 + (5 * m + 6))%nat by lia.
  rewrite template_reaches_loop.
  rewrite loop_from_positive_counter by (unfold set_reg; cbn; lia).
  unfold set_reg, loop_sum_value. cbn [Z.eqb Pos.eqb]. now rewrite Hm.
Qed.

(** C1 at a counter of zero: the emitted instructions run the body before
    they test the counter and leave the loop only when the counter equals
    zero, so from zero the counter goes to -1, -2, ... and the program
    never exits, whereas accumulating while the counter is positive yields
    the accumulator at once. *)
Theorem C1_zero_counter_never_exits (ir : program_ir) :
  kind ir = PROGRAM_LOOP_SUM ->
  int32_range (accumulator_init (loop ir)) ->
  counter_init (loop ir) = 0 ->
  (forall fuel, execute fuel (snd (emit_manifest_items ir)) = None)
  /\ (forall fuel,
        accumulate_while fuel (accumulator_init (loop ir)) (counter_init (loop ir))
        = Some (accumulator_init (loop ir)))
  /\ loop_sum_value (accumulator_init (loop ir)) (counter_init (loop ir))
     = accumulator_init (loop ir).
Proof.
  intros Hk Ha Hn.
  assert (Hr : int32_range (counter_init (loop ir)))
    by (rewrite Hn; unfold int32_range; lia).
  destruct (load_loop_manifest ir Hk Ha Hr) as (c1 & c2 & _ & Hload).
  repeat split.
  - intros fuel. unfold execute. rewrite Hload.
    change (find_label (labels (loop_template _ _ c1 c2)) "main") with (Some 0%nat).
    cbv iota.
    destruct fuel as [|[|fuel]]; [reflexivity | reflexivity |].
    change (S (S fuel)) with (2 + fuel)%nat.
    rewrite template_reaches_loop.
    apply loop_never_exits. unfold set_reg. cbn. lia.
  - intros fuel. rewrite Hn. now destruct fuel.
  - rewrite Hn. unfold loop_sum_value. cbn. lia.
Qed.

Lemma C1_witness :
  (forall fuel,
      execute fuel (snd (emit_manifest_items
                           (Samples.recognized (Samples.loop_sum "7" "0")))) = None)
  /\ (forall fuel, accumulate_while fuel 7 0 = Some 7)
  /\ loop_sum_value 7 0 = 7.
Proof.
  apply (C1_zero_counter_never_exits
           (Samples.recognized (Samples.loop_sum "7" "0"))).
  - reflexivity.
  - vm_compute. split; discriminate.
  - reflexivity.
Defined.

End Templates.

(** ** Malformed statements in the recognizers *)

Section MalformedStatements.

Local Open Scope string_scope.











End MalformedStatements.

(** ** The Pi-Approximation recognizer *)

Section PiRecognizer.

(** Case analysis on the innermost scrutinee of a hypothesis. *)
Ltac break_hyp H :=
  repeat match type of H with
         | context [match ?x with _ => _ end] =>
             lazymatch x with
             | context [match _ with _ => _ end] => fail
             | _ => destruct x eqn:?; try discriminate H
             end
         end.

Lemma ltrim_head (r : string) (c : ascii) (s : string) :
  ltrim r = String c s -> isspace c = false.
Proof.
  induction r as [|d r IH]; [discriminate|].
  cbn [ltrim]. destruct (isspace d) eqn:Hd; [exact IH|].
  intros H. inversion H. now subst.
Qed.

Lemma scan_set_head (w : nat) (excluded : list ascii) (input tok rest : string) :
  scan_set w excluded input = (tok, rest) ->
  is_empty tok = false ->
  exists c tok' input', tok = String c tok' /\ input = String c input'.
Proof.
  destruct w as [|w]; [intros H; inversion H; subst; discriminate|].
  destruct input as [|c input]; [intros H; inversion H; subst; discriminate|].
  cbn [scan_set]. destruct (excluded_by excluded c).
  - intros H; inversion H; subst; discriminate.
  - destruct (scan_set w excluded input) as [t r]. intros H _. inversion H.
    now exists c, t, input.
Qed.

Lemma trim_head (c : ascii) (s : string) :
  isspace c = false -> trim (String c s) = String c (rtrim s).
Proof.
  intros Hc. unfold trim. cbn [ltrim]. rewrite Hc. cbn [rtrim]. now rewrite Hc.
Qed.

(** The name a [let] statement binds is not empty once trimmed. *)
Lemma sscanf_let_expr_name (line a : string) (tl : list conv) :
  sscanf fmt_let_expr line = CStr a :: tl ->
  is_empty (strncpy 128 (trim a)) = false.
Proof.
  unfold fmt_let_expr. cbn [sscanf].
  destruct line as [|x1 [|x2 [|x3 r]]]; try discriminate;
    try (destruct (Ascii.eqb x1 "l"); discriminate);
    try (destruct (Ascii.eqb x1 "l"); [destruct (Ascii.eqb x2 "e")|]; discriminate).
  destruct (Ascii.eqb x1 "l"); [|discriminate].
  destruct (Ascii.eqb x2 "e"); [|discriminate].
  destruct (Ascii.eqb x3 "t"); [|discriminate].
  destruct (scan_set 127 [":"%char] (ltrim r)) as [tok rest] eqn:Hscan.
  destruct (is_empty tok) eqn:He; [discriminate|].
  intros H. injection H as Ha _. subst a.
  destruct (scan_set_head _ _ _ _ _ Hscan He) as (c & tok' & input' & Ht & Hin).
  apply ltrim_head in Hin. now rewrite Ht, (trim_head _ _ Hin).
Qed.

Lemma find_binding_in (bs : list int_binding) (nm : string) (b : int_binding) :
  find_binding bs nm = Some b -> In b bs.
Proof.
  induction bs as [|x bs IH]; [discriminate|].
  cbn [find_binding]. destruct (String.eqb (ib_name x) nm).
  - intros H. inversion H. now left.
  - intros H. right. now apply IH.
Qed.

(** A line that the loop body accepts leaves the bindings as they were or
    adds one whose value went through the store into an [int]. *)
Lemma pi_line_bindings (l : string) (st st' : pi_scan) :
  pi_line l st = Continue st' ->
  Forall pi_binding_ok (ps_bindings st) ->
  Forall pi_binding_ok (ps_bindings st').
Proof.
  unfold pi_line, first_block, pi_let, pi_exit, pi_return, pi_mul, pi_div, pi_literal.
  intros H Hok.
  destruct (has_prefix "let " l).
  - destruct (sscanf fmt_let_expr l) as [|[a|v] [|[b|w] [|x xs]]] eqn:Hs;
      break_hyp H; inversion H; subst; cbn [ps_bindings]; try assumption.
    apply Forall_app. split; [assumption|].
    constructor; [|constructor].
    split; cbn [ib_value ib_name].
    + apply to_int_range.
    + apply (sscanf_let_expr_name _ _ _ Hs).
  - break_hyp H; inversion H; subst; cbn [ps_bindings]; assumption.
Qed.

Lemma pi_scan_lines_bindings (lines : list string) :
  forall st st',
    pi_scan_lines lines st = inr st' ->
    Forall pi_binding_ok (ps_bindings st) ->
    Forall pi_binding_ok (ps_bindings st').
Proof.
  induction lines as [|l lines IH]; intros st st' H Hok.
  - inversion H. now subst.
  - cbn [pi_scan_lines] in H.
    destruct (pi_line l st) as [|d|st1] eqn:Hl; [now apply (IH st) | discriminate |].
    apply (IH st1); [assumption|]. now apply (pi_line_bindings l st).
Qed.

(** The IR of a recognized Pi-Approximation program: its three values come
    from collected bindings. *)
Lemma parse_pi_program_values (lines : list string) (ir0 ir : program_ir) :
  parse_pi_program lines ir0 = inr ir ->
  kind ir = PROGRAM_PI_TEST
  /\ int32_range (numerator_value (pi ir))
  /\ int32_range (denominator_value (pi ir))
  /\ int32_range (scale_value (pi ir))
  /\ is_empty (numerator_var (pi ir)) = false
  /\ is_empty (denominator_var (pi ir)) = false
  /\ is_empty (scale_var (pi ir)) = false.
Proof.
  unfold parse_pi_program.
  destruct (pi_scan_lines lines (pi_scan_start ir0)) as [d|st] eqn:Hscan; [discriminate|].
  assert (Hok : Forall pi_binding_ok (ps_bindings st)).
  { apply (pi_scan_lines_bindings lines _ _ Hscan). constructor. }
  rewrite Forall_forall in Hok.
  unfold pi_finish. intros H. break_hyp H. inversion H. subst. clear H.
  cbn [kind set_kind pi set_pi set_pi_operands numerator_value denominator_value
       scale_value numerator_var denominator_var scale_var].
  repeat match goal with
         | Hf : find_binding _ _ = Some _ |- _ =>
             apply find_binding_in, Hok in Hf; destruct Hf
         end.
  assert (Hname : forall s, is_empty s = false -> is_empty (strncpy 128 s) = false)
    by (intros [|c s] Hs; [discriminate | reflexivity]).
  unfold int32_range in *. repeat split; auto; lia.
Qed.



(** *** Failing Pi-Approximation programs *)

Lemma pi_scan_lines_app (pre post : list string) :
  forall st,
    pi_scan_lines (pre ++ post) st
    = match pi_scan_lines pre st with
      | inl d => inl d
      | inr st' => pi_scan_lines post st'
      end.
Proof.
  induction pre as [|l pre IH]; intros st; [reflexivity|].
  cbn [app pi_scan_lines].
  destruct (pi_line l st); [apply IH | reflexivity | apply IH].
Qed.

(** On a multiplication statement the loop body is the multiplication
    block. *)
Lemma pi_line_multiplication (l : string) (st : pi_scan) :
  multiplication_statement l ->
  (ps_have_mul st = true -> pi_line l st = Return1 MultipleMultiplication)
  /\ (forall st', pi_line l st = Continue st' -> ps_have_mul st' = true).
Proof.
  intros (Hp & nm & expr & Hs & Hc).
  unfold pi_line, pi_let. rewrite Hp, Hs. cbv zeta. rewrite Hc.
  unfold pi_mul. split.
  - intros ->. reflexivity.
  - intros st'. destruct (ps_have_mul st); [discriminate|].
    destruct (sscanf fmt_mul (trim expr)) as [|[a|v] [|[b|w] [|x xs]]];
      cbn [first_block]; try discriminate.
    intros H. inversion H. reflexivity.
Qed.

Lemma pi_line_keeps_have_mul (l : string) (st st' : pi_scan) :
  pi_line l st = Continue st' ->
  ps_have_mul st = true -> ps_have_mul st' = true.
Proof.
  unfold pi_line, first_block, pi_let, pi_exit, pi_return, pi_mul, pi_div, pi_literal.
  intros H Hm. rewrite Hm in H.
  break_hyp H; inversion H; subst; cbn [ps_have_mul]; try assumption; reflexivity.
Qed.

Lemma pi_scan_lines_have_mul (lines : list string) :
  forall st st',
    pi_scan_lines lines st = inr st' ->
    ps_have_mul st = true \/ Exists multiplication_statement lines ->
    ps_have_mul st' = true.
Proof.
  induction lines as [|l lines IH]; intros st st' H Hm.
  - inversion H. subst. destruct Hm as [Hm|Hm]; [assumption | inversion Hm].
  - cbn [pi_scan_lines] in H.
    destruct (pi_line l st) as [|d|st1] eqn:Hl; [|discriminate|].
    + apply (IH st st' H).
      destruct Hm as [Hm|Hm]; [now left|].
      inversion Hm as [? ? Hmul | ? ? Hrest]; subst; [|now right].
      destruct (pi_line_multiplication l st Hmul) as [Hret Hcont].
      unfold pi_line, pi_let in Hl.
      destruct Hmul as (Hp & nm & expr & Hs & Hc).
      rewrite Hp, Hs in Hl. cbv zeta in Hl. rewrite Hc in Hl.
      unfold pi_mul in Hl.
      destruct (ps_have_mul st); [discriminate|].
      destruct (sscanf fmt_mul (trim expr)) as [|[a|v] [|[b|w] [|x xs]]];
        discriminate.
    + apply (IH st1 st' H).
      destruct Hm as [Hm|Hm]; [left; now apply (pi_line_keeps_have_mul l st)|].
      inversion Hm as [? ? Hmul | ? ? Hrest]; subst.
      * left. now apply (pi_line_multiplication l st Hmul).
      * now right.
Qed.

Lemma second_multiplication_rejected (pre : list string) (l : string)
    (post : list string) (ir0 : program_ir) (st : pi_scan) :
  Exists multiplication_statement pre ->
  multiplication_statement l ->
  pi_scan_lines pre (pi_scan_start ir0) = inr st ->
  parse_pi_program (pre ++ l :: post) ir0 = inl MultipleMultiplication.
Proof.
  intros Hpre Hl Hscan. unfold parse_pi_program.
  rewrite pi_scan_lines_app, Hscan. cbn [pi_scan_lines].
  assert (Hm : ps_have_mul st = true)
    by (apply (pi_scan_lines_have_mul pre _ _ Hscan); now right).
  now rewrite (proj1 (pi_line_multiplication l st Hl) Hm).
Qed.

Lemma zero_denominator_rejected (lines : list string) (ir0 ir : program_ir) :
  parse_pi_program lines ir0 = inr ir ->
  denominator_value (pi ir) = 0 ->
  validate_program ir = (Some PiDenominatorZero, ir).
Proof.
  intros Hp Hz.
  destruct (parse_pi_program_values _ _ _ Hp) as (Hk & _ & _ & _ & Hn & Hd & Hs).
  unfold validate_program. rewrite Hk, Hn, Hd, Hs, Hz. reflexivity.
Qed.

(** C7: when the Pi-Approximation recognizer is the one selected and it
    fails, or the validator rejects the IR it built, [aurc_compile_file]
    returns 1 with that diagnostic and leaves the output file as it was:
    the writer is not reached.  So it is with the zero-denominator
    diagnostic when the denominator binding holds 0, and with the
    multiple-multiplication diagnostic at a second multiplication statement
    that the scan reaches. *)
Theorem C7_pi_failure_emits_nothing (input : string) (opened : bool)
    (output : file) (lines : list string) :
  load_lines (fgets_all 2048 input) [] = inr lines ->
  ~ Exists loop_marker lines ->
  Exists operator_marker lines ->
  (forall d, parse_pi_program lines fresh_ir = inl d ->
             aurc_compile_file input opened output = (Some d, output))
  /\ (forall ir d, parse_pi_program lines fresh_ir = inr ir ->
                   fst (validate_program ir) = Some d ->
                   aurc_compile_file input opened output = (Some d, output))
  /\ (forall ir, parse_pi_program lines fresh_ir = inr ir ->
                 denominator_value (pi ir) = 0 ->
                 aurc_compile_file input opened output = (Some PiDenominatorZero, output))
  /\ (forall pre l post st,
        lines = pre ++ l :: post ->
        Exists multiplication_statement pre ->
        multiplication_statement l ->
        pi_scan_lines pre (pi_scan_start fresh_ir) = inr st ->
        aurc_compile_file input opened output = (Some MultipleMultiplication, output)).
Proof.
  intros Hlines Hloop Hop.
  assert (Hsrc : parse_source input fresh_ir = parse_pi_program lines fresh_ir).
  { unfold parse_source, parse_lines. rewrite Hlines.
    rewrite (flag_false _ _ (has_loop_spec lines) Hloop).
    apply has_arithmetic_chain_spec in Hop. now rewrite Hop. }
  assert (Hfail : forall d, parse_pi_program lines fresh_ir = inl d ->
                            aurc_compile_file input opened output = (Some d, output)).
  { intros d Hp. apply compile_load_failure.
    unfold load_program_ir. now rewrite Hsrc, Hp. }
  assert (Hval : forall ir d, parse_pi_program lines fresh_ir = inr ir ->
                              fst (validate_program ir) = Some d ->
                              aurc_compile_file input opened output = (Some d, output)).
  { intros ir d Hp Hv. apply compile_load_failure.
    unfold load_program_ir. rewrite Hsrc, Hp.
    destruct (validate_program ir) as [[d'|] ir']; cbn [fst] in Hv; congruence. }
  repeat split; trivial.
  - intros ir Hp Hz. apply (Hval ir); [assumption|].
    now rewrite (zero_denominator_rejected _ _ _ Hp Hz).
  - intros pre l post st -> Hpre Hl Hscan. apply Hfail.
    now apply (second_multiplication_rejected pre l post fresh_ir st).
Qed.

Lemma C7_witness :
  aurc_compile_file (Samples.source (Samples.pi_approx "355" "0" "10000")) true
    (Some "previous manifest")
  = (Some PiDenominatorZero, Some "previous manifest").
Proof.
  destruct (C7_pi_failure_emits_nothing
              (Samples.source (Samples.pi_approx "355" "0" "10000")) true
              (Some "previous manifest")
              (Samples.pi_approx "355" "0" "10000"))
    as (_ & _ & Hden & _).
  - vm_compute. reflexivity.
  - intros H. apply has_loop_spec in H. discriminate H.
  - apply has_arithmetic_chain_spec. reflexivity.
  - apply (Hden (Samples.recognized (Samples.pi_approx "355" "0" "10000")));
      vm_compute; reflexivity.
Defined.

(** The specification's sample programs, compiled and run. *)
Example greeting_compiles :
  fst (aurc_compile_file (Samples.source (Samples.greeting "0")) true None) = None.
Proof. vm_compute. reflexivity. Qed.

Example greeting_exit_code_3 :
  aurc_compile_file (Samples.source (Samples.greeting "3")) true None
  = (Some OnlyExitCodeZero, None).
Proof. vm_compute. reflexivity. Qed.

Example loop_sum_of_5 :
  execute 28 (snd (emit_manifest_items (Samples.recognized (Samples.loop_sum "0" "5"))))
  = Some (Exited 15).
Proof. reflexivity. Qed.

Example loop_sum_of_0 :
  execute 1000 (snd (emit_manifest_items (Samples.recognized (Samples.loop_sum "7" "0"))))
  = None.
Proof. vm_compute. reflexivity. Qed.

Example pi_literal_out_of_range :
  numerator_value
    (pi (Samples.recognized (Samples.pi_approx "4294967297" "113" "10000"))) = 1.
Proof. reflexivity. Qed.

(** A program with a second multiplication statement: the recognizer
    stops at it. *)
Example second_multiplication_sample :
  aurc_compile_file
    (Samples.source
       ["let num: int = 355;"; "let scale: int = 10000;"; "let den: int = 113;";
        "let t: int = num * scale;"; "let u: int = num * scale;";
        "let r: int = t / den;"; "request service exit(r);"; "return r;"])
    true None
  = (Some MultipleMultiplication, None).
Proof. vm_compute. reflexivity. Qed.

End PiRecognizer.

(** ** Trimming and the line loader *)

Section LineLoader.

Import Lines.

Lemma rtrim_cons_nonspace (c : ascii) (s : string) :
  isspace c = false -> rtrim (String c s) = String c (rtrim s).
Proof. intros Hc. cbn [rtrim]. now rewrite Hc. Qed.

Lemma rtrim_cons_nonempty (c : ascii) (s : string) :
  is_empty (rtrim s) = false -> rtrim (String c s) = String c (rtrim s).
Proof. intros He. cbn [rtrim]. rewrite He. now rewrite andb_false_r. Qed.

Lemma rtrim_head (s : string) (c : ascii) (t : string) :
  rtrim s = String c t -> exists t', s = String c t'.
Proof.
  destruct s as [|d s]; [discriminate|].
  cbn [rtrim]. destruct (isspace d && is_empty (rtrim s)); [discriminate|].
  intros H. inversion H. now exists s.
Qed.

Lemma rtrim_idempotent (s : string) : rtrim (rtrim s) = rtrim s.
Proof.
  induction s as [|d s IH]; [reflexivity|].
  cbn [rtrim]. destruct (isspace d && is_empty (rtrim s)) eqn:Hc; [reflexivity|].
  cbn [rtrim]. now rewrite IH, Hc.
Qed.

Lemma rtrim_last (s t : string) (c : ascii) :
  rtrim s = (t ++ String c EmptyString)%string -> isspace c = false.
Proof.
  revert t; induction s as [|d s IH]; intros t.
  - destruct t; discriminate.
  - cbn [rtrim]. destruct (isspace d && is_empty (rtrim s)) eqn:Hc.
    + destruct t; discriminate.
    + destruct t as [|x t]; cbn [String.append]; intros H; inversion H; subst.
      * match goal with Hr : rtrim s = EmptyString |- _ => rewrite Hr in Hc end.
        cbn in Hc. now rewrite andb_true_r in Hc.
      * eapply IH. eassumption.
Qed.

Lemma ltrim_length (s : string) : (String.length (ltrim s) <= String.length s)%nat.
Proof.
  induction s as [|c s IH]; [reflexivity|].
  cbn [ltrim]. destruct (isspace c); cbn [String.length]; lia.
Qed.

Lemma rtrim_length (s : string) : (String.length (rtrim s) <= String.length s)%nat.
Proof.
  induction s as [|c s IH]; [reflexivity|].
  cbn [rtrim]. destruct (isspace c && is_empty (rtrim s)); cbn [String.length]; lia.
Qed.

Lemma trim_length (s : string) : (String.length (trim s) <= String.length s)%nat.
Proof.
  unfold trim. pose proof (rtrim_length (ltrim s)). pose proof (ltrim_length s). lia.
Qed.

Lemma trim_idempotent (s : string) : trim (trim s) = trim s.
Proof.
  unfold trim. destruct (rtrim (ltrim s)) as [|c t] eqn:Hr; [reflexivity|].
  destruct (rtrim_head _ _ _ Hr) as [t' Hl].
  pose proof (ltrim_head _ _ _ Hl) as Hc.
  cbn [ltrim]. rewrite Hc, <- Hr. apply rtrim_idempotent.
Qed.

(** X1: [trim] returns a string without white space at either end, is
    idempotent and never lengthens its argument. *)
Theorem trim_strips_both_ends (s : string) :
  (forall c t, trim s = String c t -> isspace c = false)
  /\ (forall t c, trim s = (t ++ String c EmptyString)%string -> isspace c = false)
  /\ trim (trim s) = trim s
  /\ (String.length (trim s) <= String.length s)%nat.
Proof.
  split; [|split; [|split]].
  - intros c t H. unfold trim in H.
    destruct (rtrim_head _ _ _ H) as [t' Hl]. now apply (ltrim_head _ _ _ Hl).
  - intros t c H. now apply (rtrim_last (ltrim s) t c).
  - apply trim_idempotent.
  - apply trim_length.
Qed.

Lemma take_all (n : nat) (s : string) :
  (String.length s <= n)%nat -> take n s = s.
Proof.
  revert s; induction n as [|n IH]; intros [|c s] H; cbn in *; trivial; [lia|].
  f_equal. apply IH. lia.
Qed.

Lemma line_sequence_cons (chunk : string) (chunks : list string) :
  line_sequence (chunk :: chunks)
  = if is_empty (trim chunk) then line_sequence chunks
    else strncpy 2048 (trim chunk) :: line_sequence chunks.
Proof.
  unfold line_sequence. cbn [filter]. unfold non_blank at 1.
  now destruct (is_empty (trim chunk)).
Qed.

Lemma load_lines_closed_form (chunks : list string) :
  forall lines,
    (List.length lines <= 256)%nat ->
    load_lines chunks lines
    = if (List.length lines + List.length (line_sequence chunks) <=? 256)%nat
      then inr (lines ++ line_sequence chunks)
      else inl InputTooLarge.
Proof.
  induction chunks as [|chunk chunks IH]; intros lines Hlen.
  - cbn. rewrite Nat.add_0_r, app_nil_r.
    now destruct (Nat.leb_spec (List.length lines) 256); [|lia].
  - cbn [load_lines]. rewrite line_sequence_cons.
    destruct (is_empty (trim chunk)); [now apply IH|].
    cbn [List.length].
    destruct (Z.leb_spec 256 (Z.of_nat (List.length lines))) as [Hfull|Hroom].
    + now destruct (Nat.leb_spec
                      (List.length lines + S (List.length (line_sequence chunks))) 256);
        [lia|].
    + rewrite IH by (rewrite length_app; cbn; lia).
      rewrite length_app. cbn [List.length].
      rewrite <- app_assoc. cbn [app].
      now replace (List.length lines + 1 + List.length (line_sequence chunks))%nat
        with (List.length lines + S (List.length (line_sequence chunks)))%nat by lia.
Qed.

(** X2: the line loader returns the trimmed non-blank chunks in order, and
    fails, with the input-too-large diagnostic, exactly when there are
    more than 256 of them. *)
Theorem load_lines_line_sequence (chunks : list string) :
  load_lines chunks []
  = if (List.length (line_sequence chunks) <=? 256)%nat
    then inr (line_sequence chunks)
    else inl InputTooLarge.
Proof.
  rewrite load_lines_closed_form by (cbn; lia).
  cbn [List.length Nat.add app]. reflexivity.
Qed.

Lemma rtrim_app_space (s : string) (c : ascii) :
  isspace c = true -> rtrim (s ++ String c EmptyString)%string = rtrim s.
Proof.
  intros Hc. induction s as [|d s IH].
  - cbn. now rewrite Hc.
  - cbn [String.append rtrim]. now rewrite IH.
Qed.

Lemma trim_app_space (s : string) (c : ascii) :
  isspace c = true -> trim (s ++ String c EmptyString)%string = trim s.
Proof.
  intros Hc. unfold trim. induction s as [|d s IH].
  - cbn. now rewrite Hc.
  - cbn [String.append ltrim]. destruct (isspace d); [exact IH|].
    cbn [rtrim]. now rewrite (rtrim_app_space s c Hc).
Qed.

Lemma strchr_ltrim_none (s : string) (c : ascii) :
  strchr s c = None -> strchr (ltrim s) c = None.
Proof.
  induction s as [|d s IH]; [reflexivity|].
  intros H. cbn [ltrim]. destruct (isspace d); [|exact H].
  apply IH. now apply strchr_none_cons in H.
Qed.

Lemma strchr_rtrim_none (s : string) (c : ascii) :
  strchr s c = None -> strchr (rtrim s) c = None.
Proof.
  induction s as [|d s IH]; [reflexivity|].
  intros H. apply strchr_none_cons in H. destruct H as [Hd Hs].
  cbn [rtrim]. destruct (isspace d && is_empty (rtrim s)); [reflexivity|].
  cbn [strchr]. now rewrite Hd, (IH Hs).
Qed.

(** What [fgets] returns: at most [n] characters, a newline nowhere but at
    the end. *)
Lemma fgets_chunk (n : nat) (stream : string) :
  (String.length (fst (fgets n stream)) <= n)%nat
  /\ exists body,
       strchr body newline = None
       /\ (fst (fgets n stream) = body
           \/ fst (fgets n stream) = (body ++ String newline EmptyString)%string).
Proof.
  revert stream; induction n as [|n IH]; intros stream.
  - cbn. split; [lia|]. exists EmptyString. auto.
  - destruct stream as [|c rest].
    + cbn. split; [lia|]. exists EmptyString. auto.
    + cbn [fgets]. destruct (Ascii.eqb c newline) eqn:Hc.
      * cbn. split; [lia|]. exists EmptyString. split; [reflexivity|].
        right. apply Ascii.eqb_eq in Hc. now subst.
      * destruct (IH rest) as [Hlen (body & Hb & Hcase)].
        destruct (fgets n rest) as [a b]. cbn [fst String.length] in *.
        split; [lia|]. exists (String c body). split.
        -- cbn [strchr]. now rewrite Hc, Hb.
        -- destruct Hcase as [-> | ->]; [now left | now right].
Qed.

Lemma fgets_loop_chunks (fuel n : nat) :
  forall stream chunk,
    In chunk (fgets_loop fuel n stream) ->
    exists rest, chunk = fst (fgets n rest).
Proof.
  induction fuel as [|fuel IH]; intros stream chunk Hin; [contradiction|].
  cbn [fgets_loop] in Hin. destruct (is_empty stream); [contradiction|].
  destruct (fgets n stream) as [a b] eqn:Hf. destruct Hin as [<- | Hin].
  - exists stream. now rewrite Hf.
  - now apply (IH b).
Qed.

Lemma isspace_newline : isspace newline = true.
Proof. reflexivity. Qed.

(** X3: the line sequence [parse_source] hands to the classifier has at
    most 256 lines; each is non-empty, trimmed, of at most 2047 characters
    and free of newlines. *)
Theorem parse_source_line_sequence (input : string) (lines : list string) :
  load_lines (fgets_all 2048 input) [] = inr lines ->
  (List.length lines <= 256)%nat
  /\ Forall (fun l => l <> EmptyString /\ trim l = l
                      /\ (String.length l <= 2047)%nat
                      /\ strchr l newline = None) lines.
Proof.
  rewrite load_lines_closed_form by (cbn; lia). cbn [List.length Nat.add app].
  destruct (Nat.leb_spec (List.length (line_sequence (fgets_all 2048 input))) 256)
    as [Hlen|]; [|discriminate].
  intros H. inversion H. subst lines. split; [assumption|].
  unfold line_sequence. rewrite Forall_map, Forall_forall.
  intros chunk Hin. apply filter_In in Hin. destruct Hin as [Hin Hnb].
  unfold fgets_all in Hin. apply fgets_loop_chunks in Hin. destruct Hin as [rest ->].
  destruct (fgets_chunk (2048 - 1) rest) as [Hlen' (body & Hb & Hcase)].
  change (2048 - 1)%nat with 2047%nat in *.
  pose proof (trim_length (fst (fgets 2047 rest))) as Ht.
  unfold strncpy. change (2048 - 1)%nat with 2047%nat.
  rewrite take_all by lia.
  unfold non_blank in Hnb.
  repeat split.
  - intros He. rewrite He in Hnb. discriminate.
  - apply trim_idempotent.
  - lia.
  - destruct Hcase as [-> | ->].
    + now apply strchr_rtrim_none, strchr_ltrim_none.
    + rewrite (trim_app_space _ _ isspace_newline).
      now apply strchr_rtrim_none, strchr_ltrim_none.
Qed.

Lemma parse_source_line_sequence_witness :
  (List.length (Samples.loop_sum "0" "5") <= 256)%nat
  /\ Forall (fun l => l <> EmptyString /\ trim l = l
                      /\ (String.length l <= 2047)%nat
                      /\ strchr l newline = None) (Samples.loop_sum "0" "5").
Proof.
  apply (parse_source_line_sequence (Samples.source (Samples.loop_sum "0" "5"))).
  reflexivity.
Defined.

End LineLoader.

(** ** Instruction words through the writer and the assembler *)

Section WordRoundTrip.

Import Layout.

Lemma nibble_cases (v : Z) :
  0 <= v < 16 ->
  v = 0 \/ v = 1 \/ v = 2 \/ v = 3 \/ v = 4 \/ v = 5 \/ v = 6 \/ v = 7 \/ v = 8
  \/ v = 9 \/ v = 10 \/ v = 11 \/ v = 12 \/ v = 13 \/ v = 14 \/ v = 15.
Proof. lia. Qed.

(** The digits [%016llX] prints: each is read back by the assembler with
    its value, and is none of the characters that end or pad a payload. *)
Lemma hex_digit_read_back (v : Z) :
  0 <= v < 16 ->
  nibble (hex_digit v) = Some v
  /\ isspace (hex_digit v) = false
  /\ stops (hex_digit v) = false
  /\ Ascii.eqb (hex_digit v) "_" = false.
Proof.
  intros Hv.
  destruct (nibble_cases v Hv)
    as [->|[->|[->|[->|[->|[->|[->|[->|[->|[->|[->|[->|[->|[->|[->| ->]]]]]]]]]]]]]]];
    repeat split.
Qed.

Lemma land_15_range (x : Z) : 0 <= Z.land x 15 < 16.
Proof.
  change 15 with (Z.ones 4). rewrite Z.land_ones by lia.
  apply Z.mod_pos_bound. lia.
Qed.

Lemma byte_of_two_nibbles (w k : Z) :
  0 <= k ->
  16 * Z.land (Z.shiftr w (k + 4)) 15 + Z.land (Z.shiftr w k) 15
  = Z.land (Z.shiftr w k) 0xFF.
Proof.
  intros Hk.
  replace (k + 4) with (k + 4) by reflexivity.
  rewrite <- (Z.shiftr_shiftr w k 4) by lia.
  set (x := Z.shiftr w k).
  change 15 with (Z.ones 4). change 0xFF with (Z.ones 8).
  rewrite !Z.land_ones by lia.
  rewrite Z.shiftr_div_pow2 by lia.
  change (2 ^ 8) with (2 ^ 4 * 2 ^ 4).
  rewrite Z.rem_mul_r by lia. lia.
Qed.

Lemma payload_hex_digits (n : nat) (w : Z) (c : ascii) (rest : string) :
  stops c = true ->
  payload (hex_digits n w ++ String c rest)%string
  = list_ascii_of_string (hex_digits n w).
Proof.
  intros Hc. induction n as [|n IH].
  - cbn. now rewrite Hc.
  - cbn [hex_digits String.append payload list_ascii_of_string].
    destruct (hex_digit_read_back _ (land_15_range (Z.shiftr w (4 * Z.of_nat n))))
      as (_ & _ & Hs & Hu).
    now rewrite Hs, Hu, IH.
Qed.

Lemma hex_digits_all_hex (n : nat) (w : Z) :
  forallb is_hex_digit (list_ascii_of_string (hex_digits n w)) = true
  /\ List.length (list_ascii_of_string (hex_digits n w)) = n.
Proof.
  induction n as [|n [IH1 IH2]]; [now split|].
  cbn [hex_digits list_ascii_of_string forallb List.length].
  destruct (hex_digit_read_back _ (land_15_range (Z.shiftr w (4 * Z.of_nat n))))
    as (Hn & _).
  unfold is_hex_digit at 1. rewrite Hn, IH1, IH2. now split.
Qed.

Lemma pair_bytes_hex_digits (n : nat) (w : Z) :
  pair_bytes (list_ascii_of_string (hex_digits (2 * n) w)) = be_bytes n w.
Proof.
  induction n as [|n IH]; [reflexivity|].
  replace (2 * S n)%nat with (S (S (2 * n))) by lia.
  cbn [hex_digits list_ascii_of_string pair_bytes be_bytes].
  rewrite IH. f_equal.
  destruct (hex_digit_read_back _ (land_15_range (Z.shiftr w (4 * Z.of_nat (S (2 * n))))))
    as (Hh & _).
  destruct (hex_digit_read_back _ (land_15_range (Z.shiftr w (4 * Z.of_nat (2 * n)))))
    as (Hl & _).
  unfold nibble_value. rewrite Hh, Hl.
  replace (4 * Z.of_nat (S (2 * n))) with (8 * Z.of_nat n + 4) by lia.
  replace (4 * Z.of_nat (2 * n)) with (8 * Z.of_nat n) by lia.
  apply byte_of_two_nibbles. lia.
Qed.

Lemma rtrim_hex_digits (n : nat) (w : Z) (rest : string) :
  rtrim (hex_digits n w ++ rest)%string = (hex_digits n w ++ rtrim rest)%string.
Proof.
  induction n as [|n IH]; [reflexivity|].
  cbn [hex_digits String.append].
  destruct (hex_digit_read_back _ (land_15_range (Z.shiftr w (4 * Z.of_nat n))))
    as (_ & Hs & _).
  now rewrite (rtrim_cons_nonspace _ _ Hs), IH.
Qed.

(** The line [emit_instruction_word] prints, once trimmed by the
    assembler. *)
Lemma trim_instruction_line (w : Z) (comment : string) :
  exists tail,
    trim (emit_instruction_word w comment)
    = ("bytes 0x" ++ hex16 w ++ String " " (String " " (String ";" tail)))%string.
Proof.
  unfold emit_instruction_word, trim.
  exists (rtrim (String " " (comment ++ nl))).
  change (ltrim ("bytes 0x" ++ hex16 w ++ "  ; " ++ comment ++ nl)%string)
    with ("bytes 0x" ++ hex16 w ++ "  ; " ++ comment ++ nl)%string.
  change ("bytes 0x" ++ hex16 w ++ "  ; " ++ comment ++ nl)%string
    with (String "b" (String "y" (String "t" (String "e" (String "s" (String " "
           (String "0" (String "x"
              (hex16 w ++ String " " (String " " (String ";"
                 (String " " (comment ++ nl)))))))))))))%string.
  assert (Htail : rtrim (hex16 w ++ String " " (String " " (String ";"
                           (String " " (comment ++ nl)))))%string
                  = (hex16 w ++ String " " (String " " (String ";"
                       (rtrim (String " " (comment ++ nl))))))%string).
  { unfold hex16. rewrite rtrim_hex_digits. reflexivity. }
  assert (Hne : is_empty (rtrim (hex16 w ++ String " " (String " " (String ";"
                           (String " " (comment ++ nl)))))%string) = false).
  { rewrite Htail. unfold hex16. cbn [hex_digits String.append is_empty]. reflexivity. }
  rewrite (rtrim_cons_nonspace "b"), (rtrim_cons_nonspace "y"),
    (rtrim_cons_nonspace "t"), (rtrim_cons_nonspace "e"),
    (rtrim_cons_nonspace "s") by reflexivity.
  rewrite (rtrim_cons_nonempty " ")
    by (rewrite (rtrim_cons_nonspace "0") by reflexivity; reflexivity).
  rewrite (rtrim_cons_nonspace "0"), (rtrim_cons_nonspace "x") by reflexivity.
  now rewrite Htail.
Qed.

Lemma assemble_instruction_line (out : image) (w : Z) (comment : string) :
  assemble_line out (emit_instruction_word w comment) = (None, out ++ be_bytes 8 w).
Proof.
  destruct (trim_instruction_line w comment) as [tail Htrim].
  assert (Hb : begins_with "bytes" (trim (emit_instruction_word w comment))).
  { rewrite Htrim. eexists. reflexivity. }
  rewrite (assemble_line_bytes _ _ Hb), Htrim.
  change (strstr ("bytes 0x" ++ hex16 w ++ String " " (String " " (String ";" tail)))
            "0x")
    with (Some ("0x" ++ hex16 w ++ String " " (String " " (String ";" tail)))%string).
  cbv iota beta.
  change (drop 2 ("0x" ++ hex16 w ++ String " " (String " " (String ";" tail))))
    with (hex16 w ++ String " " (String " " (String ";" tail)))%string.
  assert (Hp : payload (hex16 w ++ String " " (String " " (String ";" tail)))%string
               = list_ascii_of_string (hex16 w))
    by now apply payload_hex_digits.
  rewrite emit_hex_bytes_well_formed.
  - rewrite Hp. unfold hex16. change 16%nat with (2 * 8)%nat.
    now rewrite (pair_bytes_hex_digits 8 w).
  - rewrite Hp. unfold well_formed_payload, hex16.
    destruct (hex_digits_all_hex 16 w) as [-> ->]. reflexivity.
Qed.

Lemma be_value_from (bs : list Z) :
  forall acc,
    fold_left (fun a b => a * 256 + b) bs acc
    = acc * 256 ^ Z.of_nat (List.length bs) + be_value bs.
Proof.
  unfold be_value. induction bs as [|b bs IH]; intros acc.
  - cbn. lia.
  - cbn [fold_left List.length]. rewrite IH, (IH (0 * 256 + b)).
    rewrite Nat2Z.inj_succ, Z.pow_succ_r by lia. lia.
Qed.

Lemma be_bytes_length (n : nat) (w : Z) : List.length (be_bytes n w) = n.
Proof. induction n as [|n IH]; cbn; [reflexivity | now rewrite IH]. Qed.

Lemma be_value_be_bytes (n : nat) (w : Z) :
  be_value (be_bytes n w) = w mod 2 ^ (8 * Z.of_nat n).
Proof.
  induction n as [|n IH].
  - cbn. now rewrite Z.mod_1_r.
  - cbn [be_bytes]. unfold be_value. cbn [fold_left].
    rewrite be_value_from, IH, be_bytes_length.
    change 0xFF with (Z.ones 8). rewrite Z.land_ones by lia.
    rewrite Z.shiftr_div_pow2 by lia.
    replace (8 * Z.of_nat (S n)) with (8 * Z.of_nat n + 8) by lia.
    rewrite Z.pow_add_r by lia.
    rewrite Z.rem_mul_r by lia.
    replace (256 ^ Z.of_nat n) with (2 ^ (8 * Z.of_nat n))
      by (rewrite Z.pow_mul_r by lia; reflexivity).
    lia.
Qed.

(** X4: an instruction word printed by [emit_instruction_word], with any
    comment, is assembled into eight bytes, most significant first, from
    which the word is recovered. *)
Theorem instruction_word_round_trip (out : image) (w : Z) (comment : string) :
  0 <= w < 2 ^ 64 ->
  exists bytes,
    assemble_line out (emit_instruction_word w comment) = (None, out ++ bytes)
    /\ bytes = be_bytes 8 w
    /\ List.length bytes = 8%nat
    /\ be_value bytes = w.
Proof.
  intros Hw. exists (be_bytes 8 w).
  split; [apply assemble_instruction_line|].
  split; [reflexivity|]. split; [apply be_bytes_length|].
  rewrite be_value_be_bytes. apply Z.mod_small. exact Hw.
Qed.

Lemma instruction_word_round_trip_witness :
  exists bytes,
    assemble_line [7] (emit_instruction_word 0x0102FF0000000005 "mov r2, #5")
    = (None, [7] ++ bytes)
    /\ bytes = be_bytes 8 0x0102FF0000000005
    /\ List.length bytes = 8%nat
    /\ be_value bytes = 0x0102FF0000000005.
Proof.
  apply (instruction_word_round_trip [7] 0x0102FF0000000005 "mov r2, #5").
  lia.
Defined.

End WordRoundTrip.

(** ** The packing of instruction words *)

Section Packing.



End Packing.

(** ** String literals through the writer and the assembler *)

Section AsciiRoundTrip.

Import Layout.

Lemma rtrim_app_nonspace (s : string) (c : ascii) :
  isspace c = false ->
  rtrim (s ++ String c EmptyString)%string = (s ++ String c EmptyString)%string.
Proof.
  intros Hc. induction s as [|d s IH].
  - cbn. now rewrite Hc.
  - cbn [String.append rtrim]. rewrite IH.
    destruct s; cbn; now rewrite andb_false_r.
Qed.

Lemma append_assoc (a b c : string) :
  ((a ++ b) ++ c)%string = (a ++ (b ++ c))%string.
Proof. induction a as [|x a IH]; cbn; [reflexivity | now rewrite IH]. Qed.

(** The line [write_escape_ascii] prints, once trimmed by the assembler. *)
Lemma trim_ascii_line (literal : string) :
  trim (write_escape_ascii literal)
  = ("ascii " ++ String dquote (escape_ascii literal ++ String dquote EmptyString))%string.
Proof.
  unfold write_escape_ascii, trim, nl.
  change (ltrim ("ascii " ++ String dquote (escape_ascii literal)
                 ++ String dquote (String newline EmptyString))%string)
    with ("ascii " ++ String dquote (escape_ascii literal)
          ++ String dquote (String newline EmptyString))%string.
  replace ("ascii " ++ String dquote (escape_ascii literal)
           ++ String dquote (String newline EmptyString))%string
    with ((("ascii " ++ String dquote (escape_ascii literal))
           ++ String dquote EmptyString) ++ String newline EmptyString)%string
    by (now rewrite !append_assoc).
  rewrite (rtrim_app_space _ _ isspace_newline).
  rewrite rtrim_app_nonspace by reflexivity.
  now rewrite append_assoc.
Qed.

(** The assembler reads the characters of an escaped literal back, a
    backslash-free literal giving its own characters. *)
Lemma emit_ascii_loop_escaped (literal rest : string) :
  strchr literal backslash = None ->
  forall out,
    emit_ascii_loop (escape_ascii literal ++ rest)%string out
    = emit_ascii_loop rest (out ++ literal_bytes literal).
Proof.
  induction literal as [|c literal IH]; intros Hb out.
  - cbn. now rewrite app_nil_r.
  - apply strchr_none_cons in Hb. destruct Hb as [Hc Hb].
    cbn [escape_ascii literal_bytes].
    destruct (Ascii.eqb c dquote) eqn:Hq.
    + apply Ascii.eqb_eq in Hq. subst c.
      cbn [String.append emit_ascii_loop].
      change (Ascii.eqb backslash dquote) with false.
      change (Ascii.eqb backslash backslash) with true.
      change (Ascii.eqb dquote backslash) with false.
      change (Ascii.eqb dquote dquote) with true.
      cbv iota. rewrite (IH Hb). now rewrite <- app_assoc.
    + cbn [String.append emit_ascii_loop]. rewrite Hq, Hc.
      rewrite (IH Hb). now rewrite <- app_assoc.
Qed.

Lemma assemble_ascii_line (out : image) (literal : string) :
  assemble_line out (write_escape_ascii literal)
  = emit_ascii_loop (escape_ascii literal ++ String dquote EmptyString)%string out.
Proof.
  assert (Hb : begins_with "ascii" (trim (write_escape_ascii literal))).
  { rewrite trim_ascii_line. eexists. reflexivity. }
  rewrite (assemble_line_ascii _ _ Hb), trim_ascii_line.
  reflexivity.
Qed.

(** X6: a string literal without backslash, written by
    [write_escape_ascii] (which escapes its quotes), is assembled into
    exactly its characters. *)
Theorem ascii_literal_round_trip (out : image) (literal : string) :
  strchr literal backslash = None ->
  assemble_line out (write_escape_ascii literal)
  = (None, out ++ literal_bytes literal).
Proof.
  intros Hb. rewrite assemble_ascii_line, (emit_ascii_loop_escaped _ _ Hb).
  reflexivity.
Qed.

Lemma ascii_literal_round_trip_witness :
  assemble_line [1] (write_escape_ascii "hi")
  = (None, [1] ++ literal_bytes "hi").
Proof.
  apply (ascii_literal_round_trip [1] "hi"). reflexivity.
Defined.

(** X7: [write_escape_ascii] leaves backslashes as they are, so a literal
    that ends with a backslash is written as a directive whose closing
    quote the assembler reads as an escaped quote: the assembly fails on
    the missing closing quote, after the characters have been written. *)
Theorem ascii_literal_trailing_backslash (out : image) (literal : string) :
  strchr literal backslash = None ->
  assemble_line out (write_escape_ascii (literal ++ String backslash EmptyString))
  = (Some AsciiMissingClosingQuote, out ++ literal_bytes literal ++ [code dquote]).
Proof.
  intros Hb. rewrite assemble_ascii_line.
  assert (He : escape_ascii (literal ++ String backslash EmptyString)
               = (escape_ascii literal ++ String backslash EmptyString)%string).
  { clear Hb. induction literal as [|c literal IH]; [reflexivity|].
    cbn [String.append escape_ascii]. rewrite IH.
    now destruct (Ascii.eqb c dquote). }
  rewrite He, append_assoc, (emit_ascii_loop_escaped _ _ Hb).
  cbn. now rewrite <- app_assoc.
Qed.

Lemma ascii_literal_trailing_backslash_witness :
  assemble_line [] (write_escape_ascii ("dir" ++ String backslash EmptyString))
  = (Some AsciiMissingClosingQuote, [] ++ literal_bytes "dir" ++ [code dquote]).
Proof.
  apply (ascii_literal_trailing_backslash [] "dir"). reflexivity.
Defined.

End AsciiRoundTrip.

(** ** The manifest as a text file *)

Section ManifestText.

Import Layout.

Lemma fgets_text_line (n : nat) (l rest : string) :
  text_line n l -> fgets n (l ++ rest)%string = (l, rest).
Proof.
  intros (body & -> & Hb & Hlen). revert n Hb Hlen.
  induction body as [|c body IH]; intros n Hb Hlen.
  - destruct n; [cbn in Hlen; lia | reflexivity].
  - destruct n; [cbn in Hlen; lia|].
    apply strchr_none_cons in Hb. destruct Hb as [Hc Hb].
    cbn [String.append fgets]. rewrite Hc.
    cbn [String.append String.length] in Hlen.
    rewrite (IH n Hb) by lia. reflexivity.
Qed.

Lemma text_line_not_empty (n : nat) (l : string) :
  text_line n l -> exists c l', l = String c l'.
Proof.
  intros (body & -> & _). destruct body; cbn; eauto.
Qed.

Lemma length_append (a b : string) :
  String.length (a ++ b)%string = (String.length a + String.length b)%nat.
Proof. induction a as [|c a IH]; cbn; [reflexivity | now rewrite IH]. Qed.

Lemma fgets_loop_join (n : nat) (ls : list string) :
  Forall (text_line n) ls ->
  forall fuel,
    (String.length (join ls) <= fuel)%nat ->
    fgets_loop fuel n (join ls) = ls.
Proof.
  induction 1 as [|l ls Hl _ IH]; intros fuel Hfuel.
  - destruct fuel; reflexivity.
  - cbn [join] in *. rewrite length_append in Hfuel.
    destruct (text_line_not_empty _ _ Hl) as (c & l' & El).
    destruct fuel as [|fuel]; [subst l; cbn in Hfuel; lia|].
    cbn [fgets_loop].
    replace (is_empty (l ++ join ls)%string) with false by (now subst l).
    rewrite (fgets_text_line _ _ _ Hl). f_equal. apply IH.
    subst l. cbn in Hfuel. lia.
Qed.

Lemma render_join (m : manifest) : render m = join (map render_item m).
Proof. induction m as [|i m IH]; cbn; [reflexivity | now rewrite IH]. Qed.

(** X8: the assembler reads a manifest line by line: when every line ends
    with its only newline and has at most 4095 characters, the result is
    that of the directives of the lines, in order, on an empty binary,
    whatever the binary file held. *)
Theorem manifest_read_line_by_line (ls : list string) (old : image) :
  Forall (text_line 4095) ls ->
  aurc_assemble_manifest (join ls) old = assemble_lines ls [].
Proof.
  intros Hls. unfold aurc_assemble_manifest, fgets_all.
  change (4096 - 1)%nat with 4095%nat.
  now rewrite (fgets_loop_join _ _ Hls).
Qed.

Lemma manifest_read_line_by_line_witness :
  aurc_assemble_manifest (join [("bytes 0x0102" ++ nl)%string; ("halt" ++ nl)%string]) [9]
  = assemble_lines [("bytes 0x0102" ++ nl)%string; ("halt" ++ nl)%string] [].
Proof.
  apply (manifest_read_line_by_line
           [("bytes 0x0102" ++ nl)%string; ("halt" ++ nl)%string] [9]).
  constructor; [|constructor; [|constructor]].
  - exists "bytes 0x0102"%string. split; [reflexivity|]. split; [reflexivity|].
    apply Nat.leb_le. reflexivity.
  - exists "halt"%string. split; [reflexivity|]. split; [reflexivity|].
    apply Nat.leb_le. reflexivity.
Defined.

Lemma fgets_full_buffer (n : nat) :
  forall head tail,
    strchr head newline = None ->
    String.length head = n ->
    fgets n (head ++ tail)%string = (head, tail).
Proof.
  induction n as [|n IH]; intros head tail Hb Hlen.
  - destruct head; [reflexivity | discriminate].
  - destruct head as [|c head]; [discriminate|].
    apply strchr_none_cons in Hb. destruct Hb as [Hc Hb].
    cbn [String.append fgets]. rewrite Hc.
    rewrite (IH head tail Hb) by (cbn in Hlen; lia). reflexivity.
Qed.

Lemma fgets_rest_length (n : nat) :
  forall stream,
    (String.length (snd (fgets n stream)) <= String.length stream)%nat.
Proof.
  induction n as [|n IH]; intros [|c rest]; cbn [fgets]; try (cbn; lia).
  destruct (Ascii.eqb c newline); [cbn; lia|].
  specialize (IH rest). destruct (fgets n rest) as [a b].
  cbn [snd String.length] in *. lia.
Qed.

Lemma fgets_consumes (n : nat) (stream : string) :
  (String.length (snd (fgets (S n) stream)) <= Nat.pred (String.length stream))%nat.
Proof.
  destruct stream as [|c rest]; [cbn; lia|].
  cbn [fgets]. destruct (Ascii.eqb c newline); [cbn; lia|].
  pose proof (fgets_rest_length n rest) as H.
  destruct (fgets n rest) as [a b]. cbn [snd String.length Nat.pred] in *. lia.
Qed.

(** With a buffer of more than one character every call of [fgets]
    consumes a character, so that any fuel not less than the length of the
    stream gives the same chunks. *)
Lemma fgets_loop_fuel (n : nat) (fuel : nat) :
  forall stream extra,
    (String.length stream <= fuel)%nat ->
    fgets_loop (fuel + extra) (S n) stream = fgets_loop fuel (S n) stream.
Proof.
  induction fuel as [|fuel IH]; intros stream extra Hlen.
  - destruct stream; [|cbn in Hlen; lia]. destruct extra; reflexivity.
  - cbn [Nat.add fgets_loop]. destruct stream as [|c rest]; [reflexivity|].
    cbn [is_empty]. pose proof (fgets_consumes n (String c rest)) as Hc.
    destruct (fgets (S n) (String c rest)) as [a b]. f_equal.
    apply IH. cbn [snd String.length Nat.pred] in *. lia.
Qed.

(** X9: a line of more than 4095 characters is read in several pieces,
    each assembled as a line of its own; what follows the first 4095
    characters of a comment is therefore not part of the comment: it is
    assembled as the manifest it would be alone. *)
Theorem overlong_comment_is_split (filler rest : string) (old : image) :
  strchr filler newline = None ->
  String.length filler = 4094%nat ->
  aurc_assemble_manifest (String "#" (filler ++ rest)) old
  = aurc_assemble_manifest rest old.
Proof.
  intros Hb Hlen. unfold aurc_assemble_manifest, fgets_all.
  change (4096 - 1)%nat with 4095%nat.
  assert (Hfgets : fgets 4095 (String "#" filler ++ rest)%string
                   = (String "#" filler, rest)).
  { apply fgets_full_buffer; [|cbn; now rewrite Hlen].
    cbn [strchr]. change (Ascii.eqb "#" newline) with false. now rewrite Hb. }
  cbn [String.append] in Hfgets.
  cbn [String.length fgets_loop is_empty]. rewrite Hfgets.
  cbn [assemble_lines].
  assert (Hline : assemble_line [] (String "#" filler) = (None, [])).
  { unfold assemble_line. rewrite trim_head by reflexivity. reflexivity. }
  rewrite Hline. rewrite length_append.
  replace (String.length filler + String.length rest)%nat
    with (String.length rest + String.length filler)%nat by lia.
  now rewrite (fgets_loop_fuel 4094).
Qed.

Lemma overlong_comment_is_split_witness :
  aurc_assemble_manifest
    (String "#" (string_of_list_ascii (repeat "x"%char 4094) ++ "halt" ++ nl)) [5]
  = aurc_assemble_manifest ("halt" ++ nl) [5].
Proof.
  apply (overlong_comment_is_split
           (string_of_list_ascii (repeat "x"%char 4094)) ("halt" ++ nl) [5]).
  - vm_compute. reflexivity.
  - vm_compute. reflexivity.
Defined.

End ManifestText.

(** ** The assembler only appends *)

Section AppendOnly.

Lemma emit_hex_loop_onto (p : string) :
  forall high written out,
    emit_hex_loop p high written out
    = match emit_hex_loop p high written [] with
      | inl (h, w, o) => inl (h, w, out ++ o)
      | inr o => inr (out ++ o)
      end.
Proof.
  induction p as [|c p IH]; intros high written out.
  - cbn. now rewrite app_nil_r.
  - cbn [emit_hex_loop].
    destruct (Ascii.eqb c ";" || isspace c); [now rewrite app_nil_r|].
    destruct (Ascii.eqb c "_"); [apply IH|].
    destruct (hex_value (code c) <? 0); [now rewrite app_nil_r|].
    destruct (high <? 0); [apply IH|].
    rewrite (IH _ _ (out ++ _)), (IH _ _ ([] ++ _)).
    destruct (emit_hex_loop p (-1) (written + 1) []) as [[[h w] o]|o];
      now rewrite <- app_assoc.
Qed.

Lemma emit_hex_bytes_onto (out : image) (hex : string) :
  emit_hex_bytes out hex
  = (fst (emit_hex_bytes [] hex), out ++ snd (emit_hex_bytes [] hex)).
Proof.
  unfold emit_hex_bytes. rewrite emit_hex_loop_onto.
  destruct (emit_hex_loop hex (-1) 0 []) as [[[h w] o]|o]; [|reflexivity].
  destruct (0 <=? h); [reflexivity|]. now destruct (w =? 0).
Qed.

Lemma emit_ascii_loop_onto_bounded (n : nat) :
  forall p out,
    (String.length p <= n)%nat ->
    emit_ascii_loop p out
    = (fst (emit_ascii_loop p []), out ++ snd (emit_ascii_loop p [])).
Proof.
  induction n as [|n IH]; intros p out Hlen.
  - destruct p; [cbn; now rewrite app_nil_r | cbn in Hlen; lia].
  - destruct p as [|c p]; [cbn; now rewrite app_nil_r|].
    cbn [String.length] in Hlen.
    assert (Hnext : forall q bytes,
               (String.length q <= n)%nat ->
               emit_ascii_loop q (out ++ bytes)
               = (fst (emit_ascii_loop q ([] ++ bytes)),
                  out ++ snd (emit_ascii_loop q ([] ++ bytes)))).
    { intros q bytes Hq. rewrite (IH q (out ++ bytes) Hq), (IH q ([] ++ bytes) Hq).
      cbn [fst snd]. now rewrite <- app_assoc. }
    cbn [emit_ascii_loop].
    destruct (Ascii.eqb c dquote); [cbn; now rewrite app_nil_r|].
    destruct (Ascii.eqb c backslash).
    + destruct p as [|e p]; [cbn; now rewrite app_nil_r|].
      cbn [String.length] in Hlen.
      destruct (Ascii.eqb e backslash); [apply Hnext; lia|].
      destruct (Ascii.eqb e dquote); [apply Hnext; lia|].
      destruct (Ascii.eqb e "n"); [apply Hnext; lia|].
      destruct (Ascii.eqb e "r"); [apply Hnext; lia|].
      destruct (Ascii.eqb e "t"); [apply Hnext; lia|].
      destruct (Ascii.eqb e "0"); [apply Hnext; lia|].
      cbn. now rewrite app_nil_r.
    + apply Hnext. lia.
Qed.

Lemma emit_ascii_loop_onto (p : string) (out : image) :
  emit_ascii_loop p out
  = (fst (emit_ascii_loop p []), out ++ snd (emit_ascii_loop p [])).
Proof. now apply (emit_ascii_loop_onto_bounded (String.length p)). Qed.

Lemma emit_pad_onto (out : image) (line : string) :
  emit_pad out line = (fst (emit_pad [] line), out ++ snd (emit_pad [] line)).
Proof.
  unfold emit_pad. destruct (is_empty (ltrim (drop 3 line)));
    [cbn; now rewrite app_nil_r|].
  destruct (strtoul0 (ltrim (drop 3 line))) as [[count rest]|];
    cbn; [reflexivity | now rewrite app_nil_r].
Qed.

Lemma assemble_line_onto (out : image) (buffer : string) :
  assemble_line out buffer
  = (fst (assemble_line [] buffer), out ++ snd (assemble_line [] buffer)).
Proof.
  unfold assemble_line.
  destruct (is_empty (trim buffer) || starts_with_char "#" (trim buffer));
    [cbn; now rewrite app_nil_r|].
  destruct (has_prefix "bytes" (trim buffer)).
  { destruct (strstr (trim buffer) "0x");
      [apply emit_hex_bytes_onto | cbn; now rewrite app_nil_r]. }
  destruct (has_prefix "ascii" (trim buffer)).
  { unfold emit_ascii_bytes. destruct (strchr (trim buffer) dquote);
      [apply emit_ascii_loop_onto | cbn; now rewrite app_nil_r]. }
  destruct (has_prefix "pad" (trim buffer)); [apply emit_pad_onto|].
  destruct (has_prefix "halt" (trim buffer)); cbn; [reflexivity|].
  now rewrite app_nil_r.
Qed.

Lemma assemble_lines_onto (ls : list string) :
  forall out,
    assemble_lines ls out
    = (fst (assemble_lines ls []), out ++ snd (assemble_lines ls [])).
Proof.
  induction ls as [|l ls IH]; intros out; [cbn; now rewrite app_nil_r|].
  cbn [assemble_lines]. rewrite (assemble_line_onto out).
  destruct (assemble_line [] l) as [[d|] o]; cbn [fst snd]; [reflexivity|].
  rewrite (IH (out ++ o)), (IH o). cbn [fst snd]. now rewrite <- app_assoc.
Qed.

(** X10: the assembler only appends, and what a directive appends does not
    depend on the bytes written before it: the image of two manifests one
    after the other, the first of which assembles, is the image of the
    first followed by the image of the second, and the result is that of
    the second. *)
Theorem assembly_of_concatenation (first second : list string) (out : image) :
  fst (assemble_lines first []) = None ->
  assemble_lines (first ++ second) out
  = (fst (assemble_lines second []),
     out ++ snd (assemble_lines first []) ++ snd (assemble_lines second [])).
Proof.
  intros Hfirst. rewrite assemble_lines_app, (assemble_lines_onto first out).
  rewrite Hfirst. rewrite (assemble_lines_onto second).
  now rewrite <- app_assoc.
Qed.

Lemma assembly_of_concatenation_witness :
  assemble_lines (["bytes 0x0102"; "pad 2"] ++ ["ascii 'A"; "halt"]) [7]
  = (fst (assemble_lines ["ascii 'A"; "halt"] []),
     [7] ++ snd (assemble_lines ["bytes 0x0102"; "pad 2"] [])
         ++ snd (assemble_lines ["ascii 'A"; "halt"] [])).
Proof.
  apply (assembly_of_concatenation ["bytes 0x0102"; "pad 2"]
           ["ascii 'A"; "halt"] [7]).
  reflexivity.
Defined.

End AppendOnly.

(** ** From the manifest items to the binary image *)

Section CompiledImage.

Import Layout Image.

Lemma strchr_app_none (a b : string) (c : ascii) :
  strchr a c = None -> strchr b c = None -> strchr (a ++ b)%string c = None.
Proof.
  intros Ha Hb. induction a as [|d a IH]; [exact Hb|].
  apply strchr_none_cons in Ha. destruct Ha as [Hd Ha].
  cbn [String.append strchr]. now rewrite Hd, (IH Ha).
Qed.

Lemma strchr_take_none (n : nat) (c : ascii) :
  forall s, strchr s c = None -> strchr (take n s) c = None.
Proof.
  induction n as [|n IH]; intros [|d s] H; try reflexivity.
  apply strchr_none_cons in H. destruct H as [Hd Hs].
  cbn [take strchr]. now rewrite Hd, (IH s Hs).
Qed.

Lemma take_length (n : nat) :
  forall s, (String.length (take n s) <= n)%nat.
Proof.
  induction n as [|n IH]; intros [|d s]; cbn; try lia.
  specialize (IH s). lia.
Qed.

Lemma strchr_hex_digits (n : nat) (w : Z) : strchr (hex_digits n w) newline = None.
Proof.
  induction n as [|n IH]; [reflexivity|].
  cbn [hex_digits strchr]. rewrite IH.
  destruct (nibble_cases _ (land_15_range (Z.shiftr w (4 * Z.of_nat n))))
    as [->|[->|[->|[->|[->|[->|[->|[->|[->|[->|[->|[->|[->|[->|[->| ->]]]]]]]]]]]]]]];
    reflexivity.
Qed.

Lemma hex_digits_length (n : nat) (w : Z) : String.length (hex_digits n w) = n.
Proof. induction n as [|n IH]; cbn; [reflexivity | now rewrite IH]. Qed.

Lemma strchr_string_of_uint (d : Decimal.uint) :
  strchr (NilEmpty.string_of_uint d) newline = None.
Proof. induction d; cbn [NilEmpty.string_of_uint strchr]; try rewrite IHd; reflexivity. Qed.

(** [%d] prints digits and a sign. *)
Lemma strchr_dec (v : Z) : strchr (dec v) newline = None.
Proof.
  unfold dec. destruct (Z.to_int v) as [d|d]; cbn [NilEmpty.string_of_int strchr].
  - apply strchr_string_of_uint.
  - now rewrite strchr_string_of_uint.
Qed.

Lemma text_line_intro (n : nat) (body : string) :
  strchr body newline = None ->
  (S (String.length body) <= n)%nat ->
  text_line n (body ++ nl)%string.
Proof.
  intros Hb Hlen. exists body. split; [reflexivity|]. split; [exact Hb|].
  rewrite length_append. cbn. lia.
Qed.

Lemma text_line_item (i : item) :
  one_line_item i -> text_line 4095 (render_item i).
Proof.
  destruct i as [text|name|w comment|literal]; cbn [one_line_item render_item];
    intros [Hb Hlen].
  - apply text_line_intro; [exact Hb | lia].
  - change ("label " ++ name ++ nl)%string with (("label " ++ name) ++ nl)%string.
    apply text_line_intro.
    + now apply strchr_app_none.
    + rewrite length_append. cbn. lia.
  - unfold emit_instruction_word.
    replace ("bytes 0x" ++ hex16 w ++ "  ; " ++ comment ++ nl)%string
      with (("bytes 0x" ++ hex16 w ++ "  ; " ++ comment) ++ nl)%string
      by (now rewrite !append_assoc).
    apply text_line_intro.
    + apply strchr_app_none; [reflexivity|].
      apply strchr_app_none; [apply strchr_hex_digits|].
      now apply strchr_app_none.
    + rewrite !length_append. unfold hex16. rewrite hex_digits_length. cbn. lia.
  - unfold write_escape_ascii.
    change ("ascii " ++ String dquote (escape_ascii literal) ++ String dquote nl)%string
      with ("ascii " ++ String dquote (escape_ascii literal ++ String dquote nl))%string.
    replace ("ascii " ++ String dquote (escape_ascii literal ++ String dquote nl))%string
      with (("ascii " ++ String dquote (escape_ascii literal ++ String dquote EmptyString))
            ++ nl)%string.
    2:{ cbn [String.append]. do 7 f_equal. now rewrite append_assoc. }
    assert (He : strchr (escape_ascii literal) newline = None
                 /\ (String.length (escape_ascii literal)
                     <= 2 * String.length literal)%nat).
    { clear Hlen. induction literal as [|c literal IH]; [split; [reflexivity | cbn; lia]|].
      apply strchr_none_cons in Hb. destruct Hb as [Hc Hb].
      destruct (IH Hb) as [IH1 IH2]. cbn [escape_ascii].
      destruct (Ascii.eqb c dquote); cbn [strchr String.length].
      - change (Ascii.eqb backslash newline) with false.
        change (Ascii.eqb dquote newline) with false.
        rewrite IH1. split; [reflexivity | lia].
      - rewrite Hc, IH1. split; [reflexivity | lia]. }
    destruct He as [He1 He2].
    apply text_line_intro.
    + apply strchr_app_none; [reflexivity|].
      cbn [strchr]. change (Ascii.eqb dquote newline) with false.
      rewrite strchr_app_none; [reflexivity | exact He1 | reflexivity].
    + cbn [String.append String.length]. rewrite length_append. cbn. lia.
Qed.

(** The assembler on the text of a manifest of one-line items. *)
Lemma assemble_rendered (m : manifest) (old : image) :
  Forall one_line_item m ->
  aurc_assemble_manifest (render m) old = assemble_lines (map render_item m) [].
Proof.
  intros Hm. unfold aurc_assemble_manifest, fgets_all.
  change (4096 - 1)%nat with 4095%nat.
  rewrite render_join. rewrite fgets_loop_join; [reflexivity | | lia].
  apply Forall_map. revert Hm. apply Forall_impl. exact text_line_item.
Qed.

Lemma assemble_line_skipped (out : image) (buffer : string) :
  no_directive (trim buffer) = true -> assemble_line out buffer = (None, out).
Proof.
  unfold no_directive, assemble_line.
  destruct (is_empty (trim buffer) || starts_with_char "#" (trim buffer));
    [reflexivity|].
  cbn [orb].
  destruct (has_prefix "bytes" (trim buffer)); [discriminate|].
  destruct (has_prefix "ascii" (trim buffer)); [discriminate|].
  destruct (has_prefix "pad" (trim buffer)); [discriminate|].
  destruct (has_prefix "halt" (trim buffer)); [discriminate | reflexivity].
Qed.

Lemma assemble_label_line (out : image) (name : string) :
  assemble_line out (render_item (Label name)) = (None, out).
Proof.
  apply assemble_line_skipped. cbn [render_item].
  change ("label " ++ name ++ nl)%string
    with (String "l" (String "a" (String "b" (String "e" (String "l"
            (String " " (name ++ nl)))))))%string.
  rewrite trim_head by reflexivity.
  rewrite (rtrim_cons_nonspace "a"), (rtrim_cons_nonspace "b"),
    (rtrim_cons_nonspace "e"), (rtrim_cons_nonspace "l") by reflexivity.
  reflexivity.
Qed.

Lemma assemble_word_item (out : image) (w : Z) (comment : string) :
  assemble_line out (render_item (Word w comment)) = (None, out ++ be_bytes 8 w).
Proof. apply assemble_instruction_line. Qed.

Lemma assemble_line_item (out : image) (text : string) :
  no_directive (trim (text ++ nl)) = true ->
  assemble_line out (render_item (Line text)) = (None, out).
Proof. apply assemble_line_skipped. Qed.

Lemma assemble_halt_item (out : image) :
  assemble_line out (render_item (Line "halt")) = (None, out ++ halt_bytes).
Proof. reflexivity. Qed.

Lemma assemble_pad_item (out : image) :
  assemble_line out (render_item (Line "pad 0x0010")) = (None, out ++ repeat 0 16).
Proof. reflexivity. Qed.

Lemma assemble_ascii_item (out : image) (literal : string) :
  strchr literal backslash = None ->
  assemble_line out (render_item (Ascii literal))
  = (None, out ++ literal_bytes literal).
Proof.
  intros Hb. cbn [render_item].
  rewrite assemble_ascii_line, (emit_ascii_loop_escaped _ _ Hb). reflexivity.
Qed.

End CompiledImage.

Ltac assemble_next :=
  first [ rewrite assemble_word_item
        | rewrite assemble_label_line
        | rewrite assemble_line_item by reflexivity
        | rewrite assemble_halt_item ];
  cbv iota beta.

Ltac newline_free :=
  unfold snprintf256;
  repeat first [ assumption | apply strchr_dec | apply strchr_take_none
               | apply strchr_app_none | reflexivity ].

Ltac short_text :=
  unfold snprintf256;
  first [ apply Nat.leb_le; reflexivity
        | match goal with
          | |- (String.length (take ?n ?s) <= _)%nat =>
              pose proof (take_length n s); lia
          end ].

Ltac one_line_items :=
  repeat (apply Forall_cons;
          [cbn [Image.one_line_item]; split; [newline_free | short_text]|]);
  apply Forall_nil.

(** Case analysis on the innermost scrutinee of a hypothesis. *)
Ltac break_hyp H :=
  repeat match type of H with
         | context [match ?x with _ => _ end] =>
             lazymatch x with
             | context [match _ with _ => _ end] => fail
             | _ => destruct x eqn:?; try discriminate H
             end
         end.

(** ** The images of the three kinds of program *)

Section ManifestImages.

Import Layout Image.

(** The Loop-Sum manifest and its image. *)
Lemma loop_manifest_image (ir : program_ir) (old : image) :
  kind ir = PROGRAM_LOOP_SUM ->
  int32_range (accumulator_init (loop ir)) ->
  int32_range (counter_init (loop ir)) ->
  exists m,
    emit_manifest_items ir = (None, m)
    /\ aurc_assemble_manifest (render m) old
       = (None, loop_image (accumulator_init (loop ir)) (counter_init (loop ir))).
Proof.
  intros Hk Ha Hn.
  unfold emit_manifest_items, emit_loop_manifest. rewrite Hk.
  rewrite (ensure_signed_32_range_ok _ Ha), (ensure_signed_32_range_ok _ Hn).
  change (negb (Z.lor RUNTIME_NONE RUNTIME_EXIT_WITH_R0 =? RUNTIME_NONE)) with true.
  change (emit_runtime_section (Z.lor RUNTIME_NONE RUNTIME_EXIT_WITH_R0))
    with emit_runtime_exit_with_r0.
  cbv iota beta. cbn [app]. unfold emit_runtime_exit_with_r0.
  eexists. split; [reflexivity|].
  rewrite assemble_rendered by one_line_items.
  cbn [map assemble_lines].
  do 19 assemble_next.
  unfold loop_image, words_image, svc_exit. cbn [flat_map].
  rewrite <- !app_assoc. reflexivity.
Qed.

(** The Pi-Approximation manifest and its image. *)
Lemma pi_manifest_image (ir : program_ir) (old : image) :
  kind ir = PROGRAM_PI_TEST ->
  int32_range (numerator_value (pi ir)) ->
  int32_range (denominator_value (pi ir)) ->
  int32_range (scale_value (pi ir)) ->
  strchr (numerator_var (pi ir)) newline = None ->
  strchr (denominator_var (pi ir)) newline = None ->
  strchr (scale_var (pi ir)) newline = None ->
  exists m,
    emit_manifest_items ir = (None, m)
    /\ aurc_assemble_manifest (render m) old
       = (None, pi_image (numerator_value (pi ir)) (denominator_value (pi ir))
                  (scale_value (pi ir))).
Proof.
  intros Hk Hn Hd Hs Hnv Hdv Hsv.
  unfold emit_manifest_items, emit_pi_manifest. rewrite Hk.
  rewrite (ensure_signed_32_range_ok _ Hn), (ensure_signed_32_range_ok _ Hd),
    (ensure_signed_32_range_ok _ Hs).
  change (negb (Z.lor RUNTIME_NONE RUNTIME_EXIT_WITH_R0 =? RUNTIME_NONE)) with true.
  change (emit_runtime_section (Z.lor RUNTIME_NONE RUNTIME_EXIT_WITH_R0))
    with emit_runtime_exit_with_r0.
  cbv iota beta. cbn [app]. unfold emit_runtime_exit_with_r0.
  eexists. split; [reflexivity|].
  rewrite assemble_rendered by one_line_items.
  cbn [map assemble_lines].
  repeat assemble_next.
  unfold pi_image, words_image, svc_exit. cbn [flat_map].
  rewrite <- !app_assoc. reflexivity.
Qed.

Lemma assemble_bindings (bs : list string_binding) :
  Forall plain_binding bs ->
  forall out,
    assemble_lines
      (map render_item
         (flat_map (fun binding =>
                      [Label (name binding); Ascii (literal binding);
                       Line "pad 0x0010"]) bs)) out
    = (None, out ++ flat_map (fun b => literal_bytes (literal b) ++ repeat 0 16) bs).
Proof.
  induction 1 as [|b bs Hb _ IH]; intros out; [cbn; now rewrite app_nil_r|].
  destruct Hb as (_ & _ & _ & Hbs & _).
  cbn [flat_map app map assemble_lines].
  rewrite assemble_label_line. cbv iota beta.
  rewrite (assemble_ascii_item _ _ Hbs). cbv iota beta.
  rewrite assemble_pad_item. cbv iota beta.
  rewrite IH. now rewrite <- !app_assoc.
Qed.

Lemma one_line_bindings (bs : list string_binding) :
  Forall plain_binding bs ->
  Forall one_line_item
    (flat_map (fun binding =>
                 [Label (name binding); Ascii (literal binding);
                  Line "pad 0x0010"]) bs).
Proof.
  induction 1 as [|b bs Hb _ IH]; [constructor|].
  destruct Hb as (Hn & Hnl & Hl & _ & Hll).
  cbn [flat_map app].
  repeat (apply Forall_cons; [cbn [one_line_item]; split|]);
    try assumption; try lia; try reflexivity.
  apply Nat.leb_le. reflexivity.
Qed.

Lemma binding_at_plain (ir : program_ir) (i : Z) :
  Forall plain_binding (bindings ir) ->
  strchr (name (binding_at ir i)) newline = None.
Proof.
  intros Hb. unfold binding_at.
  destruct (nth_in_or_default (Z.to_nat i) (bindings ir)
              {| name := EmptyString; literal := EmptyString |}) as [Hin | ->];
    [|reflexivity].
  rewrite Forall_forall in Hb. now destruct (Hb _ Hin).
Qed.

(** The String manifest and its image. *)
Lemma string_manifest_image (ir : program_ir) (old : image) :
  kind ir = PROGRAM_STRING ->
  0 <= print_binding_index ir < string_binding_count ir ->
  Forall plain_binding (bindings ir) ->
  exists m,
    emit_manifest_items ir = (None, m)
    /\ aurc_assemble_manifest (render m) old = (None, string_image (bindings ir)).
Proof.
  intros Hk Hidx Hb.
  unfold emit_manifest_items, emit_string_manifest. rewrite Hk.
  destruct (Z.ltb_spec (print_binding_index ir) 0) as [|_]; [lia|].
  destruct (Z.leb_spec (string_binding_count ir) (print_binding_index ir)) as [|_];
    [lia|].
  cbn [orb].
  change (negb (Z.lor RUNTIME_NONE RUNTIME_PRINT_AND_EXIT =? RUNTIME_NONE)) with true.
  change (emit_runtime_section (Z.lor RUNTIME_NONE RUNTIME_PRINT_AND_EXIT))
    with emit_runtime_print_and_exit.
  cbv iota beta. cbn [app]. unfold emit_runtime_print_and_exit.
  eexists. split; [reflexivity|].
  pose proof (binding_at_plain ir (print_binding_index ir) Hb) as Hname.
  rewrite assemble_rendered.
  2:{ repeat (apply Forall_cons;
              [cbn [one_line_item]; split; [newline_free | short_text]|]).
      apply Forall_app. split; [now apply one_line_bindings|].
      one_line_items. }
  cbn [map assemble_lines].
  repeat assemble_next.
  rewrite map_app, assemble_lines_app, (assemble_bindings _ Hb).
  cbn [map assemble_lines].
  repeat assemble_next.
  unfold string_image, words_image, svc_write, svc_exit. cbn [flat_map].
  rewrite <- !app_assoc. reflexivity.
Qed.

End ManifestImages.

(** ** What the recognizers keep of the source text *)

Section SourceText.

Import Lines Layout Image.

Variable c : ascii.

Lemma fgets_free (n : nat) :
  forall stream,
    strchr stream c = None ->
    strchr (fst (fgets n stream)) c = None /\ strchr (snd (fgets n stream)) c = None.
Proof.
  induction n as [|n IH]; intros [|d rest] H; try (now split).
  apply strchr_none_cons in H. destruct H as [Hd Hrest].
  cbn [fgets]. destruct (Ascii.eqb d newline).
  - cbn [fst snd strchr]. now rewrite Hd.
  - destruct (IH rest Hrest) as [Ha Hb]. destruct (fgets n rest) as [a b].
    cbn [fst snd strchr] in *. now rewrite Hd, Ha.
Qed.

Lemma fgets_loop_free (fuel n : nat) :
  forall stream,
    strchr stream c = None ->
    Forall (fun chunk => strchr chunk c = None) (fgets_loop fuel n stream).
Proof.
  induction fuel as [|fuel IH]; intros stream H; [constructor|].
  cbn [fgets_loop]. destruct (is_empty stream); [constructor|].
  destruct (fgets_free n stream H) as [Ha Hb].
  destruct (fgets n stream) as [a b]. constructor; [exact Ha | now apply IH].
Qed.

Lemma trim_free (s : string) : strchr s c = None -> strchr (trim s) c = None.
Proof. intros H. now apply strchr_rtrim_none, strchr_ltrim_none. Qed.

Lemma strncpy_free (n : nat) (s : string) :
  strchr s c = None -> strchr (strncpy n s) c = None.
Proof. apply strchr_take_none. Qed.

Lemma scan_set_free (w : nat) (excluded : list ascii) :
  forall input,
    strchr input c = None ->
    strchr (fst (scan_set w excluded input)) c = None
    /\ strchr (snd (scan_set w excluded input)) c = None.
Proof.
  induction w as [|w IH]; intros [|d rest] H; try (now split).
  cbn [scan_set]. destruct (excluded_by excluded d); [now split|].
  pose proof H as H'. apply strchr_none_cons in H'. destruct H' as [Hd Hrest].
  destruct (IH rest Hrest) as [Ha Hb]. destruct (scan_set w excluded rest) as [a b].
  cbn [fst snd strchr] in *. now rewrite Hd, Ha.
Qed.

Lemma digits_free (base : Z) :
  forall s acc count v k rest,
    strchr s c = None ->
    digits base s acc count = (v, k, rest) ->
    strchr rest c = None.
Proof.
  induction s as [|d s IH]; intros acc count v k rest H Hd.
  - inversion Hd. now subst.
  - cbn [digits] in Hd. destruct (digit_value base d).
    + apply strchr_none_cons in H. now apply (IH _ _ _ _ _ (proj2 H) Hd).
    + inversion Hd. now subst.
Qed.

Lemma sign_free (s : string) :
  strchr s c = None -> strchr (snd (sign s)) c = None.
Proof.
  destruct s as [|d s]; [trivial|]. intros H. unfold sign.
  pose proof (proj2 (strchr_none_cons _ _ _ H)) as Hs.
  destruct (Ascii.eqb d "-"); [exact Hs|]. now destruct (Ascii.eqb d "+").
Qed.

Lemma scan_int_free (input : string) (v : Z) (rest : string) :
  strchr input c = None ->
  scan_int input = Some (v, rest) ->
  strchr rest c = None.
Proof.
  intros H. unfold scan_int, strtoll10.
  pose proof (sign_free _ (strchr_ltrim_none _ _ H)) as Hs.
  destruct (sign (ltrim input)) as [neg body]. cbn [snd] in Hs.
  destruct (digits 10 body 0 0) as [[w k] r] eqn:Hd.
  pose proof (digits_free _ _ _ _ _ _ _ Hs Hd) as Hr.
  destruct k; [discriminate|]. intros E. inversion E. now subst.
Qed.

(** The strings [sscanf] stores are pieces of its input. *)
Lemma sscanf_free (fmt : list directive) :
  forall input s,
    strchr input c = None ->
    In (CStr s) (sscanf fmt input) ->
    strchr s c = None.
Proof.
  induction fmt as [|[| l | w excluded |] fmt IH]; intros input s H Hin;
    cbn [sscanf] in Hin.
  - contradiction.
  - apply (IH (ltrim input)); [now apply strchr_ltrim_none | exact Hin].
  - destruct input as [|d input]; [contradiction|].
    destruct (Ascii.eqb d l); [|contradiction].
    apply (IH input); [now apply strchr_none_cons in H | exact Hin].
  - destruct (scan_set_free w excluded input H) as [Ha Hb].
    destruct (scan_set w excluded input) as [tok rest]. cbn [fst snd] in *.
    destruct (is_empty tok); [contradiction|].
    destruct Hin as [E | Hin]; [inversion E; now subst|].
    now apply (IH rest).
  - destruct (scan_int input) as [[v rest]|] eqn:Hs; [|contradiction].
    destruct Hin as [E | Hin]; [discriminate|].
    apply (IH rest); [now apply (scan_int_free input v) | exact Hin].
Qed.

End SourceText.

Section RecognizedValues.

Import Lines Layout Image.

(** The integers [sscanf] stores are [int] values. *)
Lemma sscanf_int_range (fmt : list directive) :
  forall input v, In (CInt v) (sscanf fmt input) -> int32_range v.
Proof.
  induction fmt as [|[| l | w excluded |] fmt IH]; intros input v Hin;
    cbn [sscanf] in Hin.
  - contradiction.
  - now apply (IH (ltrim input)).
  - destruct input as [|d input]; [contradiction|].
    destruct (Ascii.eqb d l); [|contradiction]. now apply (IH input).
  - destruct (scan_set w excluded input) as [tok rest].
    destruct (is_empty tok); [contradiction|].
    destruct Hin as [E | Hin]; [discriminate|]. now apply (IH rest).
  - unfold scan_int in Hin.
    destruct (strtoll10 input) as [[x rest]|]; [|contradiction].
    destruct Hin as [E | Hin]; [|now apply (IH rest)].
    inversion E. apply to_int_range.
Qed.

Lemma loop_line_bindings (i : Z) (l : string) (st st' : loop_scan) :
  loop_line i l st = Continue st' ->
  Forall (fun b => int32_range (ib_value b)) (ls_bindings st) ->
  Forall (fun b => int32_range (ib_value b)) (ls_bindings st').
Proof.
  unfold loop_line, first_block, loop_let, loop_while, loop_exit, loop_return.
  intros H Hok.
  destruct (sscanf fmt_let_int l) as [|[a|v] [|[b|w] [|x xs]]] eqn:Hs;
    break_hyp H; inversion H; subst; cbn [ls_bindings]; try assumption.
  all: apply Forall_app; split; [assumption|].
  all: constructor; [|constructor]; cbn [ib_value].
  all: apply (sscanf_int_range fmt_let_int l); rewrite Hs; right; now left.
Qed.

Lemma loop_scan_lines_bindings (lines : list string) :
  forall i st st',
    loop_scan_lines i lines st = inr st' ->
    Forall (fun b => int32_range (ib_value b)) (ls_bindings st) ->
    Forall (fun b => int32_range (ib_value b)) (ls_bindings st').
Proof.
  induction lines as [|l lines IH]; intros i st st' H Hok.
  - inversion H. now subst.
  - cbn [loop_scan_lines] in H.
    destruct (loop_line i l st) as [|d|st1] eqn:Hl;
      [now apply (IH (i + 1) st) | discriminate |].
    apply (IH (i + 1) st1); [assumption|]. now apply (loop_line_bindings i l st).
Qed.

(** The IR of a recognized Loop-Sum program: its two values come from
    collected bindings. *)
Lemma parse_loop_sum_program_values (lines : list string) (ir0 ir : program_ir) :
  parse_loop_sum_program lines ir0 = inr ir ->
  kind ir = PROGRAM_LOOP_SUM
  /\ int32_range (accumulator_init (loop ir))
  /\ int32_range (counter_init (loop ir)).
Proof.
  unfold parse_loop_sum_program.
  destruct (loop_scan_lines 0 lines (loop_scan_start ir0)) as [d|st] eqn:Hscan;
    [discriminate|].
  assert (Hok : Forall (fun b => int32_range (ib_value b)) (ls_bindings st)).
  { apply (loop_scan_lines_bindings lines _ _ _ Hscan). constructor. }
  rewrite Forall_forall in Hok.
  unfold loop_finish. intros H. break_hyp H. inversion H. subst. clear H.
  cbn [kind set_kind loop set_loop set_loop_operands accumulator_init counter_init].
  repeat match goal with
         | Hf : find_binding _ _ = Some _ |- _ =>
             apply find_binding_in, Hok in Hf
         end.
  auto.
Qed.

End RecognizedValues.

(** ** From the source file to the binary image *)

Section CompiledPrograms.

Import Lines Layout Image.

Lemma parse_lines_kind (lines : list string) (ir0 ir : program_ir) :
  parse_lines lines ir0 = inr ir ->
  match kind ir with
  | PROGRAM_LOOP_SUM => parse_loop_sum_program lines ir0 = inr ir
  | PROGRAM_PI_TEST => parse_pi_program lines ir0 = inr ir
  | PROGRAM_STRING => parse_string_program lines ir0 = inr ir
  | PROGRAM_NONE => False
  end.
Proof.
  unfold parse_lines. intros H.
  destruct (has_loop lines).
  { destruct (parse_loop_sum_program_values _ _ _ H) as [-> _]. exact H. }
  destruct (has_arithmetic_chain lines).
  { destruct (parse_pi_program_values _ _ _ H) as [-> _]. exact H. }
  destruct (has_string_binding lines); [|discriminate].
  pose proof H as H'. unfold parse_string_program in H'.
  destruct (parse_string_lines lines ir0); [discriminate|].
  inversion H'. subst ir. exact H.
Qed.

Lemma find_index_range (bs : list string_binding) (nm : string) :
  forall i,
    0 <= i ->
    find_index bs nm i = -1
    \/ i <= find_index bs nm i < i + Z.of_nat (List.length bs).
Proof.
  induction bs as [|b bs IH]; intros i Hi; [now left|].
  cbn [find_index List.length]. destruct (String.eqb (name b) nm); [right; lia|].
  destruct (IH (i + 1)) as [H | H]; [lia | now left | right; lia].
Qed.

(** What a successful validation leaves of the IR: all but the index of
    the printed binding, which is then that of a binding. *)
Lemma validate_program_keeps (ir ir' : program_ir) :
  validate_program ir = (None, ir') ->
  kind ir' = kind ir /\ bindings ir' = bindings ir
  /\ loop ir' = loop ir /\ pi ir' = pi ir
  /\ (kind ir = PROGRAM_STRING ->
      0 <= print_binding_index ir' < string_binding_count ir').
Proof.
  unfold validate_program. destruct (kind ir) eqn:Hk.
  - discriminate.
  - destruct (string_binding_count ir =? 0); [discriminate|].
    destruct (negb (have_print ir)); [discriminate|].
    destruct (negb (have_exit ir) || negb (have_return ir)); [discriminate|].
    unfold validate_string_print.
    destruct (Z.ltb_spec (print_binding_index ir) 0) as [Hneg|Hpos];
      [|destruct (Z.leb_spec (string_binding_count ir) (print_binding_index ir))
         as [Hbig|Hsmall]]; cbn [orb].
    1, 2: destruct (Z.ltb_spec (find_string_binding_index ir (print_arg ir)) 0)
        as [|Hfound]; [discriminate|].
    1, 2: intros H;
      destruct (negb (String.eqb _ _)); [discriminate|];
      destruct (negb (_ =? _)); [discriminate|];
      destruct (negb (_ =? _)); [discriminate|];
      inversion H; subst ir'; do 4 (split; [first [reflexivity | cbn; now rewrite Hk]|]); intros _;
      unfold string_binding_count, find_string_binding_index in *;
      cbn [bindings print_binding_index set_print_binding_index];
      destruct (find_index_range (bindings ir) (print_arg ir) 0 ltac:(lia)); lia.
    intros H.
    destruct (negb (String.eqb _ _)); [discriminate|].
    destruct (negb (_ =? _)); [discriminate|].
    destruct (negb (_ =? _)); [discriminate|].
    inversion H; subst ir'. do 4 (split; [first [reflexivity | cbn; now rewrite Hk]|]). intros _. lia.
  - intros H.
    destruct (is_empty _ || is_empty _); [discriminate|].
    destruct (negb _ || negb _); [discriminate|].
    inversion H. subst ir'. do 4 (split; [first [reflexivity | cbn; now rewrite Hk]|]). discriminate.
  - intros H.
    destruct (is_empty _ || is_empty _ || is_empty _); [discriminate|].
    destruct (_ =? 0); [discriminate|].
    destruct (negb _ || negb _); [discriminate|].
    inversion H. subst ir'. do 4 (split; [first [reflexivity | cbn; now rewrite Hk]|]). discriminate.
Qed.

Lemma loop_image_length (a n : Z) : List.length (loop_image a n) = 80%nat.
Proof.
  unfold loop_image, words_image. cbn [flat_map].
  rewrite !length_app, !be_bytes_length. reflexivity.
Qed.

(** X11: every source file the loader accepts as a Loop-Sum program is
    compiled, once the output file is opened, and the manifest written is
    assembled without error into an image of 80 bytes: the nine
    instruction words, most significant byte first, and the eight bytes of
    [halt]. *)
Theorem compiled_loop_sum_image
    (input : string) (ir : program_ir) (output : file) (old : image) :
  load_program_ir input = inr ir ->
  kind ir = PROGRAM_LOOP_SUM ->
  exists text,
    aurc_compile_file input true output = (None, Some text)
    /\ aurc_assemble_manifest text old
       = (None, loop_image (accumulator_init (loop ir)) (counter_init (loop ir)))
    /\ List.length (loop_image (accumulator_init (loop ir)) (counter_init (loop ir)))
       = 80%nat.
Proof.
  intros Hload Hk. unfold aurc_compile_file, emit_manifest. rewrite Hload.
  cbn [negb].
  unfold load_program_ir, parse_source in Hload.
  destruct (load_lines (fgets_all 2048 input) []) as [d|lines]; [discriminate|].
  destruct (parse_lines lines fresh_ir) as [d|ir1] eqn:Hparse; [discriminate|].
  destruct (validate_program ir1) as [[d|] ir2] eqn:Hv; [discriminate|].
  inversion Hload. subst ir2. clear Hload.
  destruct (validate_program_keeps _ _ Hv) as (Hk1 & _ & Hl & _).
  apply parse_lines_kind in Hparse. rewrite <- Hk1, Hk in Hparse.
  destruct (parse_loop_sum_program_values _ _ _ Hparse) as (_ & Ha & Hn).
  rewrite <- Hl in Ha, Hn.
  destruct (loop_manifest_image ir old Hk Ha Hn) as (m & Hm & Himage).
  rewrite Hm. exists (render m). split; [reflexivity|]. split; [exact Himage|].
  apply loop_image_length.
Qed.

Lemma compiled_loop_sum_image_witness :
  exists text,
    aurc_compile_file (Samples.source (Samples.loop_sum "0" "5")) true None
    = (None, Some text)
    /\ aurc_assemble_manifest text [1; 2; 3]
       = (None, loop_image
                  (accumulator_init (loop (Samples.recognized (Samples.loop_sum "0" "5"))))
                  (counter_init (loop (Samples.recognized (Samples.loop_sum "0" "5")))))
    /\ List.length
         (loop_image
            (accumulator_init (loop (Samples.recognized (Samples.loop_sum "0" "5"))))
            (counter_init (loop (Samples.recognized (Samples.loop_sum "0" "5")))))
       = 80%nat.
Proof.
  apply (compiled_loop_sum_image
           (Samples.source (Samples.loop_sum "0" "5"))
           (Samples.recognized (Samples.loop_sum "0" "5")) None [1; 2; 3]).
  - vm_compute. reflexivity.
  - vm_compute. reflexivity.
Defined.

(** The lines of the source hold no newline, and no character that the
    source does not hold. *)
Lemma loaded_lines_free (c : ascii) (input : string) (lines : list string) :
  c = newline \/ strchr input c = None ->
  load_lines (fgets_all 2048 input) [] = inr lines ->
  Forall (fun l => strchr l c = None) lines.
Proof.
  intros Hc. rewrite load_lines_closed_form by (cbn; lia).
  cbn [List.length Nat.add app].
  destruct (List.length (line_sequence (fgets_all 2048 input)) <=? 256)%nat;
    [|discriminate].
  intros H. inversion H. subst lines. clear H.
  unfold line_sequence. rewrite Forall_map, Forall_forall.
  intros chunk Hin. apply filter_In in Hin. destruct Hin as [Hin _].
  apply strncpy_free.
  destruct Hc as [-> | Hc].
  - unfold fgets_all in Hin. apply fgets_loop_chunks in Hin.
    destruct Hin as [rest ->].
    destruct (fgets_chunk (2048 - 1) rest) as [_ (body & Hb & [-> | ->])].
    + now apply trim_free.
    + rewrite (trim_app_space _ _ isspace_newline). now apply trim_free.
  - apply trim_free.
    pose proof (fgets_loop_free c (String.length input) (2048 - 1) input Hc) as Hall.
    rewrite Forall_forall in Hall. now apply Hall.
Qed.

Lemma pi_line_names (l : string) (st st' : pi_scan) :
  strchr l newline = None ->
  pi_line l st = Continue st' ->
  Forall (fun b => strchr (ib_name b) newline = None) (ps_bindings st) ->
  Forall (fun b => strchr (ib_name b) newline = None) (ps_bindings st').
Proof.
  unfold pi_line, first_block, pi_let, pi_exit, pi_return, pi_mul, pi_div, pi_literal.
  intros Hl H Hok.
  destruct (has_prefix "let " l).
  - destruct (sscanf fmt_let_expr l) as [|[a|v] [|[b|w] [|x xs]]] eqn:Hs;
      break_hyp H; inversion H; subst; cbn [ps_bindings]; try assumption.
    all: apply Forall_app; split; [assumption|].
    all: constructor; [|constructor]; cbn [ib_name].
    all: apply strncpy_free, trim_free, (sscanf_free newline fmt_let_expr l);
      [assumption | rewrite Hs; now left].
  - break_hyp H; inversion H; subst; cbn [ps_bindings]; assumption.
Qed.

Lemma pi_scan_lines_names (lines : list string) :
  forall st st',
    Forall (fun l => strchr l newline = None) lines ->
    pi_scan_lines lines st = inr st' ->
    Forall (fun b => strchr (ib_name b) newline = None) (ps_bindings st) ->
    Forall (fun b => strchr (ib_name b) newline = None) (ps_bindings st').
Proof.
  induction lines as [|l lines IH]; intros st st' Hlines H Hok.
  - inversion H. now subst.
  - inversion Hlines as [|? ? Hl Hrest]. subst. cbn [pi_scan_lines] in H.
    destruct (pi_line l st) as [|d|st1] eqn:Hline;
      [now apply (IH st) | discriminate |].
    apply (IH st1); [assumption | assumption |].
    now apply (pi_line_names l st).
Qed.

Lemma parse_pi_program_names (lines : list string) (ir0 ir : program_ir) :
  Forall (fun l => strchr l newline = None) lines ->
  parse_pi_program lines ir0 = inr ir ->
  strchr (numerator_var (pi ir)) newline = None
  /\ strchr (denominator_var (pi ir)) newline = None
  /\ strchr (scale_var (pi ir)) newline = None.
Proof.
  intros Hlines. unfold parse_pi_program.
  destruct (pi_scan_lines lines (pi_scan_start ir0)) as [d|st] eqn:Hscan; [discriminate|].
  assert (Hok : Forall (fun b => strchr (ib_name b) newline = None) (ps_bindings st)).
  { apply (pi_scan_lines_names lines _ _ Hlines Hscan). constructor. }
  rewrite Forall_forall in Hok.
  unfold pi_finish. intros H. break_hyp H. inversion H. subst. clear H.
  cbn [pi set_kind set_pi set_pi_operands numerator_var denominator_var scale_var].
  repeat match goal with
         | Hf : find_binding _ _ = Some _ |- _ =>
             apply find_binding_in, Hok in Hf
         end.
  repeat split; now apply strncpy_free.
Qed.

Lemma pi_image_length (n d s : Z) : List.length (pi_image n d s) = 72%nat.
Proof.
  unfold pi_image, words_image. cbn [flat_map].
  rewrite !length_app, !be_bytes_length. reflexivity.
Qed.

(** X12: every source file the loader accepts as a Pi-Approximation
    program is compiled, once the output file is opened, and the manifest
    written is assembled without error into an image of 72 bytes: the
    eight instruction words, most significant byte first, and the eight
    bytes of [halt]. *)
Theorem compiled_pi_image
    (input : string) (ir : program_ir) (output : file) (old : image) :
  load_program_ir input = inr ir ->
  kind ir = PROGRAM_PI_TEST ->
  exists text,
    aurc_compile_file input true output = (None, Some text)
    /\ aurc_assemble_manifest text old
       = (None, pi_image (numerator_value (pi ir)) (denominator_value (pi ir))
                  (scale_value (pi ir)))
    /\ List.length (pi_image (numerator_value (pi ir)) (denominator_value (pi ir))
                      (scale_value (pi ir))) = 72%nat.
Proof.
  intros Hload Hk. unfold aurc_compile_file, emit_manifest. rewrite Hload.
  cbn [negb].
  unfold load_program_ir, parse_source in Hload.
  destruct (load_lines (fgets_all 2048 input) []) as [d|lines] eqn:Hlines;
    [discriminate|].
  apply (loaded_lines_free newline) in Hlines; [|now left].
  destruct (parse_lines lines fresh_ir) as [d|ir1] eqn:Hparse; [discriminate|].
  destruct (validate_program ir1) as [[d|] ir2] eqn:Hv; [discriminate|].
  inversion Hload. subst ir2. clear Hload.
  destruct (validate_program_keeps _ _ Hv) as (Hk1 & _ & _ & Hp & _).
  apply parse_lines_kind in Hparse. rewrite <- Hk1, Hk in Hparse.
  destruct (parse_pi_program_values _ _ _ Hparse) as (_ & Hn & Hd & Hs & _).
  destruct (parse_pi_program_names _ _ _ Hlines Hparse) as (Hnv & Hdv & Hsv).
  rewrite <- Hp in Hn, Hd, Hs, Hnv, Hdv, Hsv.
  destruct (pi_manifest_image ir old Hk Hn Hd Hs Hnv Hdv Hsv) as (m & Hm & Himage).
  rewrite Hm. exists (render m). split; [reflexivity|]. split; [exact Himage|].
  apply pi_image_length.
Qed.

Lemma compiled_pi_image_witness :
  exists text,
    aurc_compile_file (Samples.source (Samples.pi_approx "355" "113" "10000")) true
      None
    = (None, Some text)
    /\ aurc_assemble_manifest text []
       = (None, pi_image
                  (numerator_value
                     (pi (Samples.recognized (Samples.pi_approx "355" "113" "10000"))))
                  (denominator_value
                     (pi (Samples.recognized (Samples.pi_approx "355" "113" "10000"))))
                  (scale_value
                     (pi (Samples.recognized (Samples.pi_approx "355" "113" "10000")))))
    /\ List.length
         (pi_image
            (numerator_value
               (pi (Samples.recognized (Samples.pi_approx "355" "113" "10000"))))
            (denominator_value
               (pi (Samples.recognized (Samples.pi_approx "355" "113" "10000"))))
            (scale_value
               (pi (Samples.recognized (Samples.pi_approx "355" "113" "10000")))))
       = 72%nat.
Proof.
  apply (compiled_pi_image
           (Samples.source (Samples.pi_approx "355" "113" "10000"))
           (Samples.recognized (Samples.pi_approx "355" "113" "10000")) None []).
  - vm_compute. reflexivity.
  - vm_compute. reflexivity.
Defined.

Lemma string_line_bindings (l : string) (ir ir' : program_ir) :
  strchr l newline = None ->
  strchr l backslash = None ->
  string_line l ir = Continue ir' ->
  Forall plain_binding (bindings ir) ->
  Forall plain_binding (bindings ir').
Proof.
  unfold string_line, first_block, string_let, string_print, string_exit,
    string_return, add_string_binding.
  intros Hn Hb H Hok.
  destruct (sscanf fmt_let_string l) as [|[a|v] [|[b|w] [|x xs]]] eqn:Hs;
    break_hyp H; inversion H; subst; cbn [bindings set_bindings set_print
      set_print_binding_index set_exit set_return]; try assumption.
  all: apply Forall_app; split; [assumption|].
  all: constructor; [|constructor].
  all: assert (Ha : In (CStr a) (sscanf fmt_let_string l))
    by (rewrite Hs; now left).
  all: assert (Hlit : In (CStr b) (sscanf fmt_let_string l))
    by (rewrite Hs; right; now left).
  all: unfold plain_binding; cbn [name literal].
  all: split; [apply strncpy_free, trim_free, (sscanf_free _ _ _ _ Hn Ha)|].
  all: split; [apply take_length|].
  all: split; [apply strncpy_free, (sscanf_free _ _ _ _ Hn Hlit)|].
  all: split; [apply strncpy_free, (sscanf_free _ _ _ _ Hb Hlit)|].
  all: apply take_length.
Qed.

Lemma parse_string_lines_bindings (lines : list string) :
  forall ir ir',
    Forall (fun l => strchr l newline = None) lines ->
    Forall (fun l => strchr l backslash = None) lines ->
    parse_string_lines lines ir = inr ir' ->
    Forall plain_binding (bindings ir) ->
    Forall plain_binding (bindings ir').
Proof.
  induction lines as [|l lines IH]; intros ir ir' Hn Hb H Hok.
  - inversion H. now subst.
  - inversion Hn as [|? ? Hl Hrest]. inversion Hb as [|? ? Hlb Hrestb]. subst.
    cbn [parse_string_lines] in H.
    destruct (string_line l ir) as [|d|ir1] eqn:Hline;
      [now apply (IH ir) | discriminate |].
    apply (IH ir1); try assumption. now apply (string_line_bindings l ir).
Qed.

(** X13: every source file without backslash that the loader accepts as a
    String program is compiled, once the output file is opened, and the
    manifest written is assembled without error: two instruction words,
    then each literal followed by sixteen zero bytes, then the two service
    words and [halt]. *)
Theorem compiled_string_image
    (input : string) (ir : program_ir) (output : file) (old : image) :
  load_program_ir input = inr ir ->
  kind ir = PROGRAM_STRING ->
  strchr input backslash = None ->
  exists text,
    aurc_compile_file input true output = (None, Some text)
    /\ aurc_assemble_manifest text old = (None, string_image (bindings ir)).
Proof.
  intros Hload Hk Hback. unfold aurc_compile_file, emit_manifest. rewrite Hload.
  cbn [negb].
  unfold load_program_ir, parse_source in Hload.
  destruct (load_lines (fgets_all 2048 input) []) as [d|lines] eqn:Hlines;
    [discriminate|].
  pose proof (loaded_lines_free newline _ _ (or_introl eq_refl) Hlines) as Hn.
  pose proof (loaded_lines_free backslash _ _ (or_intror Hback) Hlines) as Hb.
  destruct (parse_lines lines fresh_ir) as [d|ir1] eqn:Hparse; [discriminate|].
  destruct (validate_program ir1) as [[d|] ir2] eqn:Hv; [discriminate|].
  inversion Hload. subst ir2. clear Hload.
  destruct (validate_program_keeps _ _ Hv) as (Hk1 & Hbs & _ & _ & Hidx).
  apply parse_lines_kind in Hparse. rewrite <- Hk1, Hk in Hparse.
  unfold parse_string_program in Hparse.
  destruct (parse_string_lines lines fresh_ir) as [d|ir0] eqn:Hstring; [discriminate|].
  inversion Hparse. subst ir1. clear Hparse.
  assert (Hplain : Forall plain_binding (bindings ir)).
  { rewrite Hbs. cbn [bindings set_kind].
    apply (parse_string_lines_bindings lines fresh_ir ir0 Hn Hb Hstring).
    constructor. }
  destruct (string_manifest_image ir old Hk (Hidx eq_refl) Hplain)
    as (m & Hm & Himage).
  rewrite Hm. exists (render m). split; [reflexivity | exact Himage].
Qed.

Lemma compiled_string_image_witness :
  exists text,
    aurc_compile_file (Samples.source (Samples.greeting "0")) true None
    = (None, Some text)
    /\ aurc_assemble_manifest text []
       = (None, string_image
                  [{| name := "greeting"; literal := "hi" |}]).
Proof.
  apply (compiled_string_image
           (Samples.source (Samples.greeting "0"))
           {| kind := PROGRAM_STRING;
              bindings := [{| name := "greeting"; literal := "hi" |}];
              print_binding_index := 0; print_arg := "greeting";
              have_print := true; exit_value := 0; return_value := 0;
              have_exit := true; have_return := true;
              loop := zero_loop; pi := zero_pi |} None []).
  - vm_compute. reflexivity.
  - reflexivity.
  - vm_compute. reflexivity.
Defined.

End CompiledPrograms.

(** ** What a failed compilation leaves *)

Section Loader.

Import Lines Layout Image.

Lemma string_manifest_written (ir : program_ir) :
  kind ir = PROGRAM_STRING ->
  0 <= print_binding_index ir < string_binding_count ir ->
  fst (emit_manifest_items ir) = None.
Proof.
  intros Hk Hidx. unfold emit_manifest_items, emit_string_manifest. rewrite Hk.
  destruct (Z.ltb_spec (print_binding_index ir) 0) as [|_]; [lia|].
  destruct (Z.leb_spec (string_binding_count ir) (print_binding_index ir)) as [|_];
    [lia|].
  reflexivity.
Qed.

(** The writer has nothing to refuse in the IR the loader returns. *)
Lemma loaded_ir_is_written (input : string) (ir : program_ir) :
  load_program_ir input = inr ir -> fst (emit_manifest_items ir) = None.
Proof.
  unfold load_program_ir, parse_source. intros Hload.
  destruct (load_lines (fgets_all 2048 input) []) as [d|lines]; [discriminate|].
  destruct (parse_lines lines fresh_ir) as [d|ir1] eqn:Hparse; [discriminate|].
  destruct (validate_program ir1) as [[d|] ir2] eqn:Hv; [discriminate|].
  inversion Hload. subst ir2. clear Hload.
  destruct (validate_program_keeps _ _ Hv) as (Hk & _ & Hl & Hp & Hidx).
  apply parse_lines_kind in Hparse.
  destruct (kind ir1) eqn:Hk1; [contradiction | | |].
  - apply string_manifest_written; [assumption | now apply Hidx].
  - destruct (parse_loop_sum_program_values _ _ _ Hparse) as (_ & Ha & Hn).
    rewrite <- Hl in Ha, Hn.
    now destruct (load_loop_manifest ir Hk Ha Hn) as (c1 & c2 & Hw & _).
  - destruct (parse_pi_program_values _ _ _ Hparse) as (_ & Hn & Hd & Hs & _).
    rewrite <- Hp in Hn, Hd, Hs.
    now destruct (load_pi_manifest ir Hk Hn Hd Hs) as (c1 & c2 & c3 & Hw & _).
Qed.

End Loader.

(** ** String bindings *)

Section StringBindings.

Import Lines Layout Image.

Lemma scan_set_length (w : nat) (excluded : list ascii) :
  forall input, (String.length (fst (scan_set w excluded input)) <= w)%nat.
Proof.
  induction w as [|w IH]; intros [|d rest]; cbn [scan_set]; try (cbn; lia).
  destruct (excluded_by excluded d); [cbn; lia|].
  specialize (IH rest). destruct (scan_set w excluded rest) as [a b].
  cbn [fst String.length] in *. lia.
Qed.

(** The name of a string binding fits the 128 characters of its field. *)
Lemma sscanf_let_string_name (line a : string) (tl : list conv) :
  sscanf fmt_let_string line = CStr a :: tl -> (String.length a <= 127)%nat.
Proof.
  unfold fmt_let_string. cbn [sscanf].
  destruct line as [|x1 [|x2 [|x3 r]]]; try discriminate;
    try (destruct (Ascii.eqb x1 "l"); discriminate);
    try (destruct (Ascii.eqb x1 "l"); [destruct (Ascii.eqb x2 "e")|]; discriminate).
  destruct (Ascii.eqb x1 "l"); [|discriminate].
  destruct (Ascii.eqb x2 "e"); [|discriminate].
  destruct (Ascii.eqb x3 "t"); [|discriminate].
  pose proof (scan_set_length 127 [":"%char] (ltrim r)) as Hlen.
  destruct (scan_set 127 [":"%char] (ltrim r)) as [tok rest].
  destruct (is_empty tok); [discriminate|].
  intros H. injection H as Ha _. now subst a.
Qed.

Lemma find_index_absent (bs : list string_binding) (nm : string) :
  forall i, 0 <= i -> find_index bs nm i < 0 -> ~ In nm (map name bs).
Proof.
  induction bs as [|b bs IH]; intros i Hi Hf; [intros []|].
  cbn [find_index] in Hf. destruct (String.eqb_spec (name b) nm) as [|Hne]; [lia|].
  intros [H | H]; [contradiction|]. now apply (IH (i + 1) ltac:(lia) Hf).
Qed.

Lemma find_index_found (bs : list string_binding) (nm : string) :
  forall i,
    0 <= i -> i <= find_index bs nm i ->
    name (nth (Z.to_nat (find_index bs nm i - i)) bs
            {| name := EmptyString; literal := EmptyString |}) = nm.
Proof.
  induction bs as [|b bs IH]; intros i Hi Hf; [cbn in Hf; lia|].
  cbn [find_index] in *. destruct (String.eqb_spec (name b) nm) as [He|Hne].
  - now rewrite Z.sub_diag.
  - destruct (find_index_range bs nm (i + 1) ltac:(lia)) as [Hn | Hr]; [lia|].
    specialize (IH (i + 1) ltac:(lia) ltac:(lia)).
    replace (Z.to_nat (find_index bs nm (i + 1) - i))
      with (S (Z.to_nat (find_index bs nm (i + 1) - (i + 1)))) by lia.
    exact IH.
Qed.

Lemma find_index_app_found (bs : list string_binding) (b : string_binding)
    (nm : string) :
  forall i,
    0 <= i -> i <= find_index bs nm i ->
    find_index (bs ++ [b]) nm i = find_index bs nm i.
Proof.
  induction bs as [|x bs IH]; intros i Hi Hf; [cbn in Hf; lia|].
  cbn [app find_index] in *. destruct (String.eqb (name x) nm); [reflexivity|].
  apply IH; [lia|].
  destruct (find_index_range bs nm (i + 1) ltac:(lia)); lia.
Qed.

Lemma find_index_app_absent (bs : list string_binding) (b : string_binding)
    (nm : string) :
  forall i,
    0 <= i -> find_index bs nm i < 0 ->
    find_index (bs ++ [b]) nm i
    = if String.eqb (name b) nm then i + Z.of_nat (List.length bs) else -1.
Proof.
  induction bs as [|x bs IH]; intros i Hi Hf.
  - cbn. destruct (String.eqb (name b) nm); lia.
  - cbn [app find_index List.length] in *.
    destruct (String.eqb (name x) nm); [lia|].
    rewrite IH by lia. destruct (String.eqb (name b) nm); lia.
Qed.

(** X15: a binding added to the table is found under its name at the
    index returned, which is the number of bindings there were; its
    literal is kept up to 1023 characters; and the names bound before are
    found where they were. *)
Theorem added_binding_is_found
    (ir ir' : program_ir) (nm lit : string) (idx : Z) :
  add_string_binding ir nm lit = inr (ir', idx) ->
  (String.length nm <= 127)%nat ->
  idx = string_binding_count ir
  /\ find_string_binding_index ir' nm = idx
  /\ binding_at ir' idx = {| name := nm; literal := take 1023 lit |}
  /\ forall other,
       0 <= find_string_binding_index ir other ->
       find_string_binding_index ir' other = find_string_binding_index ir other.
Proof.
  unfold add_string_binding, find_string_binding_index, string_binding_count.
  destruct (Z.leb_spec 0 (find_index (bindings ir) nm 0)) as [|Habsent];
    [discriminate|].
  destruct (MAX_STRING_BINDINGS <=? Z.of_nat (List.length (bindings ir)));
    [discriminate|].
  intros H Hlen. inversion H. subst ir'. clear H.
  cbn [bindings set_bindings]. unfold strncpy.
  change (128 - 1)%nat with 127%nat. change (1024 - 1)%nat with 1023%nat.
  rewrite (take_all 127 nm Hlen), length_app. cbn [List.length].
  split; [lia|]. split; [|split].
  - rewrite find_index_app_absent by lia. cbn [name].
    rewrite String.eqb_refl. lia.
  - unfold binding_at. cbn [bindings set_bindings].
    replace (Z.to_nat (Z.of_nat (List.length (bindings ir) + 1) - 1))
      with (List.length (bindings ir)) by lia.
    now rewrite nth_middle.
  - intros other Hother. now apply find_index_app_found.
Qed.

Lemma added_binding_is_found_witness :
  0 = string_binding_count fresh_ir
  /\ find_string_binding_index
       (set_bindings [{| name := "greeting"; literal := "hi" |}] fresh_ir) "greeting" = 0
  /\ binding_at (set_bindings [{| name := "greeting"; literal := "hi" |}] fresh_ir) 0
     = {| name := "greeting"; literal := take 1023 "hi" |}
  /\ forall other,
       0 <= find_string_binding_index fresh_ir other ->
       find_string_binding_index
         (set_bindings [{| name := "greeting"; literal := "hi" |}] fresh_ir) other
       = find_string_binding_index fresh_ir other.
Proof.
  apply (added_binding_is_found fresh_ir
           (set_bindings [{| name := "greeting"; literal := "hi" |}] fresh_ir)
           "greeting" "hi" 0).
  - reflexivity.
  - apply Nat.leb_le. reflexivity.
Defined.

Lemma string_line_unique (l : string) (ir ir' : program_ir) :
  string_line l ir = Continue ir' ->
  NoDup (map name (bindings ir)) /\ (List.length (bindings ir) <= 8)%nat ->
  NoDup (map name (bindings ir')) /\ (List.length (bindings ir') <= 8)%nat.
Proof.
  unfold string_line, first_block, string_let, string_print, string_exit,
    string_return, add_string_binding, find_string_binding_index,
    string_binding_count, MAX_STRING_BINDINGS.
  intros H Hok.
  destruct (sscanf fmt_let_string l) as [|[a|v] [|[b|w] [|x xs]]] eqn:Hs;
    break_hyp H; inversion H; subst; cbn [bindings set_bindings set_print
      set_print_binding_index set_exit set_return]; try assumption.
  all: destruct Hok as [Hnd Hlen].
  all: pose proof (sscanf_let_string_name _ _ _ Hs) as Ha.
  all: pose proof (trim_length a) as Ht.
  all: unfold strncpy; change (128 - 1)%nat with 127%nat.
  all: rewrite (take_all 127 (trim a)) by lia.
  all: rewrite map_app, length_app; cbn [map List.length name].
  all: split; [|lia].
  all: rewrite <- (rev_involutive (map name (bindings ir) ++ [trim a])).
  all: apply NoDup_rev; rewrite rev_app_distr; cbn [rev app].
  all: constructor; [|now apply NoDup_rev].
  all: rewrite <- in_rev.
  all: apply (find_index_absent _ _ 0); lia.
Qed.

Lemma parse_string_lines_unique (lines : list string) :
  forall ir ir',
    parse_string_lines lines ir = inr ir' ->
    NoDup (map name (bindings ir)) /\ (List.length (bindings ir) <= 8)%nat ->
    NoDup (map name (bindings ir')) /\ (List.length (bindings ir') <= 8)%nat.
Proof.
  induction lines as [|l lines IH]; intros ir ir' H Hok.
  - inversion H. now subst.
  - cbn [parse_string_lines] in H.
    destruct (string_line l ir) as [|d|ir1] eqn:Hline;
      [now apply (IH ir) | discriminate |].
    apply (IH ir1); [assumption|]. now apply (string_line_unique l ir).
Qed.

(** X16: the bindings of a String program the loader accepts have
    distinct names, and there are between one and eight of them. *)
Theorem loaded_string_bindings_distinct (input : string) (ir : program_ir) :
  load_program_ir input = inr ir ->
  kind ir = PROGRAM_STRING ->
  NoDup (map name (bindings ir))
  /\ (1 <= List.length (bindings ir) <= 8)%nat.
Proof.
  unfold load_program_ir, parse_source. intros Hload Hk.
  destruct (load_lines (fgets_all 2048 input) []) as [d|lines]; [discriminate|].
  destruct (parse_lines lines fresh_ir) as [d|ir1] eqn:Hparse; [discriminate|].
  destruct (validate_program ir1) as [[d|] ir2] eqn:Hv; [discriminate|].
  inversion Hload. subst ir2. clear Hload.
  destruct (validate_program_keeps _ _ Hv) as (Hk1 & Hbs & _ & _ & Hidx).
  apply parse_lines_kind in Hparse. rewrite <- Hk1, Hk in Hparse.
  rewrite Hk1 in Hk. specialize (Hidx Hk). unfold string_binding_count in Hidx.
  unfold parse_string_program in Hparse.
  destruct (parse_string_lines lines fresh_ir) as [d|ir0] eqn:Hstring; [discriminate|].
  inversion Hparse. subst ir1. clear Hparse.
  rewrite Hbs in *. cbn [bindings set_kind] in *.
  destruct (parse_string_lines_unique lines fresh_ir ir0 Hstring) as [Hnd Hlen].
  { split; [constructor | cbn; lia]. }
  split; [exact Hnd | lia].
Qed.

Lemma loaded_string_bindings_distinct_witness :
  NoDup (map name [{| name := "greeting"; literal := "hi" |};
                   {| name := "farewell"; literal := "bye" |}])
  /\ (1 <= List.length [{| name := "greeting"; literal := "hi" |};
                        {| name := "farewell"; literal := "bye" |}] <= 8)%nat.
Proof.
  apply (loaded_string_bindings_distinct
           (Samples.source Samples.two_bindings)
           {| kind := PROGRAM_STRING;
              bindings := [{| name := "greeting"; literal := "hi" |};
                           {| name := "farewell"; literal := "bye" |}];
              print_binding_index := 1; print_arg := "farewell";
              have_print := true; exit_value := 0; return_value := 0;
              have_exit := true; have_return := true;
              loop := zero_loop; pi := zero_pi |}).
  - vm_compute. reflexivity.
  - reflexivity.
Defined.

(** X17: in a String program that passes validation the index of the
    printed binding is that of a binding of the table, whose name is the
    argument of the print statement, whether the recognizer resolved it
    or the validator did. *)
Theorem validated_print_binding (ir ir' : program_ir) :
  validate_program ir = (None, ir') ->
  kind ir = PROGRAM_STRING ->
  0 <= print_binding_index ir' < string_binding_count ir'
  /\ name (binding_at ir' (print_binding_index ir')) = print_arg ir'
  /\ print_arg ir' = print_arg ir
  /\ (print_binding_index ir < 0 ->
      print_binding_index ir' = find_string_binding_index ir (print_arg ir)).
Proof.
  intros Hv Hk.
  destruct (validate_program_keeps _ _ Hv) as (_ & _ & _ & _ & Hidx).
  split; [now apply Hidx|]. clear Hidx.
  unfold validate_program in Hv. rewrite Hk in Hv.
  destruct (string_binding_count ir =? 0); [discriminate|].
  destruct (negb (have_print ir)); [discriminate|].
  destruct (negb (have_exit ir) || negb (have_return ir)); [discriminate|].
  unfold validate_string_print in Hv.
  destruct ((print_binding_index ir <? 0)
            || (string_binding_count ir <=? print_binding_index ir)) eqn:Hout.
  - destruct (Z.ltb_spec (find_string_binding_index ir (print_arg ir)) 0)
      as [|Hfound]; [discriminate|].
    destruct (String.eqb_spec
                (print_arg (set_print_binding_index
                              (find_string_binding_index ir (print_arg ir)) ir))
                (name (binding_at
                         (set_print_binding_index
                            (find_string_binding_index ir (print_arg ir)) ir)
                         (print_binding_index
                            (set_print_binding_index
                               (find_string_binding_index ir (print_arg ir)) ir)))))
      as [He|]; [|discriminate].
    destruct (negb (_ =? _)); [discriminate|].
    destruct (negb (_ =? _)); [discriminate|].
    inversion Hv. subst ir'. repeat split; auto.
  - destruct (String.eqb_spec (print_arg ir)
                (name (binding_at ir (print_binding_index ir)))) as [He|];
      [|discriminate].
    destruct (negb (_ =? _)); [discriminate|].
    destruct (negb (_ =? _)); [discriminate|].
    inversion Hv. subst ir'. repeat split; auto.
    intros Hneg. apply orb_false_iff in Hout. destruct Hout as [Hout _].
    apply Z.ltb_ge in Hout. lia.
Qed.

Lemma validated_print_binding_witness :
  0 <= print_binding_index
         (set_print_binding_index 0
            (Samples.recognized Samples.print_first))
    < string_binding_count
        (set_print_binding_index 0
           (Samples.recognized Samples.print_first))
  /\ name (binding_at
             (set_print_binding_index 0
                (Samples.recognized Samples.print_first))
             (print_binding_index
                (set_print_binding_index 0
                   (Samples.recognized Samples.print_first))))
     = print_arg
         (set_print_binding_index 0
            (Samples.recognized Samples.print_first))
  /\ print_arg
       (set_print_binding_index 0
          (Samples.recognized Samples.print_first))
     = print_arg
         (Samples.recognized Samples.print_first)
  /\ (print_binding_index
        (Samples.recognized Samples.print_first) < 0 ->
      print_binding_index
        (set_print_binding_index 0
           (Samples.recognized Samples.print_first))
      = find_string_binding_index
          (Samples.recognized Samples.print_first)
          (print_arg
             (Samples.recognized Samples.print_first))).
Proof.
  apply (validated_print_binding
           (Samples.recognized Samples.print_first)
           (set_print_binding_index 0
              (Samples.recognized Samples.print_first))).
  - vm_compute. reflexivity.
  - vm_compute. reflexivity.
Defined.

End StringBindings.

(** ** Validation of recognized programs *)

Section RecognizedAndValidated.

Import Lines Layout Image.

Lemma sscanf_not_empty (fmt : list directive) :
  forall input s, In (CStr s) (sscanf fmt input) -> is_empty s = false.
Proof.
  induction fmt as [|[| l | w excluded |] fmt IH]; intros input s Hin;
    cbn [sscanf] in Hin.
  - contradiction.
  - now apply (IH (ltrim input)).
  - destruct input as [|d input]; [contradiction|].
    destruct (Ascii.eqb d l); [|contradiction]. now apply (IH input).
  - destruct (scan_set w excluded input) as [tok rest].
    destruct (is_empty tok) eqn:He; [contradiction|].
    destruct Hin as [E | Hin]; [inversion E; now subst | now apply (IH rest)].
  - destruct (scan_int input) as [[v rest]|]; [|contradiction].
    destruct Hin as [E | Hin]; [discriminate | now apply (IH rest)].
Qed.

Lemma strncpy_not_empty (s : string) :
  is_empty s = false -> is_empty (strncpy 128 s) = false.
Proof. destruct s; [discriminate | reflexivity]. Qed.

Lemma find_binding_name (bs : list int_binding) (nm : string) (b : int_binding) :
  find_binding bs nm = Some b -> ib_name b = nm.
Proof.
  induction bs as [|x bs IH]; [discriminate|].
  cbn [find_binding]. destruct (String.eqb_spec (ib_name x) nm) as [He|].
  - intros H. inversion H. now subst.
  - exact IH.
Qed.

Lemma loop_line_names (i : Z) (l : string) (st st' : loop_scan) :
  loop_line i l st = Continue st' ->
  Forall (fun b => is_empty (ib_name b) = false) (ls_bindings st) ->
  Forall (fun b => is_empty (ib_name b) = false) (ls_bindings st').
Proof.
  unfold loop_line, first_block, loop_let, loop_while, loop_exit, loop_return.
  intros H Hok.
  destruct (sscanf fmt_let_int l) as [|[a|v] [|[b|w] [|x xs]]] eqn:Hs;
    break_hyp H; inversion H; subst; cbn [ls_bindings]; try assumption.
  all: apply Forall_app; split; [assumption|].
  all: constructor; [|constructor]; cbn [ib_name].
  all: apply strncpy_not_empty, (sscanf_not_empty fmt_let_int l).
  all: rewrite Hs; now left.
Qed.

Lemma loop_scan_lines_names (lines : list string) :
  forall i st st',
    loop_scan_lines i lines st = inr st' ->
    Forall (fun b => is_empty (ib_name b) = false) (ls_bindings st) ->
    Forall (fun b => is_empty (ib_name b) = false) (ls_bindings st').
Proof.
  induction lines as [|l lines IH]; intros i st st' H Hok.
  - inversion H. now subst.
  - cbn [loop_scan_lines] in H.
    destruct (loop_line i l st) as [|d|st1] eqn:Hl;
      [now apply (IH (i + 1) st) | discriminate |].
    apply (IH (i + 1) st1); [assumption|]. now apply (loop_line_names i l st).
Qed.

(** X18: of the checks of the validator only one can fail on a Loop-Sum
    program the recognizer returns: accumulator and counter are never
    missing, so validation fails exactly when the exit or return variable
    is not the accumulator. *)
Theorem recognized_loop_validation (lines : list string) (ir0 ir : program_ir) :
  parse_loop_sum_program lines ir0 = inr ir ->
  validate_program ir
  = (if String.eqb (loop_exit_var (loop ir)) (accumulator (loop ir))
        && String.eqb (loop_return_var (loop ir)) (accumulator (loop ir))
     then None else Some LoopExitReturnNotAccumulator, ir).
Proof.
  unfold parse_loop_sum_program.
  destruct (loop_scan_lines 0 lines (loop_scan_start ir0)) as [d|st] eqn:Hscan;
    [discriminate|].
  assert (Hok : Forall (fun b => is_empty (ib_name b) = false) (ls_bindings st)).
  { apply (loop_scan_lines_names lines _ _ _ Hscan). constructor. }
  rewrite Forall_forall in Hok.
  unfold loop_finish. intros H. break_hyp H. inversion H. subst. clear H.
  unfold validate_program.
  cbn [kind set_kind loop set_loop set_loop_operands accumulator counter
       loop_exit_var loop_return_var].
  repeat match goal with
         | Hf : find_binding _ _ = Some _ |- _ =>
             pose proof (find_binding_name _ _ _ Hf);
             apply find_binding_in, Hok in Hf
         end.
  repeat match goal with
         | Hn : ib_name _ = _ |- _ => rewrite Hn in *; clear Hn
         end.
  repeat match goal with
         | He : is_empty ?s = false |- _ =>
             rewrite (strncpy_not_empty s He); clear He
         end.
  cbn [orb].
  destruct (String.eqb (loop_exit_var _) _);
    destruct (String.eqb (loop_return_var _) _); reflexivity.
Qed.

Lemma recognized_loop_validation_witness :
  validate_program (Samples.recognized (Samples.loop_sum "0" "5"))
  = (if String.eqb
          (loop_exit_var (loop (Samples.recognized (Samples.loop_sum "0" "5"))))
          (accumulator (loop (Samples.recognized (Samples.loop_sum "0" "5"))))
        && String.eqb
             (loop_return_var (loop (Samples.recognized (Samples.loop_sum "0" "5"))))
             (accumulator (loop (Samples.recognized (Samples.loop_sum "0" "5"))))
     then None else Some LoopExitReturnNotAccumulator,
     Samples.recognized (Samples.loop_sum "0" "5")).
Proof.
  apply (recognized_loop_validation (Samples.loop_sum "0" "5") fresh_ir).
  vm_compute. reflexivity.
Defined.

(** X19: of the checks of the validator only one can fail on a
    Pi-Approximation program the recognizer returns: the three bindings
    are never missing and the exit and return variables are the result
    already, so validation fails exactly when the denominator is zero. *)
Theorem recognized_pi_validation (lines : list string) (ir0 ir : program_ir) :
  parse_pi_program lines ir0 = inr ir ->
  validate_program ir
  = (if denominator_value (pi ir) =? 0 then Some PiDenominatorZero else None, ir).
Proof.
  intros Hparse.
  destruct (parse_pi_program_values _ _ _ Hparse) as (Hk & _ & _ & _ & Hn & Hd & Hs).
  unfold validate_program. rewrite Hk, Hn, Hd, Hs. cbn [orb].
  destruct (denominator_value (pi ir) =? 0); [reflexivity|].
  unfold parse_pi_program in Hparse.
  destruct (pi_scan_lines lines (pi_scan_start ir0)) as [d|st]; [discriminate|].
  unfold pi_finish in Hparse. break_hyp Hparse. inversion Hparse. subst. clear Hparse.
  cbn [pi set_kind set_pi set_pi_operands result_var pi_exit_var pi_return_var].
  repeat match goal with
         | Hb : (_ || _) = false |- _ => apply orb_false_iff in Hb; destruct Hb
         | Hb : negb _ = false |- _ => apply negb_false_iff in Hb
         end.
  repeat match goal with
         | Hb : String.eqb _ _ = true |- _ => apply String.eqb_eq in Hb
         end.
  replace (pi_return_var (pi (ps_ir st))) with (result_var (pi (ps_ir st)))
    by congruence.
  replace (pi_exit_var (pi (ps_ir st))) with (result_var (pi (ps_ir st)))
    by congruence.
  now rewrite String.eqb_refl.
Qed.

Lemma recognized_pi_validation_witness :
  validate_program (Samples.recognized (Samples.pi_approx "355" "0" "10000"))
  = (if denominator_value
          (pi (Samples.recognized (Samples.pi_approx "355" "0" "10000"))) =? 0
     then Some PiDenominatorZero else None,
     Samples.recognized (Samples.pi_approx "355" "0" "10000")).
Proof.
  apply (recognized_pi_validation (Samples.pi_approx "355" "0" "10000") fresh_ir).
  vm_compute. reflexivity.
Defined.

End RecognizedAndValidated.

(** ** The escapes of the C source *)

Section CSourceEscapes.

Import CSource.

Lemma hex_digit_printable (v : Z) : 0 <= v < 16 -> printable (hex_digit v).
Proof.
  intros Hv. unfold printable.
  destruct (nibble_cases v Hv)
    as [->|[->|[->|[->|[->|[->|[->|[->|[->|[->|[->|[->|[->|[->|[->| ->]]]]]]]]]]]]]]];
    vm_compute; split; discriminate.
Qed.

Lemma escape_seq_printable (c : ascii) :
  Forall printable (list_ascii_of_string (escape_seq c)).
Proof.
  unfold escape_seq.
  assert (Hb : printable backslash) by (vm_compute; split; discriminate).
  repeat match goal with
         | |- context [if Ascii.eqb c ?d then _ else _] =>
             destruct (Ascii.eqb c d);
             [cbn [list_ascii_of_string];
              repeat (apply Forall_cons; [vm_compute; split; discriminate|]);
              apply Forall_nil|]
         end.
  destruct ((32 <=? code c) && (code c <=? 126)) eqn:Hc.
  - apply andb_true_iff in Hc. destruct Hc as [H1 H2].
    apply Z.leb_le in H1, H2. cbn [list_ascii_of_string].
    constructor; [split; assumption | constructor].
  - cbn [hex_digits list_ascii_of_string].
    repeat (apply Forall_cons;
            [first [ exact Hb | apply hex_digit_printable, land_15_range
                   | vm_compute; split; discriminate ]|]).
    apply Forall_nil.
Qed.

Lemma escape_seq_length (c : ascii) :
  (1 <= String.length (escape_seq c) <= 4)%nat.
Proof.
  unfold escape_seq.
  repeat match goal with
         | |- context [if ?b then _ else _] => destruct b; [cbn; lia|]
         end.
  cbn. lia.
Qed.

Lemma append_nil_r (s : string) : (s ++ EmptyString)%string = s.
Proof. induction s as [|c s IH]; cbn; [reflexivity | now rewrite IH]. Qed.

Lemma list_ascii_of_string_app (a b : string) :
  list_ascii_of_string (a ++ b)
  = list_ascii_of_string a ++ list_ascii_of_string b.
Proof. induction a as [|c a IH]; cbn; [reflexivity | now rewrite IH]. Qed.

(** The loop stops at the first character whose escape sequence would not
    leave room for the terminator. *)
Lemma escape_c_loop_closed_form (p : string) (capacity : nat) :
  forall output,
    escape_c_loop p output capacity
    = if (capacity <=? String.length output + String.length (escaped p))%nat
      then None else Some (output ++ escaped p)%string.
Proof.
  induction p as [|c p IH]; intros output.
  - cbn [escape_c_loop escaped String.length]. now rewrite Nat.add_0_r, append_nil_r.
  - cbn [escape_c_loop escaped]. rewrite IH, !length_append, append_assoc.
    destruct (Nat.leb_spec capacity
                (String.length output + String.length (escape_seq c))),
      (Nat.leb_spec capacity
         (String.length output
          + (String.length (escape_seq c) + String.length (escaped p))));
      try reflexivity; try lia.
    + destruct (Nat.leb_spec capacity
                  (String.length output + String.length (escape_seq c)
                   + String.length (escaped p))); [reflexivity | lia].
    + destruct (Nat.leb_spec capacity
                  (String.length output + String.length (escape_seq c)
                   + String.length (escaped p))); [lia | reflexivity].
Qed.

Lemma escaped_length (p : string) :
  (String.length p <= String.length (escaped p) <= 4 * String.length p)%nat.
Proof.
  induction p as [|c p IH]; [cbn; lia|].
  cbn [escaped String.length]. rewrite length_append.
  pose proof (escape_seq_length c). lia.
Qed.

(** X20: [escape_c_string] returns the escape sequences of the characters
    of its input, or fails when they do not fit the buffer with the
    terminator; the text returned is printable, each character giving
    between one and four; the 4096 characters of the buffer of
    [emit_c_source] are enough for every literal of a binding. *)
Theorem escape_c_string_result (input : string) (capacity : nat) :
  escape_c_string input capacity
  = (if (capacity <=? String.length (escaped input))%nat
     then None else Some (escaped input))
  /\ (String.length input <= String.length (escaped input)
      <= 4 * String.length input)%nat
  /\ Forall printable (list_ascii_of_string (escaped input))
  /\ ((String.length input <= 1023)%nat ->
      escape_c_string input 4096 = Some (escaped input)).
Proof.
  pose proof (escaped_length input) as Hlen.
  split; [|split; [exact Hlen | split]].
  - unfold escape_c_string. now rewrite escape_c_loop_closed_form.
  - induction input as [|c input IH]; [constructor|].
    cbn [escaped]. rewrite list_ascii_of_string_app. apply Forall_app.
    split; [apply escape_seq_printable | apply IH, escaped_length].
  - intros Hshort. unfold escape_c_string. rewrite escape_c_loop_closed_form.
    cbn [String.length Nat.add].
    destruct (Nat.leb_spec 4096 (String.length (escaped input))); [lia | reflexivity].
Qed.

Lemma escape_c_string_result_witness :
  escape_c_string ("say " ++ q ++ "hi" ++ q) 12
  = (if (12 <=? String.length (escaped ("say " ++ q ++ "hi" ++ q)))%nat
     then None else Some (escaped ("say " ++ q ++ "hi" ++ q)))
  /\ (String.length ("say " ++ q ++ "hi" ++ q)
      <= String.length (escaped ("say " ++ q ++ "hi" ++ q))
      <= 4 * String.length ("say " ++ q ++ "hi" ++ q))%nat
  /\ Forall printable (list_ascii_of_string (escaped ("say " ++ q ++ "hi" ++ q)))
  /\ ((String.length ("say " ++ q ++ "hi" ++ q) <= 1023)%nat ->
      escape_c_string ("say " ++ q ++ "hi" ++ q) 4096
      = Some (escaped ("say " ++ q ++ "hi" ++ q))).
Proof. exact (escape_c_string_result ("say " ++ q ++ "hi" ++ q) 12). Defined.

End CSourceEscapes.

(** ** The sum a Loop-Sum program exits with *)

Section LoopSumExit.

Lemma descending_sum_closed_form (m : nat) :
  descending_sum m = Z.of_nat m * (Z.of_nat m + 1) / 2.
Proof.
  assert (H : 2 * descending_sum m = Z.of_nat m * (Z.of_nat m + 1)).
  { induction m as [|m IH]; [reflexivity|].
    change (descending_sum (S m)) with (Z.of_nat (S m) + descending_sum m). nia. }
  rewrite <- H. rewrite Z.mul_comm. now rewrite Z.div_mul by lia.
Qed.

(** X21: a Loop-Sum program the loader accepts with a counter of at least
    one: the instructions of its manifest, run from [main] on registers
    without bound, exit after five steps per turn with the accumulator
    plus [n (n + 1) / 2] in R0. *)
Theorem loaded_loop_sum_exit (input : string) (ir : program_ir) :
  load_program_ir input = inr ir ->
  kind ir = PROGRAM_LOOP_SUM ->
  1 <= counter_init (loop ir) ->
  execute (5 * Z.to_nat (counter_init (loop ir)) + 3) (snd (emit_manifest_items ir))
  = Some (Exited (accumulator_init (loop ir)
                  + counter_init (loop ir) * (counter_init (loop ir) + 1) / 2)).
Proof.
  intros Hload Hk Hpos.
  unfold load_program_ir, parse_source in Hload.
  destruct (load_lines (fgets_all 2048 input) []) as [d|lines]; [discriminate|].
  destruct (parse_lines lines fresh_ir) as [d|ir1] eqn:Hparse; [discriminate|].
  destruct (validate_program ir1) as [[d|] ir2] eqn:Hv; [discriminate|].
  inversion Hload. subst ir2. clear Hload.
  destruct (validate_program_keeps _ _ Hv) as (Hk1 & _ & Hl & _).
  apply parse_lines_kind in Hparse. rewrite <- Hk1, Hk in Hparse.
  destruct (parse_loop_sum_program_values _ _ _ Hparse) as (_ & Ha & Hn).
  rewrite <- Hl in Ha, Hn.
  rewrite (loop_template_positive_counter ir Hk Ha Hn Hpos).
  unfold loop_sum_value. rewrite descending_sum_closed_form.
  now rewrite Z2Nat.id by lia.
Qed.

Lemma loaded_loop_sum_exit_witness :
  execute
    (5 * Z.to_nat (counter_init (loop (Samples.recognized (Samples.loop_sum "2" "5"))))
     + 3)
    (snd (emit_manifest_items (Samples.recognized (Samples.loop_sum "2" "5"))))
  = Some (Exited
            (accumulator_init (loop (Samples.recognized (Samples.loop_sum "2" "5")))
             + counter_init (loop (Samples.recognized (Samples.loop_sum "2" "5")))
               * (counter_init (loop (Samples.recognized (Samples.loop_sum "2" "5")))
                  + 1) / 2)).
Proof.
  apply (loaded_loop_sum_exit (Samples.source (Samples.loop_sum "2" "5"))
           (Samples.recognized (Samples.loop_sum "2" "5"))).
  - vm_compute. reflexivity.
  - vm_compute. reflexivity.
  - vm_compute. discriminate.
Defined.

End LoopSumExit.

(** ** The integer bindings of a Pi-Approximation program *)

Section PiBindings.

Lemma find_binding_app (bs : list int_binding) (b x : int_binding) (nm : string) :
  find_binding bs nm = Some x -> find_binding (bs ++ [b]) nm = Some x.
Proof.
  induction bs as [|y bs IH]; [discriminate|].
  cbn [app find_binding]. now destruct (String.eqb (ib_name y) nm).
Qed.

Lemma pi_line_keeps_bindings (l : string) (st st' : pi_scan) (nm : string)
    (b : int_binding) :
  pi_line l st = Continue st' ->
  find_binding (ps_bindings st) nm = Some b ->
  find_binding (ps_bindings st') nm = Some b.
Proof.
  unfold pi_line, first_block, pi_let, pi_exit, pi_return, pi_mul, pi_div, pi_literal.
  intros H Hb.
  destruct (has_prefix "let " l).
  - destruct (sscanf fmt_let_expr l) as [|[a|v] [|[e|w] [|x xs]]];
      break_hyp H; inversion H; subst; cbn [ps_bindings]; try assumption.
    all: now apply find_binding_app.
  - break_hyp H; inversion H; subst; cbn [ps_bindings]; assumption.
Qed.

(** X22: the Pi-Approximation recognizer accepts a second binding of a
    name and never uses it: what a name is bound to after a line is what
    it was bound to before that line, through any number of lines. *)
Theorem pi_first_binding_wins (lines : list string) (nm : string) (b : int_binding) :
  forall st st',
    pi_scan_lines lines st = inr st' ->
    find_binding (ps_bindings st) nm = Some b ->
    find_binding (ps_bindings st') nm = Some b.
Proof.
  induction lines as [|l lines IH]; intros st st' H Hb.
  - inversion H. now subst.
  - cbn [pi_scan_lines] in H.
    destruct (pi_line l st) as [|d|st1] eqn:Hl;
      [now apply (IH st) | discriminate |].
    apply (IH st1); [assumption|]. now apply (pi_line_keeps_bindings l st).
Qed.

Lemma pi_first_binding_wins_witness :
  find_binding
    (ps_bindings
       {| ps_bindings := [{| ib_name := "num"; ib_value := 355 |};
                          {| ib_name := "num"; ib_value := 22 |}];
          ps_have_mul := false; ps_have_div := false; ps_ir := fresh_ir |}) "num"
  = Some {| ib_name := "num"; ib_value := 355 |}.
Proof.
  apply (pi_first_binding_wins ["let num: int = 22;"] "num"
           {| ib_name := "num"; ib_value := 355 |}
           {| ps_bindings := [{| ib_name := "num"; ib_value := 355 |}];
              ps_have_mul := false; ps_have_div := false; ps_ir := fresh_ir |}).
  - vm_compute. reflexivity.
  - reflexivity.
Defined.

End PiBindings.

(** ** The command line *)

Section CommandLine.

Import Driver.

Lemma scan_arguments_app_bounded (n : nat) :
  forall first o o1 second,
    (List.length first <= n)%nat ->
    scan_arguments first o = inr o1 ->
    scan_arguments (first ++ second) o = scan_arguments second o1.
Proof.
  induction n as [|n IH]; intros first o o1 second Hlen H.
  - destruct first; [|cbn in Hlen; lia]. inversion H. reflexivity.
  - destruct first as [|a [|v rest]].
    + inversion H. reflexivity.
    + cbn [scan_arguments] in H.
      destruct (String.eqb a "-o" || String.eqb a "--output"); [discriminate|].
      destruct (String.eqb a "--emit-bin"); [discriminate|].
      destruct (String.eqb a "--emit-exe"); discriminate.
    + cbn [app scan_arguments List.length] in *.
      destruct (String.eqb a "-o" || String.eqb a "--output");
        [apply IH; [lia | exact H]|].
      destruct (String.eqb a "--emit-bin"); [apply IH; [lia | exact H]|].
      destruct (String.eqb a "--emit-exe"); [apply IH; [lia | exact H] | discriminate].
Qed.

(** X23: the options are read from left to right, each with the argument
    that follows it: arguments accepted so far can be followed by any
    others, which are read in the state the first left; in particular an
    output option at the end replaces the output path given before and
    leaves the other paths. *)
Theorem options_read_in_order (first second : list string) (o o1 : options) :
  scan_arguments first o = inr o1 ->
  scan_arguments (first ++ second) o = scan_arguments second o1
  /\ forall path,
       scan_arguments (first ++ ["-o"; path]) o
       = inr {| output_path := Some path; binary_path := binary_path o1;
                exe_path := exe_path o1 |}.
Proof.
  intros H. split.
  - now apply (scan_arguments_app_bounded (List.length first)).
  - intros path.
    now rewrite (scan_arguments_app_bounded (List.length first) first o o1).
Qed.

Lemma options_read_in_order_witness :
  scan_arguments (["-o"; "a.aurs"; "--emit-bin"; "a.bin"] ++ ["--emit-exe"]) no_options
  = scan_arguments ["--emit-exe"]
      {| output_path := Some "a.aurs"; binary_path := Some "a.bin"; exe_path := None |}
  /\ forall path,
       scan_arguments (["-o"; "a.aurs"; "--emit-bin"; "a.bin"] ++ ["-o"; path])
         no_options
       = inr {| output_path := Some path;
                binary_path :=
                  binary_path {| output_path := Some "a.aurs";
                                 binary_path := Some "a.bin"; exe_path := None |};
                exe_path :=
                  exe_path {| output_path := Some "a.aurs";
                              binary_path := Some "a.bin"; exe_path := None |} |}.
Proof.
  apply (options_read_in_order ["-o"; "a.aurs"; "--emit-bin"; "a.bin"] ["--emit-exe"]
           no_options
           {| output_path := Some "a.aurs"; binary_path := Some "a.bin";
              exe_path := None |}).
  reflexivity.
Defined.

Lemma scan_arguments_output_bounded (n : nat) :
  forall args o o1,
    (List.length args <= n)%nat ->
    ~ In "-o" args -> ~ In "--output" args ->
    scan_arguments args o = inr o1 ->
    output_path o1 = output_path o.
Proof.
  induction n as [|n IH]; intros args o o1 Hlen Ho Hout H.
  - destruct args; [|cbn in Hlen; lia]. inversion H. reflexivity.
  - destruct args as [|a [|v rest]].
    + inversion H. reflexivity.
    + cbn [scan_arguments] in H.
      destruct (String.eqb a "-o" || String.eqb a "--output"); [discriminate|].
      destruct (String.eqb a "--emit-bin"); [discriminate|].
      destruct (String.eqb a "--emit-exe"); discriminate.
    + cbn [scan_arguments] in H.
      assert (Hrest : ~ In "-o" rest /\ ~ In "--output" rest)
        by (split; intros Hin; [apply Ho | apply Hout]; right; now right).
      destruct Hrest as [Hr1 Hr2]. cbn [List.length] in Hlen.
      destruct (String.eqb_spec a "-o") as [->|_]; [exfalso; apply Ho; now left|].
      destruct (String.eqb_spec a "--output") as [->|_];
        [exfalso; apply Hout; now left|].
      cbn [orb] in H.
      destruct (String.eqb a "--emit-bin");
        [now rewrite (IH rest _ o1 ltac:(lia) Hr1 Hr2 H)|].
      destruct (String.eqb a "--emit-exe");
        [now rewrite (IH rest _ o1 ltac:(lia) Hr1 Hr2 H) | discriminate].
Qed.

(** X24: without an output option on the command line [main] fails
    before it calls the library, whatever else is asked for: the file
    system is left as it was. *)
Theorem no_output_option_no_call
    (world : Type)
    (compile_file assemble_manifest compile_to_exe
       : string -> string -> world -> Z * world)
    (argv : list string) (w : world) :
  ~ In "-o" argv -> ~ In "--output" argv ->
  main world compile_file assemble_manifest compile_to_exe argv w
  = (EXIT_FAILURE, w).
Proof.
  intros Ho Hout. unfold main.
  destruct (command_line argv) as [e|[[input output] o]] eqn:Hc; [reflexivity|].
  exfalso. unfold command_line in Hc.
  destruct argv as [|program [|command [|input_path args]]]; try discriminate.
  destruct (negb (String.eqb command "compile")); [discriminate|].
  destruct (scan_arguments args no_options) as [e|o1] eqn:Hs; [discriminate|].
  apply (scan_arguments_output_bounded (List.length args)) in Hs; [|lia| |].
  - cbn in Hs. rewrite Hs in Hc. discriminate.
  - intros Hin. apply Ho. right. right. now right.
  - intros Hin. apply Hout. right. right. now right.
Qed.

Lemma no_output_option_no_call_witness :
  main nat (fun _ _ w => (0, S w)) (fun _ _ w => (0, S w)) (fun _ _ w => (0, S w))
    ["aurc"; "compile"; "hello.aur"; "--emit-bin"; "hello.bin"] 0%nat
  = (EXIT_FAILURE, 0%nat).
Proof.
  apply (no_output_option_no_call nat (fun _ _ w => (0, S w)) (fun _ _ w => (0, S w))
           (fun _ _ w => (0, S w))
           ["aurc"; "compile"; "hello.aur"; "--emit-bin"; "hello.bin"] 0%nat).
  - intros H. repeat (destruct H as [H | H]; [discriminate H|]). exact H.
  - intros H. repeat (destruct H as [H | H]; [discriminate H|]). exact H.
Defined.

End CommandLine.

(** ** Numerals read by [strtoll] *)

Section Numerals.

Lemma digit_not_space (c : ascii) (v : Z) :
  digit_value 10 c = Some v -> isspace c = false.
Proof.
  destruct c as [[] [] [] [] [] [] [] []];
    (intros H; vm_compute in H; try discriminate H); reflexivity.
Qed.







End Numerals.

(** ** The exit code of String programs *)

Section StringExitCode.


















End StringExitCode.

(** ** Literal initializers of Pi-Approximation programs *)

Section PiLiterals.







End PiLiterals.

Section PiLiteralsInstances.

Local Open Scope string_scope.



End PiLiteralsInstances.

(** ** What the recognizers do with a statement *)

Section StatementOutcomes.

Local Open Scope string_scope.















End StatementOutcomes.

Section MalformedStatementsInstances.

Local Open Scope string_scope.



End MalformedStatementsInstances.

(** ** Failed compilations *)

Section FailedCompilation.

Local Open Scope string_scope.

(** X14: the compilation of an input file that is read fails only where
    the loader fails, with the loader's diagnostic, or where the output
    file cannot be opened: the writer refuses nothing in the IR the loader
    returns.  A failed compilation leaves the output file as it was. *)
Theorem failed_compilation_writes_nothing
    (input : string) (opened : bool) (output after : file) (d : diag) :
  aurc_compile_file input opened output = (Some d, after) ->
  after = output
  /\ (load_program_ir input = inl d
      \/ (opened = false /\ d = OutputNotOpened
          /\ exists ir, load_program_ir input = inr ir)).
Proof.
  unfold aurc_compile_file, emit_manifest. intros H.
  destruct (load_program_ir input) as [d'|ir] eqn:Hload.
  - inversion H. subst. split; [reflexivity | now left].
  - destruct opened; cbn [negb] in H.
    + pose proof (loaded_ir_is_written _ _ Hload) as Hw.
      destruct (emit_manifest_items ir) as [rc out]. cbn [fst] in Hw. subst rc.
      discriminate H.
    + inversion H. subst. split; [reflexivity|]. right.
      split; [reflexivity|]. split; [reflexivity|]. now exists ir.
Qed.

Lemma failed_compilation_writes_nothing_witness :
  ((None : file) = (None : file)
   /\ (load_program_ir (Samples.source (Samples.greeting "3")) = inl OnlyExitCodeZero
       \/ (true = false /\ OnlyExitCodeZero = OutputNotOpened
           /\ exists ir, load_program_ir (Samples.source (Samples.greeting "3"))
                         = inr ir)))
  /\ (Some "kept" = Some "kept"
      /\ (load_program_ir (Samples.source (Samples.greeting "0")) = inl OutputNotOpened
          \/ (false = false /\ OutputNotOpened = OutputNotOpened
              /\ exists ir, load_program_ir (Samples.source (Samples.greeting "0"))
                            = inr ir))).
Proof.
  split.
  - apply (failed_compilation_writes_nothing
             (Samples.source (Samples.greeting "3")) true None None OnlyExitCodeZero).
    vm_compute. reflexivity.
  - apply (failed_compilation_writes_nothing
             (Samples.source (Samples.greeting "0")) false (Some "kept") (Some "kept")
             OutputNotOpened).
    vm_compute. reflexivity.
Defined.

End FailedCompilation.
